(** * Selective Repeat over the Kurose network emulator

    A shallow embedding of the sender (entity A) and receiver (entity B)
    routines of [sr.c] and of its unnamed sibling draft (317 lines, the one
    that keeps a [timer_running] flag), and of the timeout handler of
    [sr-harry.c], followed by the properties that the specification states
    about them.

    Modelling conventions.
    - The file-level [static] variables of an entity become one record; a
      handler is a function from that record to the new record and the list
      of emulator calls it made, in program order.
    - A C array is a list; reading or writing outside of it has no defined
      result, so every handler returns an [option].  The loops are given
      fuel; [None] also stands for a loop that did not finish.
    - C [int] is [Z] and C [%] is [Z.rem] (truncation toward zero).  The
      checksum, which adds up whatever the channel delivered, is reduced to
      32 bits two's complement; the protocol variables are small (see
      [sender_wf] and the reachability lemmas) and the statistics counters
      are left unbounded.
    - [printf] tracing is not modelled. *)

From stdpp Require Import prelude strings.
From Stdlib Require Import ZArith Lia Ascii.

#[local] Open Scope Z_scope.

(** ** The emulator interface *)

(** Modelled from the spec: [struct msg] of emulator.h, which is not among
    the sources: an opaque application data unit of twenty characters. *)
Record msg : Type := Msg { data : list ascii }.

(** Modelled from the spec: [struct pkt] of emulator.h, which is not among
    the sources: sequence number, acknowledgment number, checksum and a
    payload of twenty characters, as section 3 of the specification lists
    them and as the handlers use them. *)
Record pkt : Type := Pkt {
  seqnum : Z;
  acknum : Z;
  checksum : Z;
  payload : list ascii
}.

(** Modelled from the spec: the two entities the emulator knows. *)
Inductive entity : Type := A | B.

(** Modelled from the spec: the collaborator calls of section 6, recorded as
    the trace a handler leaves behind. *)
Inductive event : Type :=
  | tolayer3 (AorB : entity) (packet : pkt)
  | tolayer5 (AorB : entity) (datasent : list ascii)
  | starttimer (AorB : entity) (increment : Z)
  | stoptimer (AorB : entity).

#[global] Instance pkt_eq_dec : EqDecision pkt.
Proof. solve_decision. Defined.
#[global] Instance entity_eq_dec : EqDecision entity.
Proof. solve_decision. Defined.
#[global] Instance event_eq_dec : EqDecision event.
Proof. solve_decision. Defined.

(** ** Constants of the protocol files *)

Definition RTT : Z := 16.
Definition WINDOWSIZE : Z := 6.
Definition SEQSPACE : Z := 12.
Definition NOTINUSE : Z := -1.

(** ** Integers, characters and arrays *)

Definition int_wrap (z : Z) : Z := (z + 2 ^ 31) `mod` 2 ^ 32 - 2 ^ 31.

(** [(int) c] for a [char] that is signed, as on the usual targets. *)
Definition char_to_int (c : ascii) : Z :=
  let n := Z.of_N (N_of_ascii c) in if decide (n < 128) then n else n - 256.

(** [a[i]] as an rvalue. *)
Definition idx {X : Type} (a : list X) (i : Z) : option X :=
  if decide (0 ≤ i) then a !! Z.to_nat i else None.

(** [a[i] = x]. *)
Definition upd {X : Type} (a : list X) (i : Z) (x : X) : option (list X) :=
  if decide (0 ≤ i < Z.of_nat (length a)) then Some (<[Z.to_nat i := x]> a)
  else None.

(** ** Checksum (identical in every file) *)

Definition ComputeChecksum (packet : pkt) : Z :=
  let checksum := packet.(seqnum) in
  let checksum := int_wrap (checksum + packet.(acknum)) in
  foldl (λ checksum c, int_wrap (checksum + char_to_int c))
        checksum (take 20 packet.(payload)).

Definition IsCorrupted (packet : pkt) : bool :=
  if decide (packet.(checksum) = ComputeChecksum packet) then false else true.

Arguments int_wrap : simpl never.
Arguments char_to_int : simpl never.
Arguments ComputeChecksum : simpl never.
Arguments IsCorrupted : simpl never.
#[local] Arguments Z.rem : simpl never.
#[local] Arguments Z.modulo : simpl never.

(** ** Window arithmetic shared by the handlers *)

(** The containment test that [A_input] spells out on [send_base] and
    [packet.acknum], and [B_input] on [rcv_base] and [packet.seqnum], with
    [last] for [(base + WINDOWSIZE - 1) % SEQSPACE]. *)
Definition in_window (base x : Z) : bool :=
  let last := Z.rem (base + WINDOWSIZE - 1) SEQSPACE in
  bool_decide ((base <= last ∧ (x >= base ∧ x <= last)) ∨
               (base > last ∧ (x >= base ∨ x <= last))).

Arguments in_window : simpl never.

(** The loop of [A_input] that moves the window past acknowledged slots:
<<
  while (acked[send_base % WINDOWSIZE]) {
    acked[send_base % WINDOWSIZE] = false;
    send_base = (send_base + 1) % SEQSPACE;
    windowcount--;
    if (windowcount == 0) break;
  }
>> *)
Fixpoint slide (fuel : nat) (acked : list bool) (send_base windowcount : Z)
  : option (list bool * Z * Z) :=
  match fuel with
  | O => None
  | S fuel =>
      a ← idx acked (Z.rem send_base WINDOWSIZE);
      if (a : bool) then
        acked ← upd acked (Z.rem send_base WINDOWSIZE) false;
        let send_base := Z.rem (send_base + 1) SEQSPACE in
        let windowcount := windowcount - 1 in
        if decide (windowcount = 0) then Some (acked, send_base, windowcount)
        else slide fuel acked send_base windowcount
      else Some (acked, send_base, windowcount)
  end.

(** The loop of [B_input] that hands the buffered run to layer 5:
<<
  while (rcv_acked[rcv_base % WINDOWSIZE]) {
    tolayer5(B, rcv_buffer[rcv_base % WINDOWSIZE].payload);
    rcv_acked[rcv_base % WINDOWSIZE] = false;
    rcv_base = (rcv_base + 1) % SEQSPACE;
  }
>> *)
Fixpoint deliver (fuel : nat) (rcv_buffer : list pkt) (rcv_acked : list bool)
    (rcv_base : Z) : option (list bool * Z * list event) :=
  match fuel with
  | O => None
  | S fuel =>
      a ← idx rcv_acked (Z.rem rcv_base WINDOWSIZE);
      if (a : bool) then
        p ← idx rcv_buffer (Z.rem rcv_base WINDOWSIZE);
        rcv_acked ← upd rcv_acked (Z.rem rcv_base WINDOWSIZE) false;
        '(rcv_acked, rcv_base, out) ←
           deliver fuel rcv_buffer rcv_acked (Z.rem (rcv_base + 1) SEQSPACE);
        Some (rcv_acked, rcv_base, tolayer5 B p.(payload) :: out)
      else Some (rcv_acked, rcv_base, [])
  end.

(** ** The receiver variables and the receiving half of [B_input]

    Both files declare the same four [static] variables for entity B and
    share, word for word, the part of [B_input] that precedes the
    construction of the acknowledgment ([sr.c] lines 241-292, the sibling
    draft lines 221-273). *)

(** Modelled from the spec: [packets_received] is a counter of emulator.h,
    which is not among the sources; it is kept with the receiver. *)
Record receiver : Type := Receiver {
  B_nextseqnum : Z;
  rcv_buffer : list pkt;
  rcv_acked : list bool;
  rcv_base : Z;
  packets_received : Z
}.

(** The result is the new state, the deliveries made and the value stored
    in [sendpkt.acknum]. *)
Definition B_accept (st : receiver) (packet : pkt)
  : option (receiver * list event * Z) :=
  if negb (IsCorrupted packet) then
    if in_window st.(rcv_base) packet.(seqnum) then
      let packets_received := st.(packets_received) + 1 in
      let packet_index := Z.rem packet.(seqnum) WINDOWSIZE in
      rcv_buffer ← upd st.(rcv_buffer) packet_index packet;
      rcv_acked ← upd st.(rcv_acked) packet_index true;
      '(rcv_acked, rcv_base, out) ←
         (if decide (packet.(seqnum) = st.(rcv_base)) then
            deliver (S (length rcv_acked)) rcv_buffer rcv_acked st.(rcv_base)
          else Some (rcv_acked, st.(rcv_base), []));
      Some ({| B_nextseqnum := st.(B_nextseqnum);
               rcv_buffer := rcv_buffer;
               rcv_acked := rcv_acked;
               rcv_base := rcv_base;
               packets_received := packets_received |},
            out, packet.(seqnum))
    else
      Some (st, [], packet.(seqnum))
  else
    Some (st, [],
          if decide (st.(rcv_base) = 0) then SEQSPACE - 1
          else st.(rcv_base) - 1).

(** A zeroed [struct pkt], the content of a [static] array at start-up. *)
Definition zero_pkt : pkt :=
  {| seqnum := 0; acknum := 0; checksum := 0;
     payload := replicate 20 "000"%char |}.

(** Modelled from the spec: the sender-side counters of emulator.h, which is
    not among the sources (the non-functional counters of section 4.1). *)
Record A_stats : Type := AStats {
  window_full : Z;
  total_ACKs_received : Z;
  new_ACKs : Z;
  packets_resent : Z
}.

Definition stats0 : A_stats :=
  {| window_full := 0; total_ACKs_received := 0; new_ACKs := 0;
     packets_resent := 0 |}.

Definition incr_window_full (s : A_stats) : A_stats :=
  {| window_full := s.(window_full) + 1;
     total_ACKs_received := s.(total_ACKs_received);
     new_ACKs := s.(new_ACKs);
     packets_resent := s.(packets_resent) |}.

Definition incr_total_ACKs_received (s : A_stats) : A_stats :=
  {| window_full := s.(window_full);
     total_ACKs_received := s.(total_ACKs_received) + 1;
     new_ACKs := s.(new_ACKs);
     packets_resent := s.(packets_resent) |}.

Definition incr_new_ACKs (s : A_stats) : A_stats :=
  {| window_full := s.(window_full);
     total_ACKs_received := s.(total_ACKs_received);
     new_ACKs := s.(new_ACKs) + 1;
     packets_resent := s.(packets_resent) |}.

Definition incr_packets_resent (s : A_stats) : A_stats :=
  {| window_full := s.(window_full);
     total_ACKs_received := s.(total_ACKs_received);
     new_ACKs := s.(new_ACKs);
     packets_resent := s.(packets_resent) + 1 |}.

(** The packet [A_output] builds from a message. *)
Definition data_pkt (nextseqnum : Z) (message : msg) : pkt :=
  let sendpkt :=
    {| seqnum := nextseqnum; acknum := NOTINUSE; checksum := 0;
       payload := take 20 message.(data) |} in
  {| seqnum := sendpkt.(seqnum); acknum := sendpkt.(acknum);
     checksum := ComputeChecksum sendpkt; payload := sendpkt.(payload) |}.

(** ** Vocabulary of the statements *)

(** A packet as section 3 of the specification types it ([acknum] is a
    sequence number or the unused marker, [seqnum] is a sequence number),
    or one the checksum rejects: the two kinds of packet the channel hands
    over. *)
Definition ack_typed (packet : pkt) : Prop :=
  IsCorrupted packet = true ∨ 0 ≤ packet.(acknum) < SEQSPACE ∨
  packet.(acknum) = NOTINUSE.

Definition data_typed (packet : pkt) : Prop :=
  IsCorrupted packet = true ∨ 0 ≤ packet.(seqnum) < SEQSPACE.

(** The acknowledgment is rejected by the checksum, or lies outside the
    window, or is for one of the [windowcount] sequence numbers from
    [send_base] on. *)
Definition ack_for_sent (send_base windowcount : Z) (packet : pkt) : bool :=
  IsCorrupted packet ||
  negb (in_window send_base packet.(acknum)) ||
  bool_decide ((packet.(acknum) - send_base) `mod` SEQSPACE < windowcount).

(** The payloads handed to layer 5, and the packets handed to layer 3 by
    an entity, in order. *)
Definition delivered (out : list event) : list (list ascii) :=
  omap (λ e, match e with tolayer5 B d => Some d | _ => None end) out.

Definition sent_by (who : entity) (out : list event) : list pkt :=
  omap (λ e, match e with
             | tolayer3 w p => if decide (w = who) then Some p else None
             | _ => None
             end) out.

(** [n] consecutive sequence numbers from [b] on. *)
Definition consecutive (b : Z) (n : nat) : list Z :=
  (λ k : nat, (b + Z.of_nat k) `mod` SEQSPACE) <$> seq 0 n.

(** Number of flags that are set. *)
Fixpoint count_set (flags : list bool) : nat :=
  match flags with
  | [] => 0
  | b :: flags => ((if b then 1 else 0) + count_set flags)%nat
  end.

(** The slot of a sequence number. *)
Definition slot (s : Z) : nat := Z.to_nat (s `mod` WINDOWSIZE).

(** The output of the receiving half of [B_input]: calls of [tolayer5]. *)
Definition only_deliveries (out : list event) : Prop :=
  Forall (λ e, ∃ d, e = tolayer5 B d) out.

(** The window moved by [k] slots from ([acked], [send_base],
    [windowcount]), the state in which a new acknowledgment for the base
    arrives, to ([acked'], [send_base'], [windowcount']):
    - the slots behind the base, up to the [k]-th, were acknowledged
      already;
    - each of the [k] slots passed, base included, ends up cleared, and no
      other flag changed;
    - [windowcount] went down by one per slot and was not zero in between;
    - the move ended because [windowcount] reached zero or because the next
      slot was not acknowledged. *)
Definition window_slid (acked : list bool) (send_base windowcount : Z)
    (k : nat) (acked' : list bool) (send_base' windowcount' : Z) : Prop :=
  (1 ≤ k ≤ 6)%nat ∧
  send_base' = (send_base + Z.of_nat k) `mod` SEQSPACE ∧
  windowcount' = windowcount - Z.of_nat k ∧
  (∀ j, (0 < j < k)%nat →
     acked !! slot (send_base + Z.of_nat j) = Some true) ∧
  (∀ j, (j < k)%nat →
     acked' !! slot (send_base + Z.of_nat j) = Some false) ∧
  (∀ i, (∀ j, (j < k)%nat → i ≠ slot (send_base + Z.of_nat j)) →
     acked' !! i = acked !! i) ∧
  (∀ j, (0 < j < k)%nat → windowcount - Z.of_nat j ≠ 0) ∧
  (windowcount' = 0 ∨
   acked !! slot (send_base + Z.of_nat k) = Some false).

(** The relation between the window variables of the sender that holds
    whatever acknowledgments arrive: base and next sequence number are
    [windowcount] apart, and the base slot is unacknowledged while anything
    is outstanding. *)
Definition window_inv (acked : list bool)
    (send_base A_nextseqnum windowcount : Z) : Prop :=
  0 ≤ send_base < SEQSPACE ∧
  0 ≤ A_nextseqnum < SEQSPACE ∧
  length acked = 6%nat ∧
  (A_nextseqnum - send_base - windowcount) `mod` SEQSPACE = 0 ∧
  (windowcount > 0 → acked !! slot send_base = Some false).

(** The receive window, told with a ghost count [D] of the payloads
    delivered so far (so [rcv_base] is [D] modulo [SEQSPACE]): every slot
    whose flag is set holds a packet that stands for one position [k] of the
    window of [WINDOWSIZE] positions from [D] on, namely the position this
    slot belongs to; [Q k p] is what is known of the packet [p] stored for
    position [k]. *)
Definition rcv_inv (Q : Z → pkt → Prop) (D : Z) (rcv_buffer : list pkt)
    (rcv_acked : list bool) (rcv_base : Z) : Prop :=
  0 ≤ D ∧
  rcv_base = D `mod` SEQSPACE ∧
  length rcv_acked = 6%nat ∧
  length rcv_buffer = 6%nat ∧
  ∀ j, rcv_acked !! j = Some true →
    ∃ p k, rcv_buffer !! j = Some p ∧
           D ≤ k < D + WINDOWSIZE ∧
           slot k = j ∧
           p.(seqnum) = k `mod` SEQSPACE ∧
           Q k p.

(** The packets [qs] stand for the positions [D], [D + 1], ... *)
Definition numbered (Q : Z → pkt → Prop) (D : Z) (qs : list pkt) : Prop :=
  ∀ (i : nat) q, qs !! i = Some q →
    q.(seqnum) = (D + Z.of_nat i) `mod` SEQSPACE ∧ Q (D + Z.of_nat i) q.

(** A packet the receiver can take when [D] payloads have been delivered:
    the checksum rejects it, or its sequence number is typed and, should it
    fall into the window, it stands for a position of the window. *)
Definition admissible (Q : Z → pkt → Prop) (D : Z) (packet : pkt) : Prop :=
  IsCorrupted packet = true ∨
  (0 ≤ packet.(seqnum) < SEQSPACE ∧
   (in_window (D `mod` SEQSPACE) packet.(seqnum) = true →
    ∃ k, D ≤ k < D + WINDOWSIZE ∧
         packet.(seqnum) = k `mod` SEQSPACE ∧ Q k packet)).

(** The packet [A_output] builds for the [k]-th message it accepts, the
    messages being [stream 0], [stream 1], ... (lemmas
    [Part000_accepted_packet] and [Sr_accepted_packet]). *)
Definition nth_pkt (stream : nat → msg) (k : nat) : pkt :=
  data_pkt (Z.of_nat k `mod` SEQSPACE) (stream k).

(** The packet stored for position [k] is the [k]-th packet. *)
Definition stands_for (stream : nat → msg) (k : Z) (p : pkt) : Prop :=
  0 ≤ k ∧ p = nth_pkt stream (Z.to_nat k).

(** Modelled from the spec: what the channel of section 6 hands to the
    receiver, a faithful copy of the [k]-th packet (the first copy or a
    retransmission), or a packet the checksum will reject; a dropped packet
    is no arrival. *)
Inductive arrival : Type :=
  | copy (k : nat)
  | damaged (packet : pkt).

Definition pkt_of (stream : nat → msg) (a : arrival) : pkt :=
  match a with
  | copy k => nth_pkt stream k
  | damaged packet => packet
  end.

(** Modelled from the spec: an arrival that the window of the sender and
    the order kept by the channel of section 6 allow when [D] payloads have
    been delivered, a copy being of a packet less than a window behind or
    ahead. *)
Definition fits (D : nat) (a : arrival) : Prop :=
  match a with
  | copy k => (D ≤ k + 6 ∧ k < D + 6)%nat
  | damaged packet => IsCorrupted packet = true
  end.

(** Runs of the receiver; [step] is the [B_input] of one of the files. *)
Fixpoint receiver_run {X : Type}
    (step : receiver → X → option (receiver * list event))
    (st : receiver) (arrivals : list X) : option (receiver * list event) :=
  match arrivals with
  | [] => Some (st, [])
  | x :: arrivals =>
      '(st, out) ← step st x;
      '(st, out') ← receiver_run step st arrivals;
      Some (st, out ++ out')
  end.

(** Every arrival fits the number of payloads delivered before it. *)
Definition channel_consistent {X : Type} (what : X → arrival)
    (run : list X → option (receiver * list event))
    (arrivals : list X) : Prop :=
  ∀ pre x post st out,
    arrivals = pre ++ x :: post →
    run pre = Some (st, out) →
    fits (length (delivered out)) (what x).

(** Events of an entity, for runs of several handler calls. *)
Inductive A_event : Type :=
  | ev_output (message : msg)
  | ev_input (packet : pkt)
  | ev_timerinterrupt.

(** The message an event makes [A_output] accept, the window count being
    [windowcount]. *)
Definition accepts (windowcount : Z) (ev : A_event) : list msg :=
  match ev with
  | ev_output message =>
      if decide (windowcount < WINDOWSIZE) then [message] else []
  | _ => []
  end.

(** Every acknowledgment among the events is typed or rejected by the
    checksum. *)
Definition acks_typed (evs : list A_event) : Prop :=
  Forall (λ ev, match ev with
                | ev_input packet => ack_typed packet
                | _ => True
                end) evs.

(** ** [sr.c] *)

Module Sr.

Record sender : Type := Sender {
  buffer : list pkt;
  windowcount : Z;
  A_nextseqnum : Z;
  send_base : Z;
  acked : list bool;
  timer_ids : list Z;
  stats : A_stats
}.

Definition set_stats (st : sender) (s : A_stats) : sender :=
  {| buffer := st.(buffer); windowcount := st.(windowcount);
     A_nextseqnum := st.(A_nextseqnum); send_base := st.(send_base);
     acked := st.(acked); timer_ids := st.(timer_ids); stats := s |}.

Definition A_output (st : sender) (message : msg)
  : option (sender * list event) :=
  if decide (st.(windowcount) < WINDOWSIZE) then
    let sendpkt := data_pkt st.(A_nextseqnum) message in
    let buf_index := Z.rem st.(A_nextseqnum) WINDOWSIZE in
    buffer ← upd st.(buffer) buf_index sendpkt;
    acked ← upd st.(acked) buf_index false;
    timer_ids ← upd st.(timer_ids) buf_index sendpkt.(seqnum);
    Some ({| buffer := buffer;
             windowcount := st.(windowcount) + 1;
             A_nextseqnum := Z.rem (st.(A_nextseqnum) + 1) SEQSPACE;
             send_base := st.(send_base);
             acked := acked;
             timer_ids := timer_ids;
             stats := st.(stats) |},
          [tolayer3 A sendpkt; starttimer A RTT])
  else
    Some (set_stats st (incr_window_full st.(stats)), []).

(** The loop that follows the slide in [A_input]; it assigns to its own
    counter [i]:
<<
for (i = 0; i < windowcount; i++) {
  int seqnum = (send_base + i) % WINDOWSIZE;
  if (seqnum == A_nextseqnum) break;
  i = seqnum % WINDOWSIZE;
  if (!acked[i]) { starttimer(A, RTT); break; }
}
>> *)
Fixpoint restart_timer (fuel : nat) (acked : list bool)
    (send_base windowcount A_nextseqnum : Z) (i : Z)
  : option (list event) :=
  match fuel with
  | O => None
  | S fuel =>
      if decide (i < windowcount) then
        let seqnum := Z.rem (send_base + i) WINDOWSIZE in
        if decide (seqnum = A_nextseqnum) then Some []
        else
          let i := Z.rem seqnum WINDOWSIZE in
          a ← idx acked i;
          if negb a then Some [starttimer A RTT]
          else restart_timer fuel acked send_base windowcount
                             A_nextseqnum (i + 1)
      else Some []
  end.

Definition A_input (st : sender) (packet : pkt)
  : option (sender * list event) :=
  if negb (IsCorrupted packet) then
    let stats := incr_total_ACKs_received st.(stats) in
    if in_window st.(send_base) packet.(acknum) then
      let i := Z.rem packet.(acknum) WINDOWSIZE in
      a ← idx st.(acked) i;
      if (a : bool) then Some (set_stats st stats, [])
      else
        let stats := incr_new_ACKs stats in
        acked ← upd st.(acked) i true;
        '(acked, send_base, windowcount) ←
           (if decide (packet.(acknum) = st.(send_base)) then
              slide (S (length acked)) acked st.(send_base)
                    st.(windowcount)
            else Some (acked, st.(send_base), st.(windowcount)));
        timer ←
           (if decide (windowcount > 0) then
              restart_timer (S (S (length acked))) acked send_base
                            windowcount st.(A_nextseqnum) 0
            else Some []);
        Some ({| buffer := st.(buffer);
                 windowcount := windowcount;
                 A_nextseqnum := st.(A_nextseqnum);
                 send_base := send_base;
                 acked := acked;
                 timer_ids := st.(timer_ids);
                 stats := stats |},
              stoptimer A :: timer)
    else Some (set_stats st stats, [])
  else Some (st, []).

(** The loop of [A_timerinterrupt]; it too assigns to its counter:
<<
for (i = 0; i < windowcount; i++) {
  i = (send_base + i) % SEQSPACE % WINDOWSIZE;
  if (!acked[i] && (send_base + i) % SEQSPACE != A_nextseqnum) {
    tolayer3(A, buffer[i]);
    packets_resent++;
    starttimer(A, RTT);
    break;
  }
}
>>
    The result is the slot that was resent, if any. *)
Fixpoint resend_scan (fuel : nat) (acked : list bool)
    (send_base windowcount A_nextseqnum : Z) (i : Z) : option (option Z) :=
  match fuel with
  | O => None
  | S fuel =>
      if decide (i < windowcount) then
        let i := Z.rem (Z.rem (send_base + i) SEQSPACE) WINDOWSIZE in
        a ← idx acked i;
        if negb a &&
           negb (bool_decide (Z.rem (send_base + i) SEQSPACE = A_nextseqnum))
        then Some (Some i)
        else resend_scan fuel acked send_base windowcount A_nextseqnum
                         (i + 1)
      else Some None
  end.

Definition A_timerinterrupt (st : sender) : option (sender * list event) :=
  found ← resend_scan (S (S (length st.(acked)))) st.(acked) st.(send_base)
                      st.(windowcount) st.(A_nextseqnum) 0;
  match found with
  | Some i =>
      p ← idx st.(buffer) i;
      Some (set_stats st (incr_packets_resent st.(stats)),
            [tolayer3 A p; starttimer A RTT])
  | None => Some (st, [])
  end.

Definition A_init : sender :=
  {| buffer := replicate 6 zero_pkt;
     windowcount := 0;
     A_nextseqnum := 0;
     send_base := 0;
     acked := replicate 6 true;
     timer_ids := replicate 6 NOTINUSE;
     stats := stats0 |}.

(** The tail of [B_input]: the closing brace of the [for] comes after the
    call of [tolayer3]:
<<
for (i = 0; i < 20; i++) {
  sendpkt.payload[i] = '0';
sendpkt.checksum = ComputeChecksum(sendpkt);
tolayer3(B, sendpkt);
}
>>
    [n] is the number of rounds left. *)
Fixpoint fill_and_send (n : nat) (i : Z) (sendpkt : pkt)
  : option (list event) :=
  match n with
  | O => Some []
  | S n =>
      filled ← upd sendpkt.(payload) i "0"%char;
      let sendpkt :=
        {| seqnum := sendpkt.(seqnum); acknum := sendpkt.(acknum);
           checksum := sendpkt.(checksum); payload := filled |} in
      let sendpkt :=
        {| seqnum := sendpkt.(seqnum); acknum := sendpkt.(acknum);
           checksum := ComputeChecksum sendpkt;
           payload := sendpkt.(payload) |} in
      rest ← fill_and_send n (i + 1) sendpkt;
      Some (tolayer3 B sendpkt :: rest)
  end.

(** [junk] is what the uninitialised local [sendpkt] holds in its payload
    on entry (its checksum is assigned before it is first read). *)
Definition B_input (st : receiver) (packet : pkt) (junk : list ascii)
  : option (receiver * list event) :=
  '(st, out, ack) ← B_accept st packet;
  let sendpkt :=
    {| seqnum := st.(B_nextseqnum); acknum := ack;
       checksum := 0; payload := junk |} in
  sent ← fill_and_send 20 0 sendpkt;
  Some ({| B_nextseqnum := Z.rem (st.(B_nextseqnum) + 1) 2;
           rcv_buffer := st.(rcv_buffer);
           rcv_acked := st.(rcv_acked);
           rcv_base := st.(rcv_base);
           packets_received := st.(packets_received) |},
        out ++ sent).

Definition B_init : receiver :=
  {| B_nextseqnum := 0;
     rcv_buffer := replicate 6 zero_pkt;
     rcv_acked := replicate 6 false;
     rcv_base := 0;
     packets_received := 0 |}.

(** *** Runs and well-formed states *)

Definition A_step (st : sender) (ev : A_event)
  : option (sender * list event) :=
  match ev with
  | ev_output message => A_output st message
  | ev_input packet => A_input st packet
  | ev_timerinterrupt => A_timerinterrupt st
  end.

Fixpoint A_run (st : sender) (evs : list A_event)
  : option (sender * list event) :=
  match evs with
  | [] => Some (st, [])
  | ev :: evs =>
      '(st, out) ← A_step st ev;
      '(st, out') ← A_run st evs;
      Some (st, out ++ out')
  end.

(** The messages that [A_output] accepts in the course of a run. *)
Fixpoint accepted (st : sender) (evs : list A_event) : list msg :=
  match evs with
  | [] => []
  | ev :: evs =>
      accepts st.(windowcount) ev ++
      match A_step st ev with
      | Some (st, _) => accepted st evs
      | None => []
      end
  end.

(** What the declarations and [A_init] fix once and for all: the arrays
    have [WINDOWSIZE] entries and the base is a sequence number.  The
    bound on [windowcount] is the guard of [A_output]; without it the
    timer loop of [A_input] need not finish. *)
Definition sender_wf (st : sender) : Prop :=
  0 ≤ st.(send_base) < SEQSPACE ∧
  Z.of_nat (length st.(acked)) = WINDOWSIZE ∧
  Z.of_nat (length st.(buffer)) = WINDOWSIZE ∧
  Z.of_nat (length st.(timer_ids)) = WINDOWSIZE ∧
  st.(windowcount) ≤ WINDOWSIZE.

(** Equality of sender states up to the statistics counters. *)
Definition same_upto_counters (s1 s2 : sender) : Prop :=
  set_stats s1 stats0 = set_stats s2 stats0.

(** Every uncorrupted acknowledgment that falls into the window is for
    one of the [windowcount] packets that are outstanding. *)
Fixpoint acks_for_sent (st : sender) (evs : list A_event) : Prop :=
  match evs with
  | [] => True
  | ev :: evs =>
      match ev with
      | ev_input packet =>
          ack_for_sent st.(send_base) st.(windowcount) packet = true
      | _ => True
      end ∧
      match A_step st ev with
      | Some (st, _) => acks_for_sent st evs
      | None => True
      end
  end.

(** An arrival comes with the junk found in [sendpkt]. *)
Definition B_run (st : receiver) (arrivals : list (pkt * list ascii))
  : option (receiver * list event) :=
  receiver_run (λ st a, B_input st a.1 a.2) st arrivals.

End Sr.

(** ** The sibling draft (source file of unknown name, 317 lines)

    It differs from [sr.c] in the timer handling: a [timer_running] flag
    replaces [timer_ids], the timer is tied to the base of the window, and
    [A_timerinterrupt] looks at the base slot only.  Its [B_input] sends
    the acknowledgment after the payload loop. *)

Module Part000.

Record sender : Type := Sender {
  buffer : list pkt;
  acked : list bool;
  send_base : Z;
  A_nextseqnum : Z;
  windowcount : Z;
  timer_running : bool;
  stats : A_stats
}.

Definition set_stats (st : sender) (s : A_stats) : sender :=
  {| buffer := st.(buffer); acked := st.(acked);
     send_base := st.(send_base); A_nextseqnum := st.(A_nextseqnum);
     windowcount := st.(windowcount);
     timer_running := st.(timer_running); stats := s |}.

Definition A_output (st : sender) (message : msg)
  : option (sender * list event) :=
  if decide (st.(windowcount) < WINDOWSIZE) then
    let sendpkt := data_pkt st.(A_nextseqnum) message in
    let buf_index := Z.rem st.(A_nextseqnum) WINDOWSIZE in
    buffer ← upd st.(buffer) buf_index sendpkt;
    acked ← upd st.(acked) buf_index false;
    let start :=
      bool_decide (st.(windowcount) = 0) && negb st.(timer_running) in
    Some ({| buffer := buffer;
             acked := acked;
             send_base := st.(send_base);
             A_nextseqnum := Z.rem (st.(A_nextseqnum) + 1) SEQSPACE;
             windowcount := st.(windowcount) + 1;
             timer_running :=
               if start then true else st.(timer_running);
             stats := st.(stats) |},
          tolayer3 A sendpkt ::
          (if start then [starttimer A RTT] else []))
  else
    Some (set_stats st (incr_window_full st.(stats)), []).

Definition A_input (st : sender) (packet : pkt)
  : option (sender * list event) :=
  if negb (IsCorrupted packet) then
    let stats := incr_total_ACKs_received st.(stats) in
    if in_window st.(send_base) packet.(acknum) then
      let index := Z.rem packet.(acknum) WINDOWSIZE in
      a ← idx st.(acked) index;
      if (a : bool) then Some (set_stats st stats, [])
      else
        let stats := incr_new_ACKs stats in
        acked ← upd st.(acked) index true;
        if decide (packet.(acknum) = st.(send_base)) then
          '(acked, send_base, windowcount) ←
             slide (S (length acked)) acked st.(send_base)
                   st.(windowcount);
          let restart := bool_decide (windowcount > 0) in
          Some ({| buffer := st.(buffer);
                   acked := acked;
                   send_base := send_base;
                   A_nextseqnum := st.(A_nextseqnum);
                   windowcount := windowcount;
                   timer_running := restart;
                   stats := stats |},
                stoptimer A ::
                (if restart then [starttimer A RTT] else []))
        else
          Some ({| buffer := st.(buffer);
                   acked := acked;
                   send_base := st.(send_base);
                   A_nextseqnum := st.(A_nextseqnum);
                   windowcount := st.(windowcount);
                   timer_running := st.(timer_running);
                   stats := stats |},
                [])
    else Some (set_stats st stats, [])
  else Some (st, []).

Definition A_timerinterrupt (st : sender) : option (sender * list event) :=
  let index := Z.rem st.(send_base) WINDOWSIZE in
  a ← idx st.(acked) index;
  if negb a then
    p ← idx st.(buffer) index;
    Some ({| buffer := st.(buffer);
             acked := st.(acked);
             send_base := st.(send_base);
             A_nextseqnum := st.(A_nextseqnum);
             windowcount := st.(windowcount);
             timer_running := true;
             stats := incr_packets_resent st.(stats) |},
          [tolayer3 A p; starttimer A RTT])
  else Some (st, []).

Definition A_init : sender :=
  {| buffer := replicate 6 zero_pkt;
     acked := replicate 6 true;
     send_base := 0;
     A_nextseqnum := 0;
     windowcount := 0;
     timer_running := false;
     stats := stats0 |}.

Definition B_input (st : receiver) (packet : pkt)
  : option (receiver * list event) :=
  '(st, out, ack) ← B_accept st packet;
  let sendpkt :=
    {| seqnum := st.(B_nextseqnum); acknum := ack; checksum := 0;
       payload := replicate 20 "0"%char |} in
  let sendpkt :=
    {| seqnum := sendpkt.(seqnum); acknum := sendpkt.(acknum);
       checksum := ComputeChecksum sendpkt;
       payload := sendpkt.(payload) |} in
  Some ({| B_nextseqnum := Z.rem (st.(B_nextseqnum) + 1) 2;
           rcv_buffer := st.(rcv_buffer);
           rcv_acked := st.(rcv_acked);
           rcv_base := st.(rcv_base);
           packets_received := st.(packets_received) |},
        out ++ [tolayer3 B sendpkt]).

Definition B_init : receiver :=
  {| B_nextseqnum := 1;
     rcv_buffer := replicate 6 zero_pkt;
     rcv_acked := replicate 6 false;
     rcv_base := 0;
     packets_received := 0 |}.

(** *** Runs and well-formed states *)

Definition A_step (st : sender) (ev : A_event)
  : option (sender * list event) :=
  match ev with
  | ev_output message => A_output st message
  | ev_input packet => A_input st packet
  | ev_timerinterrupt => A_timerinterrupt st
  end.

Fixpoint A_run (st : sender) (evs : list A_event)
  : option (sender * list event) :=
  match evs with
  | [] => Some (st, [])
  | ev :: evs =>
      '(st, out) ← A_step st ev;
      '(st, out') ← A_run st evs;
      Some (st, out ++ out')
  end.

(** The messages that [A_output] accepts in the course of a run. *)
Fixpoint accepted (st : sender) (evs : list A_event) : list msg :=
  match evs with
  | [] => []
  | ev :: evs =>
      accepts st.(windowcount) ev ++
      match A_step st ev with
      | Some (st, _) => accepted st evs
      | None => []
      end
  end.

(** What the declarations and [A_init] fix once and for all: the arrays
    have [WINDOWSIZE] entries and the base is a sequence number. *)
Definition sender_wf (st : sender) : Prop :=
  0 ≤ st.(send_base) < SEQSPACE ∧
  Z.of_nat (length st.(acked)) = WINDOWSIZE ∧
  Z.of_nat (length st.(buffer)) = WINDOWSIZE.

(** Equality of sender states up to the statistics counters. *)
Definition same_upto_counters (s1 s2 : sender) : Prop :=
  set_stats s1 stats0 = set_stats s2 stats0.

(** Every uncorrupted acknowledgment that falls into the window is for
    one of the [windowcount] packets that are outstanding. *)
Fixpoint acks_for_sent (st : sender) (evs : list A_event) : Prop :=
  match evs with
  | [] => True
  | ev :: evs =>
      match ev with
      | ev_input packet =>
          ack_for_sent st.(send_base) st.(windowcount) packet = true
      | _ => True
      end ∧
      match A_step st ev with
      | Some (st, _) => acks_for_sent st evs
      | None => True
      end
  end.

Definition B_run (st : receiver) (arrivals : list pkt)
  : option (receiver * list event) :=
  receiver_run B_input st arrivals.

End Part000.

(** ** [sr-harry.c], first of the two programs in that file

    Only its timeout handler is embedded: it is the sibling of the handler
    of [sr.c] that keeps the loop counter and the slot index apart. *)

Module SrHarry.

Record sender : Type := Sender {
  buffer : list pkt;
  acked : list bool;
  timers : list Z;
  send_base : Z;
  nextseqnum : Z;
  windowcount : Z;
  stats : A_stats
}.

(** The loop of [A_timerinterrupt], [n] rounds before [i] reaches
    [WINDOWSIZE]:
<<
  for (int i = 0; i < WINDOWSIZE; i++) {
    index = (send_base + i) % SEQSPACE % WINDOWSIZE;
    if (!acked[index] && (send_base + i) % SEQSPACE != nextseqnum) {
      tolayer3(A, buffer[index]);
      packets_resent++;
      starttimer(A, RTT);
      break;
    }
  }
>>
    The result is the slot that was resent, if any. *)
Fixpoint resend_scan (n : nat) (acked : list bool)
    (send_base nextseqnum : Z) (i : Z) : option (option Z) :=
  match n with
  | O => Some None
  | S n =>
      let index := Z.rem (Z.rem (send_base + i) SEQSPACE) WINDOWSIZE in
      a ← idx acked index;
      if negb a &&
         negb (bool_decide (Z.rem (send_base + i) SEQSPACE = nextseqnum))
      then Some (Some index)
      else resend_scan n acked send_base nextseqnum (i + 1)
  end.

Definition A_timerinterrupt (st : sender) : option (sender * list event) :=
  found ← resend_scan 6 st.(acked) st.(send_base) st.(nextseqnum) 0;
  match found with
  | Some index =>
      p ← idx st.(buffer) index;
      Some ({| buffer := st.(buffer);
               acked := st.(acked);
               timers := st.(timers);
               send_base := st.(send_base);
               nextseqnum := st.(nextseqnum);
               windowcount := st.(windowcount);
               stats := incr_packets_resent st.(stats) |},
            [tolayer3 A p; starttimer A RTT])
  | None => Some (st, [])
  end.

End SrHarry.

(** ** Vocabulary of the further properties *)

(** The sum of the characters that [ComputeChecksum] adds up, before the
    reduction to 32 bits. *)
Definition payload_sum (cs : list ascii) : Z :=
  foldr (λ c s, char_to_int c + s) 0 cs.

(** Every acknowledgment among the events is rejected by the checksum or
    has an [acknum] that is not negative. *)
Definition acks_indexable (evs : list A_event) : Prop :=
  Forall (λ ev, match ev with
                | ev_input packet =>
                    IsCorrupted packet = true ∨ 0 ≤ packet.(acknum)
                | _ => True
                end) evs.

(** Every acknowledgment among the events is rejected by the checksum or
    acknowledges a sequence number. *)
Definition acks_numbered (evs : list A_event) : Prop :=
  Forall (λ ev, match ev with
                | ev_input packet =>
                    IsCorrupted packet = true ∨
                    0 ≤ packet.(acknum) < SEQSPACE
                | _ => True
                end) evs.

(** Modelled from the spec: the timer of entity A, a single-shot alarm
    that can be cancelled (sections 5 and 6).  [timer_call strict running e]
    is its state after the call [e], or [None] if the call is out of turn:
    [starttimer] while the timer runs and, with [strict], [stoptimer] while
    it does not. *)
Definition timer_call (strict running : bool) (e : event) : option bool :=
  match e with
  | starttimer A _ => if running then None else Some true
  | stoptimer A => if running || negb strict then Some false else None
  | _ => Some running
  end.

Fixpoint timer_after (strict running : bool) (out : list event)
  : option bool :=
  match out with
  | [] => Some running
  | e :: out =>
      running ← timer_call strict running e;
      timer_after strict running out
  end.

(** Modelled from the spec: the sender beside its timer.  The timer has
    gone off, and so does not run, when [A_timerinterrupt] is entered; the
    calls a handler makes are applied in order.  The result is [None] if a
    handler has no defined result or a timer call is out of turn. *)
Fixpoint timer_run {S : Type} (step : S → A_event → option (S * list event))
    (strict : bool) (st : S) (running : bool) (evs : list A_event)
  : option (S * bool) :=
  match evs with
  | [] => Some (st, running)
  | ev :: evs =>
      '(st, out) ← step st ev;
      running ←
        timer_after strict
          (match ev with ev_timerinterrupt => false | _ => running end) out;
      timer_run step strict st running evs
  end.

(** Modelled from the spec: the emulator calls [A_timerinterrupt] only
    while the timer runs. *)
Fixpoint interrupts_due {S : Type}
    (step : S → A_event → option (S * list event))
    (strict : bool) (st : S) (running : bool) (evs : list A_event) : Prop :=
  match evs with
  | [] => True
  | ev :: evs =>
      (ev = ev_timerinterrupt → running = true) ∧
      match step st ev with
      | Some (st, out) =>
          match timer_after strict
                  (match ev with ev_timerinterrupt => false | _ => running end)
                  out with
          | Some running => interrupts_due step strict st running evs
          | None => True
          end
      | None => True
      end
  end.

(** What the declarations of the receiver fix: the arrays have
    [WINDOWSIZE] entries and the base is a sequence number. *)
Definition receiver_wf (st : receiver) : Prop :=
  0 ≤ st.(rcv_base) < SEQSPACE ∧
  length st.(rcv_acked) = 6%nat ∧
  length st.(rcv_buffer) = 6%nat.

(** The numbers of the packets of which a faithful copy is among the
    arrivals. *)
Definition copies (arrivals : list arrival) : list nat :=
  omap (λ a, match a with copy k => Some k | damaged _ => None end) arrivals.

(** The receive window when [D] payloads have been delivered and copies of
    the packets [arrived] have come in: a flag is set exactly for the
    packets of the window that have arrived, and these sit in their slots;
    the packet the base waits for has not arrived, all before it have, and
    none beyond the window has. *)
Definition rcv_complete (stream : nat → msg) (arrived : list nat) (D : nat)
    (st : receiver) : Prop :=
  st.(rcv_base) = Z.of_nat D `mod` SEQSPACE ∧
  length st.(rcv_acked) = 6%nat ∧
  length st.(rcv_buffer) = 6%nat ∧
  (∀ k, (D ≤ k < D + 6)%nat →
     st.(rcv_acked) !! slot (Z.of_nat k)
     = Some (bool_decide (k ∈ arrived))) ∧
  (∀ k, (D ≤ k < D + 6)%nat → k ∈ arrived →
     st.(rcv_buffer) !! slot (Z.of_nat k) = Some (nth_pkt stream k)) ∧
  (D ∉ arrived) ∧
  (∀ k, (k < D)%nat → k ∈ arrived) ∧
  (∀ k, k ∈ arrived → (k < D + 6)%nat).

(** The outstanding packets sit in the buffer: for each of the
    [windowcount] sequence numbers from [send_base] on, the slot holds the
    packet that [A_output] built for it from some message, and that packet
    is among [sent]. *)
Definition buffer_holds (buffer : list pkt) (send_base windowcount : Z)
    (sent : list pkt) : Prop :=
  ∀ j, 0 ≤ j < windowcount →
    ∃ m, buffer !! slot (send_base + j)
         = Some (data_pkt ((send_base + j) `mod` SEQSPACE) m) ∧
         data_pkt ((send_base + j) `mod` SEQSPACE) m ∈ sent.

(** Every slot of the buffer holds a packet out of [sent]; or else the
    sender is in its first round: the sequence numbers are below
    [WINDOWSIZE] and count the slots written, the window lies below
    [A_nextseqnum], the slots below [A_nextseqnum] hold packets out of
    [sent], and the flags from [A_nextseqnum] on are as [A_init] set
    them. *)
Definition slots_written (buffer : list pkt) (acked : list bool)
    (send_base A_nextseqnum windowcount : Z) (sent : list pkt) : Prop :=
  (∀ i, (i < 6)%nat → ∃ p, buffer !! i = Some p ∧ p ∈ sent) ∨
  (0 ≤ send_base ∧ 0 ≤ windowcount ∧
   send_base + windowcount = A_nextseqnum ∧ A_nextseqnum < WINDOWSIZE ∧
   (∀ i, Z.of_nat i < A_nextseqnum → ∃ p, buffer !! i = Some p ∧ p ∈ sent) ∧
   (∀ i, A_nextseqnum ≤ Z.of_nat i < WINDOWSIZE → acked !! i = Some true)).

(** The packet is the one [A_output] builds for one of the messages
    [msgs], the [k]-th, with the sequence number of the [k]-th. *)
Definition built_from (msgs : list msg) (p : pkt) : Prop :=
  ∃ (k : nat) m,
    msgs !! k = Some m ∧ p = data_pkt (Z.of_nat k `mod` SEQSPACE) m.

(** The slot [i] places from the base on is one that the timeout scan of
    [sr-harry.c] stops at: its flag is clear and its sequence number is not
    [nextseqnum]. *)
Definition resend_due (acked : list bool) (send_base nextseqnum i : Z)
  : Prop :=
  acked !! slot (send_base + i) = Some false ∧
  (send_base + i) `mod` SEQSPACE ≠ nextseqnum.

(** The messages that layer 5 hands to [A_output] in the course of the
    events, accepted or not. *)
Definition offered (evs : list A_event) : list msg :=
  omap (λ ev, match ev with ev_output message => Some message | _ => None end)
       evs.

(** The packets among the events that [A_input] finds uncorrupted. *)
Definition intact_acks (evs : list A_event) : list pkt :=
  omap (λ ev, match ev with
              | ev_input packet =>
                  if IsCorrupted packet then None else Some packet
              | _ => None
              end) evs.

(** The counters moved from [c] to [c'] as the traffic requires: one
    [window_full] per message refused, one [total_ACKs_received] per
    uncorrupted acknowledgment, at most one [new_ACKs] per
    [total_ACKs_received], one [packets_resent] per packet handed to
    layer 3 beyond the first transmissions. *)
Definition counters_advance (c c' : A_stats) (evs : list A_event)
    (accepted : list msg) (out : list event) : Prop :=
  c'.(window_full)
    = c.(window_full) + Z.of_nat (length (offered evs))
      - Z.of_nat (length accepted) ∧
  c'.(total_ACKs_received)
    = c.(total_ACKs_received) + Z.of_nat (length (intact_acks evs)) ∧
  0 ≤ c'.(new_ACKs) - c.(new_ACKs)
    ≤ c'.(total_ACKs_received) - c.(total_ACKs_received) ∧
  c'.(packets_resent)
    = c.(packets_resent) + Z.of_nat (length (sent_by A out))
      - Z.of_nat (length accepted).

(** ** Sample traffic, used to instantiate the statements *)

Definition sample_msg (c : ascii) : msg := Msg (replicate 20 c).

(** The acknowledgment [B_input] builds for [k] with sequence bit [b]. *)
Definition ack_pkt (b k : Z) : pkt :=
  let sendpkt :=
    {| seqnum := b; acknum := k; checksum := 0;
       payload := replicate 20 "0"%char |} in
  {| seqnum := sendpkt.(seqnum); acknum := sendpkt.(acknum);
     checksum := ComputeChecksum sendpkt; payload := sendpkt.(payload) |}.

(** A packet whose first payload character was overwritten in transit. *)
Definition garble (p : pkt) : pkt :=
  {| seqnum := p.(seqnum); acknum := p.(acknum); checksum := p.(checksum);
     payload := <[0%nat := "Z"%char]> p.(payload) |}.

Definition sample_junk : list ascii := replicate 20 "x"%char.

(** One message sent and acknowledged, a second one sent: the state in
    which the timer of [sr.c] protects packet 1. *)
Definition one_outstanding : list A_event :=
  [ev_output (sample_msg "a"); ev_input (ack_pkt 0 0);
   ev_output (sample_msg "b")].

(** Six messages sent and acknowledged in order, then an acknowledgment for
    sequence number 6, which was never sent. *)
Definition spurious_ack_run : list A_event :=
  replicate 6 (ev_output (sample_msg "a")) ++
  ((λ k, ev_input (ack_pkt 0 k)) <$> [0; 1; 2; 3; 4; 5; 6]).

(** The sender after six messages were accepted and none acknowledged. *)
Definition Sr_full_window : Sr.sender :=
  default Sr.A_init
    (fst <$> Sr.A_run Sr.A_init (replicate 6 (ev_output (sample_msg "a")))).

Definition Part000_full_window : Part000.sender :=
  default Part000.A_init
    (fst <$> Part000.A_run Part000.A_init
               (replicate 6 (ev_output (sample_msg "a")))).

Definition Part000_one_outstanding : Part000.sender :=
  default Part000.A_init
    (fst <$> Part000.A_run Part000.A_init one_outstanding).

(** The full window after the acknowledgment for packet 0 was taken. *)
Definition Sr_acked_once : Sr.sender :=
  default Sr.A_init (fst <$> Sr.A_input Sr_full_window (ack_pkt 0 0)).

Definition Part000_acked_once : Part000.sender :=
  default Part000.A_init
    (fst <$> Part000.A_input Part000_full_window (ack_pkt 0 0)).

(** Two messages sent and the second one acknowledged first; the
    acknowledgment for the base is the next to arrive. *)
Definition second_acked_first : list A_event :=
  [ev_output (sample_msg "a"); ev_output (sample_msg "b");
   ev_input (ack_pkt 0 1)].

Definition Sr_base_pending : Sr.sender :=
  default Sr.A_init (fst <$> Sr.A_run Sr.A_init second_acked_first).

Definition Part000_base_pending : Part000.sender :=
  default Part000.A_init
    (fst <$> Part000.A_run Part000.A_init second_acked_first).

(** The arrival order of the third scenario of section 8. *)
Definition out_of_order : list pkt :=
  [data_pkt 0 (sample_msg "a"); data_pkt 2 (sample_msg "c");
   data_pkt 1 (sample_msg "b")].

Definition out_of_order_junk : list (pkt * list ascii) :=
  (λ p, (p, sample_junk)) <$> out_of_order.

(** The receiver of each file, started by [B_init], on what the channel
    makes of the packets of [stream]. *)
Definition Part000_receive (stream : nat → msg) (arrivals : list arrival)
  : option (receiver * list event) :=
  Part000.B_run Part000.B_init (pkt_of stream <$> arrivals).

Definition Sr_receive (stream : nat → msg)
    (arrivals : list (arrival * list ascii))
  : option (receiver * list event) :=
  Sr.B_run Sr.B_init ((λ x, (pkt_of stream x.1, x.2)) <$> arrivals).

(** Messages a, b, c, ...; packet 2 overtakes packet 1, whose first copy
    is damaged, and packet 0 comes a second time. *)
Definition sample_stream (k : nat) : msg :=
  sample_msg (ascii_of_nat (97 + k)).

Definition in_flight : list arrival :=
  [copy 0; copy 2; damaged (garble (nth_pkt sample_stream 1)); copy 1;
   copy 0].

Definition in_flight_junk : list (arrival * list ascii) :=
  (λ a, (a, sample_junk)) <$> in_flight.

Definition Sr_one_outstanding : Sr.sender :=
  default Sr.A_init (fst <$> Sr.A_run Sr.A_init one_outstanding).

Definition Sr_received : receiver :=
  default Sr.B_init (fst <$> Sr.B_run Sr.B_init out_of_order_junk).

Definition Part000_received : receiver :=
  default Part000.B_init
    (fst <$> Part000.B_run Part000.B_init out_of_order).

(** The window variables of [Sr_one_outstanding], read as a state of
    [sr-harry.c]. *)
Definition SrHarry_one_outstanding : SrHarry.sender :=
  {| SrHarry.buffer := Sr_one_outstanding.(Sr.buffer);
     SrHarry.acked := Sr_one_outstanding.(Sr.acked);
     SrHarry.timers := Sr_one_outstanding.(Sr.timer_ids);
     SrHarry.send_base := Sr_one_outstanding.(Sr.send_base);
     SrHarry.nextseqnum := Sr_one_outstanding.(Sr.A_nextseqnum);
     SrHarry.windowcount := Sr_one_outstanding.(Sr.windowcount);
     SrHarry.stats := Sr_one_outstanding.(Sr.stats) |}.

(** The first packet of the sample stream with its first two payload
    characters exchanged for others with the same sum. *)
Definition compensated : pkt :=
  let p := nth_pkt sample_stream 0 in
  {| seqnum := p.(seqnum); acknum := p.(acknum); checksum := p.(checksum);
     payload := <[0%nat := "`"%char]> (<[1%nat := "b"%char]> p.(payload)) |}.

(** Seven messages sent and acknowledged one by one, and an eighth sent:
    the window starts at 7 and reaches over the end of the sequence
    space. *)
Definition wrapped_run : list A_event :=
  mjoin ((λ k, [ev_output (sample_msg "a"); ev_input (ack_pkt 0 k)])
           <$> [0; 1; 2; 3; 4; 5; 6]) ++
  [ev_output (sample_msg "b")].

Definition Sr_wrapped : Sr.sender :=
  default Sr.A_init (fst <$> Sr.A_run Sr.A_init wrapped_run).

Definition Part000_wrapped : Part000.sender :=
  default Part000.A_init
    (fst <$> Part000.A_run Part000.A_init wrapped_run).

Definition Sr_wrapped_out : list event :=
  default [] (snd <$> Sr.A_run Sr.A_init wrapped_run).

Definition Part000_wrapped_out : list event :=
  default [] (snd <$> Part000.A_run Part000.A_init wrapped_run).


(** The receiver after the first seven packets of the sample stream. *)
Definition seven_arrivals : list pkt :=
  nth_pkt sample_stream <$> seq 0 7.

Definition Part000_rcv_wrapped : receiver :=
  default Part000.B_init
    (fst <$> Part000.B_run Part000.B_init seven_arrivals).

(** A message is sent, the timer goes off and the packet is resent, the
    acknowledgment arrives; then a second message is sent and
    acknowledged. *)
Definition timed_run : list A_event :=
  [ev_output (sample_msg "a"); ev_timerinterrupt; ev_input (ack_pkt 1 0);
   ev_output (sample_msg "b"); ev_input (ack_pkt 0 1)].

(** Six messages sent and acknowledged, six more sent: the window is full,
    it starts at 6 and the next sequence number is 0 again. *)
Definition second_round : list A_event :=
  mjoin ((λ k, [ev_output (sample_msg "a"); ev_input (ack_pkt 0 k)])
           <$> [0; 1; 2; 3; 4; 5]) ++
  replicate 6 (ev_output (sample_msg "b")).

Definition Sr_second_round : Sr.sender :=
  default Sr.A_init (fst <$> Sr.A_run Sr.A_init second_round).


Definition Sr_timed : Sr.sender :=
  default Sr.A_init (fst <$> Sr.A_run Sr.A_init timed_run).

Definition Sr_timed_out : list event :=
  default [] (snd <$> Sr.A_run Sr.A_init timed_run).

Definition Part000_timed : Part000.sender :=
  default Part000.A_init (fst <$> Part000.A_run Part000.A_init timed_run).

Definition Part000_timed_out : list event :=
  default [] (snd <$> Part000.A_run Part000.A_init timed_run).
(** * Properties *)

(** ** Arrays and arithmetic *)

Section Arrays.
Context {X : Type}.
Implicit Types (a : list X) (i : Z) (x : X).

Lemma idx_lookup a i : 0 ≤ i → idx a i = a !! Z.to_nat i.
Proof. intros Hi. unfold idx. by rewrite decide_True. Qed.

Lemma idx_Some a i x :
  idx a i = Some x → 0 ≤ i < Z.of_nat (length a) ∧ a !! Z.to_nat i = Some x.
Proof.
  unfold idx. case_decide; [|done]. intros Hx. split; [|done].
  apply lookup_lt_Some in Hx. lia.
Qed.

Lemma upd_Some a i x a' :
  upd a i x = Some a' →
  0 ≤ i < Z.of_nat (length a) ∧ a' = <[Z.to_nat i := x]> a.
Proof.
  unfold upd. destruct (decide _) as [Hi|]; [|done].
  intros [= <-]. done.
Qed.

Lemma upd_in_range a i x :
  0 ≤ i < Z.of_nat (length a) → upd a i x = Some (<[Z.to_nat i := x]> a).
Proof. intros Hi. unfold upd. by rewrite decide_True. Qed.

Lemma upd_length a i x a' : upd a i x = Some a' → length a' = length a.
Proof. intros [_ ->]%upd_Some. apply length_insert. Qed.
End Arrays.

(** Linear goals over [mod] and [rem] by the constants of the protocol. *)
Ltac modarith :=
  unfold slot, SEQSPACE, WINDOWSIZE, NOTINUSE in *;
  Z.to_euclidean_division_equations; lia.

Lemma rem_slot s : 0 ≤ s → Z.to_nat (Z.rem s WINDOWSIZE) = slot s.
Proof. intros Hs. unfold slot. f_equal. modarith. Qed.

Lemma slot_lt s : (slot s < 6)%nat.
Proof. modarith. Qed.

Lemma slot_mod_seqspace s : slot (s `mod` SEQSPACE) = slot s.
Proof. unfold slot. f_equal. modarith. Qed.

Lemma slot_eq_iff s t :
  slot s = slot t ↔ (s - t) `mod` WINDOWSIZE = 0.
Proof.
  unfold slot. rewrite Z2Nat.inj_iff by modarith. modarith.
Qed.

(** On sequence numbers the test of the handlers is containment in the
    window of [WINDOWSIZE] numbers that starts at the base. *)
Lemma in_window_spec base x :
  0 ≤ base < SEQSPACE → 0 ≤ x < SEQSPACE →
  in_window base x = true ↔ (x - base) `mod` SEQSPACE < WINDOWSIZE.
Proof.
  intros Hb Hx. unfold in_window. rewrite bool_decide_eq_true. modarith.
Qed.

Lemma in_window_base base : 0 ≤ base < SEQSPACE → in_window base base = true.
Proof.
  intros Hb. apply in_window_spec; [done..|].
  rewrite Z.sub_diag. done.
Qed.

(** Taking a successful run of handler code apart, one statement at a
    time. *)
Ltac run_inv H :=
  repeat (cbn beta iota zeta in H;
    match type of H with
    | (_ ≫= _) = Some _ =>
        let x := fresh "x" in
        let Hx := fresh "Hx" in
        apply bind_Some in H as (x & Hx & H)
    | (if decide ?P then _ else _) = Some _ =>
        destruct (decide P)
    | (if ?b then _ else _) = Some _ =>
        let Hb := fresh "Hb" in destruct b eqn:Hb
    | (let '(_, _) := ?p in _) = Some _ => destruct p
    | (match ?p with (_, _) => _ end) = Some _ => destruct p
    | Some _ = Some _ => injection H as H
    | (_, _) = (_, _) => injection H as H
    | None = Some _ => discriminate H
    end).

Ltac run_inv_all :=
  repeat match goal with
  | H : (_ ≫= _) = Some _ |- _ => progress run_inv H
  | H : (if _ then _ else _) = Some _ |- _ => progress run_inv H
  | H : (match _ with (_, _) => _ end) = Some _ |- _ => progress run_inv H
  end.

(** ** Event lists *)

Lemma delivered_app out1 out2 :
  delivered (out1 ++ out2) = delivered out1 ++ delivered out2.
Proof. unfold delivered. by rewrite omap_app. Qed.

Lemma sent_by_app who out1 out2 :
  sent_by who (out1 ++ out2) = sent_by who out1 ++ sent_by who out2.
Proof. unfold sent_by. by rewrite omap_app. Qed.

Lemma only_deliveries_sent_by who out :
  only_deliveries out → sent_by who out = [].
Proof.
  induction 1 as [|e out [d ->] _ IH]; [done|]. by cbn.
Qed.

Lemma deliver_only_deliveries fuel buf flags base flags' base' out :
  deliver fuel buf flags base = Some (flags', base', out) →
  only_deliveries out.
Proof.
  revert flags base flags' base' out.
  induction fuel as [|fuel IH]; intros flags base flags' base' out; [done|].
  cbn [deliver]. intros Hrun. run_inv Hrun; simplify_eq.
  - constructor; [by eexists|]. by eapply IH.
  - constructor.
Qed.

Lemma B_accept_only_deliveries st packet st' out ack :
  B_accept st packet = Some (st', out, ack) → only_deliveries out.
Proof.
  unfold B_accept. intros Hacc. run_inv_all; simplify_eq;
    try (by constructor).
  by eapply deliver_only_deliveries.
Qed.

(** ** The acknowledgment sent by the receiver *)

Lemma checksummed_not_corrupted p q :
  p.(seqnum) = q.(seqnum) → p.(acknum) = q.(acknum) →
  p.(payload) = q.(payload) → p.(checksum) = ComputeChecksum q →
  IsCorrupted p = false.
Proof.
  intros Hs Ha Hd Hc. unfold IsCorrupted. rewrite decide_True; [done|].
  rewrite Hc. unfold ComputeChecksum. by rewrite Hs, Ha, Hd.
Qed.

Lemma stamped_not_corrupted s a c d :
  IsCorrupted
    {| seqnum := s; acknum := a;
       checksum :=
         ComputeChecksum
           {| seqnum := s; acknum := a; checksum := c; payload := d |};
       payload := d |} = false.
Proof. by apply (checksummed_not_corrupted _ (Pkt s a c d)). Qed.

Lemma sent_by_tolayer3 who ps : sent_by who (tolayer3 who <$> ps) = ps.
Proof.
  induction ps as [|p ps IH]; [done|].
  cbn. rewrite decide_True by done. cbn. f_equal. exact IH.
Qed.

Lemma delivered_tolayer3 who ps : delivered (tolayer3 who <$> ps) = [].
Proof. by induction ps. Qed.

Lemma fill_and_send_spec n i sendpkt out :
  Sr.fill_and_send n i sendpkt = Some out →
  ∃ ps, out = tolayer3 B <$> ps ∧ length ps = n ∧
        Forall (λ p, p.(seqnum) = sendpkt.(seqnum) ∧
                     p.(acknum) = sendpkt.(acknum) ∧
                     IsCorrupted p = false) ps.
Proof.
  revert i sendpkt out.
  induction n as [|n IH]; intros i sendpkt out Hrun; cbn in Hrun.
  - simplify_eq. exists []. by repeat split.
  - run_inv Hrun. simplify_eq.
    match goal with H : Sr.fill_and_send _ _ _ = Some _ |- _ =>
      apply IH in H as (ps & -> & Hlen & Hall) end.
    eexists (_ :: ps). split; [done|]. split; [by cbn; f_equal|].
    constructor; [|done].
    cbn. split_and!; [done..|]. apply stamped_not_corrupted.
Qed.

Lemma fill_and_send_total n i sendpkt :
  0 ≤ i → i + Z.of_nat n ≤ Z.of_nat (length sendpkt.(payload)) →
  is_Some (Sr.fill_and_send n i sendpkt).
Proof.
  revert i sendpkt.
  induction n as [|n IH]; intros i sendpkt Hi Hlen; cbn; [by eexists|].
  rewrite upd_in_range by lia. cbn.
  match goal with |- is_Some (Sr.fill_and_send n ?j ?p ≫= _) =>
    destruct (IH j p) as [rest ->] end; [lia| |by eexists].
  cbn. rewrite length_insert. lia.
Qed.

(** In the sibling draft the handler hands one packet to layer 3. *)
Lemma Part000_B_input_sends_one st packet st' out :
  Part000.B_input st packet = Some (st', out) →
  ∃ p, sent_by B out = [p] ∧ IsCorrupted p = false.
Proof.
  unfold Part000.B_input. intros Hrun. run_inv Hrun. simplify_eq.
  match goal with H : B_accept _ _ = Some _ |- _ =>
    apply B_accept_only_deliveries in H end.
  rewrite sent_by_app, only_deliveries_sent_by by done.
  cbn. eexists. split; [reflexivity|]. apply stamped_not_corrupted.
Qed.

(** C1, on [sr.c]: the call of [tolayer3] sits inside the loop that fills
    the payload, so every call of [B_input] that returns has handed twenty
    acknowledgment packets to layer 3, not one. *)
Theorem Sr_B_input_sends_twenty st packet junk st' out :
  Sr.B_input st packet junk = Some (st', out) →
  length (sent_by B out) = 20%nat.
Proof.
  unfold Sr.B_input. intros Hrun. run_inv Hrun. simplify_eq.
  match goal with H : B_accept _ _ = Some _ |- _ =>
    apply B_accept_only_deliveries in H end.
  match goal with H : Sr.fill_and_send _ _ _ = Some _ |- _ =>
    apply fill_and_send_spec in H as (ps & -> & Hlen & _) end.
  rewrite sent_by_app, only_deliveries_sent_by by done.
  cbn [app]. by rewrite sent_by_tolayer3.
Qed.

Lemma Sr_B_input_sends_twenty_witness :
  ∃ st' out,
    Sr.B_input Sr.B_init (data_pkt 0 (sample_msg "a")) sample_junk
      = Some (st', out) ∧
    length (sent_by B out) = 20%nat.
Proof.
  eexists _, _. split; [vm_compute; reflexivity|].
  eapply (Sr_B_input_sends_twenty Sr.B_init
            (data_pkt 0 (sample_msg "a")) sample_junk).
  vm_compute. reflexivity.
Defined.

(** ** Rejected input *)

Lemma Sr_A_input_corrupted st packet :
  IsCorrupted packet = true → Sr.A_input st packet = Some (st, []).
Proof. intros Hbad. unfold Sr.A_input. by rewrite Hbad. Qed.

Lemma Part000_A_input_corrupted st packet :
  IsCorrupted packet = true → Part000.A_input st packet = Some (st, []).
Proof. intros Hbad. unfold Part000.A_input. by rewrite Hbad. Qed.

(** C6: a corrupted acknowledgment is discarded by [A_input] without any
    effect: the sender record, counters included, is returned as it was,
    and no emulator routine (layer 3, timer) is called.  Stated for [sr.c]
    and for the sibling draft. *)
Theorem A_input_corrupted_discarded
    (st : Sr.sender) (st' : Part000.sender) (packet : pkt) :
  IsCorrupted packet = true →
  Sr.A_input st packet = Some (st, []) ∧
  Part000.A_input st' packet = Some (st', []).
Proof.
  intros Hbad. split.
  - by apply Sr_A_input_corrupted.
  - by apply Part000_A_input_corrupted.
Qed.

Lemma A_input_corrupted_discarded_witness :
  IsCorrupted (garble (ack_pkt 0 0)) = true ∧
  Sr.A_input Sr.A_init (garble (ack_pkt 0 0)) = Some (Sr.A_init, []) ∧
  Part000.A_input Part000.A_init (garble (ack_pkt 0 0))
    = Some (Part000.A_init, []).
Proof.
  split; [vm_compute; reflexivity|].
  apply (A_input_corrupted_discarded Sr.A_init Part000.A_init
           (garble (ack_pkt 0 0))).
  vm_compute. reflexivity.
Defined.

(** C3: with [windowcount == WINDOWSIZE] the message offered to [A_output]
    is dropped: [window_full] goes up by one, nothing is handed to layer 3,
    no timer routine is called, and every other variable of the sender
    (buffer, acked flags, base, next sequence number, window count, timer
    bookkeeping, the other counters) keeps its value.  Stated for [sr.c] and
    for the sibling draft. *)
Theorem A_output_window_full
    (st : Sr.sender) (st' : Part000.sender) (message : msg) :
  st.(Sr.windowcount) = WINDOWSIZE →
  st'.(Part000.windowcount) = WINDOWSIZE →
  Sr.A_output st message =
    Some ({| Sr.buffer := st.(Sr.buffer);
             Sr.windowcount := st.(Sr.windowcount);
             Sr.A_nextseqnum := st.(Sr.A_nextseqnum);
             Sr.send_base := st.(Sr.send_base);
             Sr.acked := st.(Sr.acked);
             Sr.timer_ids := st.(Sr.timer_ids);
             Sr.stats :=
               {| window_full := st.(Sr.stats).(window_full) + 1;
                  total_ACKs_received :=
                    st.(Sr.stats).(total_ACKs_received);
                  new_ACKs := st.(Sr.stats).(new_ACKs);
                  packets_resent := st.(Sr.stats).(packets_resent) |} |},
          []) ∧
  Part000.A_output st' message =
    Some ({| Part000.buffer := st'.(Part000.buffer);
             Part000.acked := st'.(Part000.acked);
             Part000.send_base := st'.(Part000.send_base);
             Part000.A_nextseqnum := st'.(Part000.A_nextseqnum);
             Part000.windowcount := st'.(Part000.windowcount);
             Part000.timer_running := st'.(Part000.timer_running);
             Part000.stats :=
               {| window_full := st'.(Part000.stats).(window_full) + 1;
                  total_ACKs_received :=
                    st'.(Part000.stats).(total_ACKs_received);
                  new_ACKs := st'.(Part000.stats).(new_ACKs);
                  packets_resent :=
                    st'.(Part000.stats).(packets_resent) |} |},
          []).
Proof.
  intros Hfull Hfull'. unfold Sr.A_output, Part000.A_output.
  rewrite !decide_False by (unfold WINDOWSIZE in *; lia).
  done.
Qed.

Lemma A_output_window_full_witness :
  Sr_full_window.(Sr.windowcount) = WINDOWSIZE ∧
  Part000_full_window.(Part000.windowcount) = WINDOWSIZE ∧
  snd <$> Sr.A_output Sr_full_window (sample_msg "g") = Some [] ∧
  snd <$> Part000.A_output Part000_full_window (sample_msg "g") = Some [].
Proof.
  split; [vm_compute; reflexivity|]. split; [vm_compute; reflexivity|].
  destruct (A_output_window_full Sr_full_window Part000_full_window
              (sample_msg "g")) as [-> ->];
    [vm_compute; reflexivity | vm_compute; reflexivity | done].
Defined.

Lemma mbind_Some {X Y : Type} (x : X) (f : X → option Y) :
  Some x ≫= f = f x.
Proof. reflexivity. Qed.

Lemma B_accept_corrupted st packet :
  IsCorrupted packet = true →
  B_accept st packet =
    Some (st, [],
          if decide (st.(rcv_base) = 0) then SEQSPACE - 1
          else st.(rcv_base) - 1).
Proof. intros Hbad. unfold B_accept. by rewrite Hbad. Qed.

(** C7: on a corrupted data packet [B_input] delivers nothing to layer 5,
    leaves [rcv_base], the receive buffer and the received flags as they
    were, and what it hands to layer 3 carries
    [acknum = (rcv_base - 1) mod SEQSPACE] (that is [SEQSPACE - 1] when
    [rcv_base] is 0).  In [sr.c] this holds of each packet handed over (and
    there is at least one); the sibling draft hands over one packet. *)
Theorem B_input_corrupted (st : receiver) (packet : pkt) (junk : list ascii) :
  IsCorrupted packet = true →
  0 ≤ st.(rcv_base) < SEQSPACE →
  length junk = 20%nat →
  (∃ st' out,
     Sr.B_input st packet junk = Some (st', out) ∧
     sent_by B out ≠ [] ∧
     Forall (λ p, p.(acknum) = (st.(rcv_base) - 1) `mod` SEQSPACE)
            (sent_by B out) ∧
     delivered out = [] ∧
     st'.(rcv_base) = st.(rcv_base) ∧
     st'.(rcv_buffer) = st.(rcv_buffer) ∧
     st'.(rcv_acked) = st.(rcv_acked)) ∧
  (∃ st' p,
     Part000.B_input st packet = Some (st', [tolayer3 B p]) ∧
     p.(acknum) = (st.(rcv_base) - 1) `mod` SEQSPACE ∧
     st'.(rcv_base) = st.(rcv_base) ∧
     st'.(rcv_buffer) = st.(rcv_buffer) ∧
     st'.(rcv_acked) = st.(rcv_acked)).
Proof.
  intros Hbad Hbase Hjunk.
  assert ((if decide (st.(rcv_base) = 0) then SEQSPACE - 1
           else st.(rcv_base) - 1) = (st.(rcv_base) - 1) `mod` SEQSPACE)
    as Hnak by (case_decide; modarith).
  split.
  - unfold Sr.B_input. rewrite B_accept_corrupted, mbind_Some by done.
    cbv beta iota zeta. rewrite Hnak.
    match goal with |- context [Sr.fill_and_send 20 0 ?p] =>
      destruct (fill_and_send_total 20 0 p) as [sent Hsent];
        [lia | cbn [payload]; lia |];
      rewrite Hsent, mbind_Some;
      apply fill_and_send_spec in Hsent as (ps & -> & Hlen & Hall)
    end.
    eexists _, _. split; [reflexivity|].
    rewrite app_nil_l, sent_by_tolayer3, delivered_tolayer3.
    split_and!; try done.
    + by destruct ps.
    + eapply Forall_impl; [exact Hall|]. intros p (_ & Hack & _).
      exact Hack.
  - unfold Part000.B_input. rewrite B_accept_corrupted, mbind_Some by done.
    cbv beta iota zeta. rewrite Hnak. eexists _, _.
    split; [reflexivity|]. done.
Qed.

Lemma B_input_corrupted_witness :
  IsCorrupted (garble (data_pkt 0 (sample_msg "a"))) = true ∧
  ∃ st' p,
    Part000.B_input Part000.B_init (garble (data_pkt 0 (sample_msg "a")))
      = Some (st', [tolayer3 B p]) ∧
    p.(acknum) = 11.
Proof.
  split; [vm_compute; reflexivity|].
  destruct (B_input_corrupted Part000.B_init
              (garble (data_pkt 0 (sample_msg "a"))) sample_junk)
    as [_ (st' & p & Hrun & Hack & _)];
    [vm_compute; reflexivity | cbn; unfold SEQSPACE; lia | reflexivity |].
  exists st', p. split; [exact Hrun|]. rewrite Hack. reflexivity.
Defined.

(** ** The timeout handler *)

(** C4, on [sr.c]: packet 0 was sent and acknowledged and packet 1 was sent,
    so packet 1 is the one outstanding packet and it is unacknowledged.  The
    loop of [A_timerinterrupt] overwrites its counter with the slot index
    before it compares [(send_base + i) % SEQSPACE] with [A_nextseqnum]; the
    comparison is then between [1 + 1] and [2], the slot is skipped, and the
    handler returns without a retransmission and without rearming the
    timer. *)
Theorem Sr_timerinterrupt_skips_outstanding :
  ∃ st out,
    Sr.A_run Sr.A_init one_outstanding = Some (st, out) ∧
    st.(Sr.send_base) = 1 ∧ st.(Sr.windowcount) = 1 ∧
    st.(Sr.A_nextseqnum) = 2 ∧
    idx st.(Sr.acked) (Z.rem st.(Sr.send_base) WINDOWSIZE) = Some false ∧
    Sr.A_timerinterrupt st = Some (st, []).
Proof. eexists _, _. split; [vm_compute; reflexivity|]. by vm_compute. Qed.

(** In the same state the handler of [sr-harry.c] resends packet 1 and
    rearms the timer. *)
Lemma SrHarry_timerinterrupt_resends_outstanding :
  snd <$> SrHarry.A_timerinterrupt SrHarry_one_outstanding
    = Some [tolayer3 A (data_pkt 1 (sample_msg "b")); starttimer A RTT].
Proof. vm_compute. reflexivity. Qed.

(** The sibling draft does not scan: it resends the base slot when that
    slot is unacknowledged and does nothing otherwise. *)
Lemma Part000_timerinterrupt_base st p :
  0 ≤ st.(Part000.send_base) →
  st.(Part000.acked) !! slot st.(Part000.send_base) = Some false →
  st.(Part000.buffer) !! slot st.(Part000.send_base) = Some p →
  Part000.A_timerinterrupt st =
    Some ({| Part000.buffer := st.(Part000.buffer);
             Part000.acked := st.(Part000.acked);
             Part000.send_base := st.(Part000.send_base);
             Part000.A_nextseqnum := st.(Part000.A_nextseqnum);
             Part000.windowcount := st.(Part000.windowcount);
             Part000.timer_running := true;
             Part000.stats := incr_packets_resent st.(Part000.stats) |},
          [tolayer3 A p; starttimer A RTT]).
Proof.
  intros Hbase Hflag Hbuf. unfold Part000.A_timerinterrupt.
  rewrite !idx_lookup, rem_slot, Hflag by modarith. cbn.
  by rewrite Hbuf.
Qed.

Lemma Part000_timerinterrupt_idle st :
  0 ≤ st.(Part000.send_base) →
  st.(Part000.acked) !! slot st.(Part000.send_base) = Some true →
  Part000.A_timerinterrupt st = Some (st, []).
Proof.
  intros Hbase Hflag. unfold Part000.A_timerinterrupt.
  by rewrite !idx_lookup, rem_slot, Hflag by modarith.
Qed.

(** ** The window count under an acknowledgment for an unsent number *)

(** C9, as stated, fails: after six messages were sent and acknowledged in
    order, an uncorrupted acknowledgment for sequence number 6 (inside the
    window, never sent) finds a cleared flag, is taken for new and slides
    the window once more; [windowcount] becomes -1. *)
Lemma windowcount_negative_after_spurious_ack :
  (∃ st out,
     Sr.A_run Sr.A_init spurious_ack_run = Some (st, out) ∧
     ¬ (0 ≤ st.(Sr.windowcount) ≤ WINDOWSIZE)) ∧
  (∃ st out,
     Part000.A_run Part000.A_init spurious_ack_run = Some (st, out) ∧
     ¬ (0 ≤ st.(Part000.windowcount) ≤ WINDOWSIZE)).
Proof.
  split; eexists _, _; (split; [vm_compute; reflexivity|]); cbn; lia.
Qed.

(** ** The slide loop *)

Lemma count_set_le_length flags : (count_set flags ≤ length flags)%nat.
Proof. induction flags as [|[] flags IH]; cbn; lia. Qed.

Lemma count_set_clear flags i :
  flags !! i = Some true →
  (count_set (<[i := false]> flags) < count_set flags)%nat.
Proof.
  revert i. induction flags as [|b flags IH]; intros [|i] Hi;
    simplify_eq/=; [lia|].
  specialize (IH _ Hi). lia.
Qed.

Lemma flags_lookup (flags : list bool) s :
  length flags = 6%nat → is_Some (flags !! slot s).
Proof. intros Hlen. apply lookup_lt_is_Some. pose proof (slot_lt s). lia. Qed.

Lemma slot_succ_seqspace base (j : nat) :
  slot ((base + 1) `mod` SEQSPACE + Z.of_nat j) = slot (base + Z.of_nat (S j)).
Proof. unfold slot. f_equal. modarith. Qed.

(** What the loop does, told by the number [k] of slots it advances over:
    these [k] slots, from the base on, were set and are cleared, no other
    flag changes, the window count never passed through zero on the way,
    and the loop stopped because the count reached zero or because the slot
    of the new base is not set. *)
Lemma slide_spec fuel flags base wc :
  0 ≤ base < SEQSPACE → length flags = 6%nat →
  (count_set flags < fuel)%nat →
  ∃ (k : nat) flags',
    slide fuel flags base wc
      = Some (flags', (base + Z.of_nat k) `mod` SEQSPACE, wc - Z.of_nat k) ∧
    length flags' = 6%nat ∧
    (k ≤ count_set flags)%nat ∧
    (∀ j, (j < k)%nat →
       flags !! slot (base + Z.of_nat j) = Some true ∧
       flags' !! slot (base + Z.of_nat j) = Some false) ∧
    (∀ i, (∀ j, (j < k)%nat → i ≠ slot (base + Z.of_nat j)) →
       flags' !! i = flags !! i) ∧
    (∀ j, (0 < j < k)%nat → wc - Z.of_nat j ≠ 0) ∧
    ((0 < k)%nat ∧ wc - Z.of_nat k = 0 ∨
     flags' !! slot (base + Z.of_nat k) = Some false).
Proof.
  revert flags base wc.
  induction fuel as [|fuel IH]; intros flags base wc Hbase Hlen Hfuel; [lia|].
  cbn [slide]. rewrite idx_lookup, rem_slot by modarith.
  destruct (flags_lookup flags base Hlen) as [[] Hflag]; rewrite Hflag; cbn.
  - (* the base slot is set: clear it and advance *)
    rewrite upd_in_range, rem_slot
      by (pose proof (Z.rem_bound_pos base WINDOWSIZE);
          unfold WINDOWSIZE in *; lia).
    cbn. set (flags1 := <[slot base := false]> flags).
    assert (length flags1 = 6%nat) as Hlen1
      by (unfold flags1; by rewrite length_insert).
    assert (flags1 !! slot base = Some false) as Hcleared.
    { unfold flags1. apply list_lookup_insert_eq.
      pose proof (slot_lt base). lia. }
    pose proof (count_set_clear flags _ Hflag) as Hcount.
    fold flags1 in Hcount.
    destruct (decide (wc - 1 = 0)) as [Hzero|Hnonzero].
    + exists 1%nat, flags1. rewrite Z.rem_mod_nonneg by modarith.
      split_and!; try done.
      * lia.
      * intros j Hj. assert (j = 0%nat) as -> by lia.
        by rewrite Z.add_0_r.
      * intros i Hi. unfold flags1. apply list_lookup_insert_ne.
        intros <-. apply (Hi 0%nat); [lia|]. by rewrite Z.add_0_r.
      * lia.
      * left. split; [lia|]. done.
    + destruct (IH flags1 (Z.rem (base + 1) SEQSPACE) (wc - 1))
        as (k & flags' & Hrun & Hlen' & Hk & Hrun_set & Hother & Hcnt & Hstop);
        [modarith | done | lia |].
      rewrite Z.rem_mod_nonneg in * by modarith.
      assert (∀ j, (j < k)%nat → slot base ≠ slot (base + Z.of_nat (S j)))
        as Hfresh.
      { intros j Hj Heq. destruct (Hrun_set j Hj) as [Hset _].
        rewrite slot_succ_seqspace, <- Heq, Hcleared in Hset. done. }
      exists (S k), flags'. split_and!.
      * replace ((base + Z.of_nat (S k)) `mod` SEQSPACE)
          with (((base + 1) `mod` SEQSPACE + Z.of_nat k) `mod` SEQSPACE)
          by modarith.
        replace (wc - Z.of_nat (S k)) with (wc - 1 - Z.of_nat k) by lia.
        exact Hrun.
      * done.
      * lia.
      * intros [|j] Hj.
        -- rewrite Z.add_0_r. split; [done|].
           rewrite Hother; [done|]. intros j' Hj'.
           rewrite slot_succ_seqspace. by apply Hfresh.
        -- destruct (Hrun_set j ltac:(lia)) as [Hset Hclr].
           rewrite slot_succ_seqspace in Hset, Hclr. split; [|done].
           unfold flags1 in Hset.
           rewrite list_lookup_insert_ne in Hset; [done|].
           apply Hfresh. lia.
      * intros i Hi. rewrite Hother.
        -- unfold flags1. apply list_lookup_insert_ne.
           intros <-. apply (Hi 0%nat); [lia|]. by rewrite Z.add_0_r.
        -- intros j Hj. rewrite slot_succ_seqspace. apply Hi. lia.
      * intros [|[|j]] Hj; [lia|lia|].
        specialize (Hcnt (S j) ltac:(lia)). lia.
      * destruct Hstop as [[Hpos Hz]|Hclr].
        -- left. split; [lia|]. lia.
        -- right. by rewrite slot_succ_seqspace in Hclr.
  - (* the base slot is not set: the loop is not entered *)
    exists 0%nat, flags. cbn [Z.of_nat].
    rewrite Z.add_0_r, Z.sub_0_r, Z.mod_small by done.
    split_and!;
      [done | done | lia | intros j Hj; lia | done | intros j Hj; lia
      | by right].
Qed.

(** A new acknowledgment for the base: the flag is set and the loop runs.
    The outcome is a slide in the sense of [window_slid]. *)
Lemma slide_after_base_ack flags base wc :
  0 ≤ base < SEQSPACE → length flags = 6%nat →
  flags !! slot base = Some false →
  ∃ (k : nat) flags' base' wc',
    slide (S (length (<[slot base := true]> flags)))
          (<[slot base := true]> flags) base wc
      = Some (flags', base', wc') ∧
    length flags' = 6%nat ∧
    window_slid flags base wc k flags' base' wc'.
Proof.
  intros Hbase Hlen Hflag.
  set (flags1 := <[slot base := true]> flags).
  assert (length flags1 = 6%nat) as Hlen1
    by (unfold flags1; by rewrite length_insert).
  assert (flags1 !! slot base = Some true) as Hset.
  { unfold flags1. apply list_lookup_insert_eq.
    pose proof (slot_lt base). lia. }
  pose proof (count_set_le_length flags1) as Hcount.
  destruct (slide_spec (S (length flags1)) flags1 base wc)
    as (k & flags' & Hrun & Hlen' & Hk & Hrun_set & Hother & Hcnt & Hstop);
    [done | done | lia |].
  assert (k ≠ 0%nat) as Hk0.
  { intros ->. destruct Hstop as [[? _]|Hclr]; [lia|].
    rewrite Hother in Hclr by (intros j Hj; lia).
    rewrite Z.add_0_r, Hset in Hclr. done. }
  assert (∀ j, (0 < j < 6)%nat → slot (base + Z.of_nat j) ≠ slot base)
    as Hfresh.
  { intros j Hj Heq. apply slot_eq_iff in Heq. modarith. }
  exists k, flags', ((base + Z.of_nat k) `mod` SEQSPACE), (wc - Z.of_nat k).
  split; [exact Hrun|]. split; [done|].
  unfold window_slid. split_and!; try done; try lia.
  - intros j Hj. destruct (Hrun_set j ltac:(lia)) as [Hj_set _].
    unfold flags1 in Hj_set.
    rewrite list_lookup_insert_ne in Hj_set; [done|].
    intros Heq. by apply (Hfresh j ltac:(lia)).
  - intros j Hj. by apply Hrun_set.
  - intros i Hi. rewrite Hother by done. unfold flags1.
    apply list_lookup_insert_ne. intros <-.
    apply (Hi 0%nat); [lia|]. by rewrite Z.add_0_r.
  - destruct Hstop as [[_ Hz]|Hclr]; [by left|]. right.
    destruct (decide (k = 6%nat)) as [->|Hk6].
    + replace (slot (base + Z.of_nat 6)) with (slot base); [done|].
      unfold slot. f_equal. modarith.
    + rewrite Hother in Hclr.
      * unfold flags1 in Hclr.
        rewrite list_lookup_insert_ne in Hclr; [done|].
        intros Heq. by apply (Hfresh k ltac:(lia)).
      * intros j Hj Heq. apply slot_eq_iff in Heq. modarith.
Qed.

(** ** The timer loop of [sr.c] *)

(** The slots the loop visits advance by [send_base + 1] modulo the window
    size, so its counter is 6 after at most six rounds and the loop ends,
    provided the window count is within its bound. *)
Lemma restart_timer_terminates fuel (n : nat) flags base wc next i :
  length flags = 6%nat → 0 ≤ base → wc ≤ WINDOWSIZE →
  (8 ≤ n + fuel)%nat → (n ≤ 6)%nat →
  (i - Z.of_nat n * (base + 1)) `mod` 6 = 0 →
  (if decide (n = 0%nat) then i = 0 else 1 ≤ i ≤ 6) →
  ∃ t, Sr.restart_timer fuel flags base wc next i = Some t.
Proof.
  intros Hlen Hbase Hwc. revert n i.
  induction fuel as [|fuel IH]; intros n i Hfuel Hn Hmod Hi; [lia|].
  cbn [Sr.restart_timer].
  destruct (decide (i < wc)) as [Hlt|]; [|by eauto].
  destruct (decide (_ = next)); [by eauto|].
  assert (n = 0%nat ∧ i = 0 ∨ n ≠ 0%nat ∧ 1 ≤ i ≤ 6) as Hi'
    by (destruct (decide (n = 0%nat)); lia).
  clear Hi. unfold WINDOWSIZE in Hwc.
  rewrite idx_lookup by modarith.
  destruct (lookup_lt_is_Some_2 flags
              (Z.to_nat (Z.rem (Z.rem (base + i) WINDOWSIZE) WINDOWSIZE)))
    as [a Ha]; [modarith|].
  rewrite Ha, mbind_Some. destruct a; cbn [negb]; [|by eauto].
  apply (IH (S n)); [lia | | |].
  - do 7 (destruct n as [|n]; [modarith|]). lia.
  - do 7 (destruct n as [|n]; [modarith|]). lia.
  - rewrite decide_False by done. modarith.
Qed.

Lemma restart_timer_total flags base wc next :
  length flags = 6%nat → 0 ≤ base → wc ≤ WINDOWSIZE →
  ∃ t, Sr.restart_timer 8 flags base wc next 0 = Some t.
Proof.
  intros Hlen Hbase Hwc.
  apply (restart_timer_terminates 8 0); [done | done | done | lia | lia | |].
  - change (Z.of_nat 0) with 0. modarith.
  - by rewrite decide_True.
Qed.

(** ** Acknowledgment of the base *)

Lemma Part000_A_input_base st packet :
  Part000.sender_wf st →
  IsCorrupted packet = false →
  packet.(acknum) = st.(Part000.send_base) →
  st.(Part000.acked) !! slot st.(Part000.send_base) = Some false →
  ∃ s out k,
    Part000.A_input st packet = Some (s, out) ∧
    Part000.sender_wf s ∧
    s.(Part000.A_nextseqnum) = st.(Part000.A_nextseqnum) ∧
    s.(Part000.buffer) = st.(Part000.buffer) ∧
    window_slid st.(Part000.acked) st.(Part000.send_base)
                st.(Part000.windowcount) k
                s.(Part000.acked) s.(Part000.send_base)
                s.(Part000.windowcount).
Proof.
  intros (Hbase & Hlen & Hbuf) Hgood Hack Hflag.
  assert (length st.(Part000.acked) = 6%nat) as Hlen'
    by (unfold WINDOWSIZE in Hlen; lia).
  destruct (slide_after_base_ack _ _ st.(Part000.windowcount)
              Hbase Hlen' Hflag)
    as (k & flags' & base' & wc' & Hrun & Hlenf & Hslid).
  unfold Part000.A_input.
  rewrite Hgood, Hack, in_window_base by done. cbn [negb].
  rewrite idx_lookup, rem_slot, Hflag, mbind_Some by modarith.
  rewrite upd_in_range, rem_slot, mbind_Some by modarith.
  rewrite decide_True, Hrun, mbind_Some by done.
  cbv beta iota. eexists _, _, k. split; [reflexivity|].
  cbn [Part000.acked Part000.send_base Part000.windowcount
       Part000.A_nextseqnum Part000.buffer].
  split_and!; try done.
  unfold Part000.sender_wf.
  cbn [Part000.acked Part000.send_base Part000.buffer].
  destruct Hslid as (_ & -> & _). split_and!; [modarith..| |done].
  unfold WINDOWSIZE. lia.
Qed.

Lemma Sr_A_input_base st packet :
  Sr.sender_wf st →
  IsCorrupted packet = false →
  packet.(acknum) = st.(Sr.send_base) →
  st.(Sr.acked) !! slot st.(Sr.send_base) = Some false →
  ∃ s out k,
    Sr.A_input st packet = Some (s, out) ∧
    Sr.sender_wf s ∧
    s.(Sr.A_nextseqnum) = st.(Sr.A_nextseqnum) ∧
    s.(Sr.buffer) = st.(Sr.buffer) ∧
    window_slid st.(Sr.acked) st.(Sr.send_base) st.(Sr.windowcount) k
                s.(Sr.acked) s.(Sr.send_base) s.(Sr.windowcount).
Proof.
  intros (Hbase & Hlen & Hbuf & Htim & Hwc) Hgood Hack Hflag.
  assert (length st.(Sr.acked) = 6%nat) as Hlen'
    by (unfold WINDOWSIZE in Hlen; lia).
  destruct (slide_after_base_ack _ _ st.(Sr.windowcount)
              Hbase Hlen' Hflag)
    as (k & flags' & base' & wc' & Hrun & Hlenf & Hslid).
  pose proof Hslid as (Hk & Hbase' & Hwc' & _).
  assert (∃ t, (if decide (wc' > 0)
                then Sr.restart_timer (S (S (length flags'))) flags' base'
                                      wc' st.(Sr.A_nextseqnum) 0
                else Some []) = Some t) as [t Ht].
  { case_decide; [|by eauto]. rewrite Hlenf.
    apply restart_timer_total; [done | modarith | lia]. }
  unfold Sr.A_input.
  rewrite Hgood, Hack, in_window_base by done. cbn [negb].
  rewrite idx_lookup, rem_slot, Hflag, mbind_Some by modarith.
  rewrite upd_in_range, rem_slot, mbind_Some by modarith.
  rewrite decide_True, Hrun, mbind_Some by done.
  cbv beta iota. rewrite Ht, mbind_Some.
  eexists _, _, k. split; [reflexivity|].
  cbn [Sr.acked Sr.send_base Sr.windowcount Sr.A_nextseqnum Sr.buffer].
  split_and!; try done.
  unfold Sr.sender_wf.
  cbn [Sr.acked Sr.send_base Sr.buffer Sr.timer_ids Sr.windowcount].
  split_and!; [modarith | modarith | unfold WINDOWSIZE; lia | done | done
              | lia].
Qed.

(** C5: an uncorrupted acknowledgment for [send_base] whose slot is not
    yet acknowledged makes [A_input] slide the window: by [window_slid],
    over the whole run of acknowledged slots that starts at the base,
    clearing the flag of every slot passed and taking one off
    [windowcount] for each, and stopping at the first slot that is not
    acknowledged or when [windowcount] is zero.  (An acknowledgment for the
    base is inside the window.)  Stated for [sr.c] and for the sibling
    draft. *)
Theorem A_input_slides_window
    (st : Sr.sender) (st' : Part000.sender) (packet packet' : pkt) :
  Sr.sender_wf st → Part000.sender_wf st' →
  IsCorrupted packet = false → IsCorrupted packet' = false →
  packet.(acknum) = st.(Sr.send_base) →
  packet'.(acknum) = st'.(Part000.send_base) →
  st.(Sr.acked) !! slot st.(Sr.send_base) = Some false →
  st'.(Part000.acked) !! slot st'.(Part000.send_base) = Some false →
  (in_window st.(Sr.send_base) packet.(acknum) = true ∧
   ∃ s out k,
     Sr.A_input st packet = Some (s, out) ∧
     window_slid st.(Sr.acked) st.(Sr.send_base) st.(Sr.windowcount) k
                 s.(Sr.acked) s.(Sr.send_base) s.(Sr.windowcount)) ∧
  (in_window st'.(Part000.send_base) packet'.(acknum) = true ∧
   ∃ s out k,
     Part000.A_input st' packet' = Some (s, out) ∧
     window_slid st'.(Part000.acked) st'.(Part000.send_base)
                 st'.(Part000.windowcount) k
                 s.(Part000.acked) s.(Part000.send_base)
                 s.(Part000.windowcount)).
Proof.
  intros Hwf Hwf' Hgood Hgood' Hack Hack' Hflag Hflag'.
  split; (split; [rewrite ?Hack, ?Hack'; apply in_window_base;
                  first [apply Hwf | apply Hwf']|]).
  - destruct (Sr_A_input_base st packet) as (s & out & k & ? & _ & _ & _ & ?);
      [done..|]. by exists s, out, k.
  - destruct (Part000_A_input_base st' packet')
      as (s & out & k & ? & _ & _ & _ & ?); [done..|]. by exists s, out, k.
Qed.

Ltac by_evaluation :=
  repeat split; vm_compute; first [reflexivity | discriminate].

Lemma A_input_slides_window_witness :
  (∃ s out k,
     Sr.A_input Sr_base_pending (ack_pkt 1 0) = Some (s, out) ∧
     window_slid Sr_base_pending.(Sr.acked) 0 2 k
                 s.(Sr.acked) s.(Sr.send_base) s.(Sr.windowcount)) ∧
  (∃ s out k,
     Part000.A_input Part000_base_pending (ack_pkt 1 0) = Some (s, out) ∧
     window_slid Part000_base_pending.(Part000.acked) 0 2 k
                 s.(Part000.acked) s.(Part000.send_base)
                 s.(Part000.windowcount)).
Proof.
  destruct (A_input_slides_window Sr_base_pending Part000_base_pending
              (ack_pkt 1 0) (ack_pkt 1 0)) as [[_ Hsr] [_ Hpart]];
    [by_evaluation..|].
  exact (conj Hsr Hpart).
Defined.

(** ** Duplicate acknowledgments *)

Lemma in_window_after_slide base (k : nat) :
  0 ≤ base < SEQSPACE → (1 ≤ k ≤ 6)%nat →
  in_window ((base + Z.of_nat k) `mod` SEQSPACE) base = false.
Proof.
  intros Hbase Hk. apply not_true_is_false.
  rewrite in_window_spec by modarith. modarith.
Qed.

(** The duplicate branch: only [total_ACKs_received] moves. *)
Lemma Part000_A_input_duplicate st packet :
  IsCorrupted packet = false →
  in_window st.(Part000.send_base) packet.(acknum) = true →
  idx st.(Part000.acked) (Z.rem packet.(acknum) WINDOWSIZE) = Some true →
  Part000.A_input st packet =
    Some (Part000.set_stats st
            (incr_total_ACKs_received st.(Part000.stats)), []).
Proof.
  intros Hgood Hwin Hflag. unfold Part000.A_input.
  by rewrite Hgood, Hwin, Hflag.
Qed.

Lemma Sr_A_input_duplicate st packet :
  IsCorrupted packet = false →
  in_window st.(Sr.send_base) packet.(acknum) = true →
  idx st.(Sr.acked) (Z.rem packet.(acknum) WINDOWSIZE) = Some true →
  Sr.A_input st packet =
    Some (Sr.set_stats st (incr_total_ACKs_received st.(Sr.stats)), []).
Proof.
  intros Hgood Hwin Hflag. unfold Sr.A_input.
  by rewrite Hgood, Hwin, Hflag.
Qed.

Lemma Part000_A_input_outside st packet :
  IsCorrupted packet = false →
  in_window st.(Part000.send_base) packet.(acknum) = false →
  Part000.A_input st packet =
    Some (Part000.set_stats st
            (incr_total_ACKs_received st.(Part000.stats)), []).
Proof.
  intros Hgood Hwin. unfold Part000.A_input. by rewrite Hgood, Hwin.
Qed.

Lemma Sr_A_input_outside st packet :
  IsCorrupted packet = false →
  in_window st.(Sr.send_base) packet.(acknum) = false →
  Sr.A_input st packet =
    Some (Sr.set_stats st (incr_total_ACKs_received st.(Sr.stats)), []).
Proof.
  intros Hgood Hwin. unfold Sr.A_input. by rewrite Hgood, Hwin.
Qed.

Lemma idx_upd_eq {X : Type} (a a' : list X) i x :
  upd a i x = Some a' → idx a' i = Some x.
Proof.
  intros [Hi ->]%upd_Some. rewrite idx_lookup by lia.
  apply list_lookup_insert_eq. lia.
Qed.

Lemma Part000_A_input_twice st packet s1 out1 :
  Part000.sender_wf st →
  Part000.A_input st packet = Some (s1, out1) →
  Part000.A_input s1 packet = Some (s1, []) ∨
  Part000.A_input s1 packet =
    Some (Part000.set_stats s1
            (incr_total_ACKs_received s1.(Part000.stats)), []).
Proof.
  intros (Hbase & Hlen & Hbuf) Hrun.
  destruct (IsCorrupted packet) eqn:Hgood.
  { left. rewrite Part000_A_input_corrupted in Hrun by done. simplify_eq.
    by apply Part000_A_input_corrupted. }
  right.
  destruct (in_window st.(Part000.send_base) packet.(acknum)) eqn:Hwin.
  2:{ rewrite Part000_A_input_outside in Hrun by done. simplify_eq.
      by apply Part000_A_input_outside. }
  destruct (idx st.(Part000.acked) (Z.rem packet.(acknum) WINDOWSIZE))
    as [[]|] eqn:Hflag.
  - rewrite Part000_A_input_duplicate in Hrun by done. simplify_eq.
    by apply Part000_A_input_duplicate.
  - destruct (decide (packet.(acknum) = st.(Part000.send_base))) as [Hack|Hne].
    + apply idx_Some in Hflag as [Hi Hflag].
      rewrite Hack, rem_slot in Hflag by lia.
      destruct (Part000_A_input_base st packet)
        as (s & out & k & Hrun' & _ & _ & _ & Hk & Hb & _);
        [done..|].
      rewrite Hrun' in Hrun. simplify_eq.
      apply Part000_A_input_outside; [done|].
      rewrite Hb, Hack. by apply in_window_after_slide.
    + unfold Part000.A_input in Hrun.
      rewrite Hgood, Hwin, Hflag in Hrun. cbn [negb] in Hrun.
      rewrite mbind_Some in Hrun. run_inv Hrun; [done|]. simplify_eq.
      apply Part000_A_input_duplicate; [done..|].
      by eapply idx_upd_eq.
  - unfold Part000.A_input in Hrun.
    rewrite Hgood, Hwin, Hflag in Hrun. done.
Qed.

Lemma Sr_A_input_twice st packet s1 out1 :
  Sr.sender_wf st →
  Sr.A_input st packet = Some (s1, out1) →
  Sr.A_input s1 packet = Some (s1, []) ∨
  Sr.A_input s1 packet =
    Some (Sr.set_stats s1 (incr_total_ACKs_received s1.(Sr.stats)), []).
Proof.
  intros Hwf Hrun. pose proof Hwf as (Hbase & Hlen & Hbuf & Htim & Hwc).
  destruct (IsCorrupted packet) eqn:Hgood.
  { left. rewrite Sr_A_input_corrupted in Hrun by done. simplify_eq.
    by apply Sr_A_input_corrupted. }
  right.
  destruct (in_window st.(Sr.send_base) packet.(acknum)) eqn:Hwin.
  2:{ rewrite Sr_A_input_outside in Hrun by done. simplify_eq.
      by apply Sr_A_input_outside. }
  destruct (idx st.(Sr.acked) (Z.rem packet.(acknum) WINDOWSIZE))
    as [[]|] eqn:Hflag.
  - rewrite Sr_A_input_duplicate in Hrun by done. simplify_eq.
    by apply Sr_A_input_duplicate.
  - destruct (decide (packet.(acknum) = st.(Sr.send_base))) as [Hack|Hne].
    + apply idx_Some in Hflag as [Hi Hflag].
      rewrite Hack, rem_slot in Hflag by lia.
      destruct (Sr_A_input_base st packet)
        as (s & out & k & Hrun' & _ & _ & _ & Hk & Hb & _);
        [done..|].
      rewrite Hrun' in Hrun. simplify_eq.
      apply Sr_A_input_outside; [done|].
      rewrite Hb, Hack. by apply in_window_after_slide.
    + unfold Sr.A_input in Hrun.
      rewrite Hgood, Hwin, Hflag in Hrun. cbn [negb] in Hrun.
      rewrite mbind_Some in Hrun. run_inv Hrun.
      rewrite decide_False in * by done. simplify_eq.
      apply Sr_A_input_duplicate; [done..|]. by eapply idx_upd_eq.
  - unfold Sr.A_input in Hrun.
    rewrite Hgood, Hwin, Hflag in Hrun. done.
Qed.

Lemma Sr_same_upto_counters_set_stats st c :
  Sr.same_upto_counters st (Sr.set_stats st c).
Proof. reflexivity. Qed.

Lemma Part000_same_upto_counters_set_stats st c :
  Part000.same_upto_counters st (Part000.set_stats st c).
Proof. reflexivity. Qed.

(** C8: applying the same acknowledgment a second time changes nothing but
    counters.  Whatever the first application of [A_input] to a packet did
    (discard, mark a slot, slide the window), the second application to the
    state it left returns a state equal to that one up to the statistics
    counters, with an empty trace: no flag changes, no slide, no call of
    [starttimer] or [stoptimer], nothing handed to layer 3.  Stated for
    [sr.c] and for the sibling draft. *)
Theorem A_input_twice_idempotent
    (st : Sr.sender) (st' : Part000.sender) (packet : pkt)
    (s1 : Sr.sender) (s1' : Part000.sender) (out1 out1' : list event) :
  Sr.sender_wf st → Part000.sender_wf st' →
  Sr.A_input st packet = Some (s1, out1) →
  Part000.A_input st' packet = Some (s1', out1') →
  (∃ s2, Sr.A_input s1 packet = Some (s2, []) ∧
         Sr.same_upto_counters s1 s2) ∧
  (∃ s2', Part000.A_input s1' packet = Some (s2', []) ∧
          Part000.same_upto_counters s1' s2').
Proof.
  intros Hwf Hwf' Hrun Hrun'. split.
  - destruct (Sr_A_input_twice _ _ _ _ Hwf Hrun) as [Heq|Heq];
      eexists; (split; [exact Heq|]).
    + reflexivity.
    + apply Sr_same_upto_counters_set_stats.
  - destruct (Part000_A_input_twice _ _ _ _ Hwf' Hrun') as [Heq|Heq];
      eexists; (split; [exact Heq|]).
    + reflexivity.
    + apply Part000_same_upto_counters_set_stats.
Qed.

Lemma A_input_twice_idempotent_witness :
  (∃ s2, Sr.A_input Sr_acked_once (ack_pkt 0 0) = Some (s2, []) ∧
         Sr.same_upto_counters Sr_acked_once s2) ∧
  (∃ s2', Part000.A_input Part000_acked_once (ack_pkt 0 0)
            = Some (s2', []) ∧
          Part000.same_upto_counters Part000_acked_once s2').
Proof.
  edestruct (A_input_twice_idempotent Sr_full_window Part000_full_window
               (ack_pkt 0 0) Sr_acked_once Part000_acked_once)
    as [Hsr Hpart];
    [by_evaluation | by_evaluation
    | vm_compute; reflexivity | vm_compute; reflexivity |].
  exact (conj Hsr Hpart).
Defined.

(** ** What a step does to the window variables *)

(** [A_input] either discards the packet (only counters move), or marks
    one slot that is not the base slot, or slides the window. *)
Lemma Part000_A_input_cases st packet s out :
  Part000.sender_wf st →
  Part000.A_input st packet = Some (s, out) →
  (∃ c, s = Part000.set_stats st c) ∨
  (IsCorrupted packet = false ∧
   in_window st.(Part000.send_base) packet.(acknum) = true ∧
   packet.(acknum) ≠ st.(Part000.send_base) ∧
   0 ≤ Z.rem packet.(acknum) WINDOWSIZE < WINDOWSIZE ∧
   s.(Part000.acked) =
     <[Z.to_nat (Z.rem packet.(acknum) WINDOWSIZE) := true]>
       st.(Part000.acked) ∧
   s.(Part000.buffer) = st.(Part000.buffer) ∧
   s.(Part000.send_base) = st.(Part000.send_base) ∧
   s.(Part000.A_nextseqnum) = st.(Part000.A_nextseqnum) ∧
   s.(Part000.windowcount) = st.(Part000.windowcount)) ∨
  (IsCorrupted packet = false ∧
   packet.(acknum) = st.(Part000.send_base) ∧
   Part000.sender_wf s ∧
   s.(Part000.A_nextseqnum) = st.(Part000.A_nextseqnum) ∧
   s.(Part000.buffer) = st.(Part000.buffer) ∧
   ∃ k, window_slid st.(Part000.acked) st.(Part000.send_base)
                    st.(Part000.windowcount) k
                    s.(Part000.acked) s.(Part000.send_base)
                    s.(Part000.windowcount)).
Proof.
  intros Hwf Hrun. pose proof Hwf as (Hbase & Hlen & Hbuf).
  destruct (IsCorrupted packet) eqn:Hgood.
  { left. rewrite Part000_A_input_corrupted in Hrun by done. simplify_eq.
    exists s.(Part000.stats). by destruct s. }
  destruct (in_window st.(Part000.send_base) packet.(acknum)) eqn:Hwin.
  2:{ left. rewrite Part000_A_input_outside in Hrun by done. simplify_eq.
      by eexists. }
  destruct (idx st.(Part000.acked) (Z.rem packet.(acknum) WINDOWSIZE))
    as [[]|] eqn:Hflag.
  - left. rewrite Part000_A_input_duplicate in Hrun by done. simplify_eq.
    by eexists.
  - right.
    destruct (decide (packet.(acknum) = st.(Part000.send_base))) as [Hack|Hne].
    + right. apply idx_Some in Hflag as [Hi Hflag].
      rewrite Hack, rem_slot in Hflag by lia.
      destruct (Part000_A_input_base st packet)
        as (s' & out' & k & Hrun' & Hwf' & Hnext & Hbuf' & Hslid);
        [done..|].
      rewrite Hrun' in Hrun. simplify_eq. split_and!; try done.
      by exists k.
    + left. unfold Part000.A_input in Hrun.
      rewrite Hgood, Hwin, Hflag in Hrun. cbn [negb] in Hrun.
      rewrite mbind_Some in Hrun. run_inv Hrun; [done|]. simplify_eq.
      match goal with H : upd _ _ _ = Some _ |- _ =>
        apply upd_Some in H as [Hi ->] end.
      cbn. split_and!; try done; unfold WINDOWSIZE in *; lia.
  - unfold Part000.A_input in Hrun.
    rewrite Hgood, Hwin, Hflag in Hrun. done.
Qed.

Lemma Sr_A_input_cases st packet s out :
  Sr.sender_wf st →
  Sr.A_input st packet = Some (s, out) →
  (∃ c, s = Sr.set_stats st c) ∨
  (IsCorrupted packet = false ∧
   in_window st.(Sr.send_base) packet.(acknum) = true ∧
   packet.(acknum) ≠ st.(Sr.send_base) ∧
   0 ≤ Z.rem packet.(acknum) WINDOWSIZE < WINDOWSIZE ∧
   s.(Sr.acked) =
     <[Z.to_nat (Z.rem packet.(acknum) WINDOWSIZE) := true]> st.(Sr.acked) ∧
   s.(Sr.buffer) = st.(Sr.buffer) ∧
   s.(Sr.timer_ids) = st.(Sr.timer_ids) ∧
   s.(Sr.send_base) = st.(Sr.send_base) ∧
   s.(Sr.A_nextseqnum) = st.(Sr.A_nextseqnum) ∧
   s.(Sr.windowcount) = st.(Sr.windowcount)) ∨
  (IsCorrupted packet = false ∧
   packet.(acknum) = st.(Sr.send_base) ∧
   Sr.sender_wf s ∧
   s.(Sr.A_nextseqnum) = st.(Sr.A_nextseqnum) ∧
   s.(Sr.buffer) = st.(Sr.buffer) ∧
   ∃ k, window_slid st.(Sr.acked) st.(Sr.send_base) st.(Sr.windowcount) k
                    s.(Sr.acked) s.(Sr.send_base) s.(Sr.windowcount)).
Proof.
  intros Hwf Hrun. pose proof Hwf as (Hbase & Hlen & Hbuf & Htim & Hwc).
  destruct (IsCorrupted packet) eqn:Hgood.
  { left. rewrite Sr_A_input_corrupted in Hrun by done. simplify_eq.
    exists s.(Sr.stats). by destruct s. }
  destruct (in_window st.(Sr.send_base) packet.(acknum)) eqn:Hwin.
  2:{ left. rewrite Sr_A_input_outside in Hrun by done. simplify_eq.
      by eexists. }
  destruct (idx st.(Sr.acked) (Z.rem packet.(acknum) WINDOWSIZE))
    as [[]|] eqn:Hflag.
  - left. rewrite Sr_A_input_duplicate in Hrun by done. simplify_eq.
    by eexists.
  - right.
    destruct (decide (packet.(acknum) = st.(Sr.send_base))) as [Hack|Hne].
    + right. apply idx_Some in Hflag as [Hi Hflag].
      rewrite Hack, rem_slot in Hflag by lia.
      destruct (Sr_A_input_base st packet)
        as (s' & out' & k & Hrun' & Hwf' & Hnext & Hbuf' & Hslid);
        [done..|].
      rewrite Hrun' in Hrun. simplify_eq. split_and!; try done.
      by exists k.
    + left. unfold Sr.A_input in Hrun.
      rewrite Hgood, Hwin, Hflag in Hrun. cbn [negb] in Hrun.
      rewrite mbind_Some in Hrun. run_inv Hrun.
      rewrite decide_False in * by done. simplify_eq.
      match goal with H : upd _ _ _ = Some _ |- _ =>
        apply upd_Some in H as [Hi ->] end.
      cbn. split_and!; try done; unfold WINDOWSIZE in *; lia.
  - unfold Sr.A_input in Hrun.
    rewrite Hgood, Hwin, Hflag in Hrun. done.
Qed.

Lemma Part000_A_output_cases st message s out :
  Part000.A_output st message = Some (s, out) →
  (WINDOWSIZE ≤ st.(Part000.windowcount) ∧
   ∃ c, s = Part000.set_stats st c) ∨
  (st.(Part000.windowcount) < WINDOWSIZE ∧
   0 ≤ Z.rem st.(Part000.A_nextseqnum) WINDOWSIZE
     < Z.of_nat (length st.(Part000.acked)) ∧
   s.(Part000.acked) =
     <[Z.to_nat (Z.rem st.(Part000.A_nextseqnum) WINDOWSIZE) := false]>
       st.(Part000.acked) ∧
   length s.(Part000.buffer) = length st.(Part000.buffer) ∧
   s.(Part000.send_base) = st.(Part000.send_base) ∧
   s.(Part000.A_nextseqnum) = Z.rem (st.(Part000.A_nextseqnum) + 1) SEQSPACE ∧
   s.(Part000.windowcount) = st.(Part000.windowcount) + 1).
Proof.
  unfold Part000.A_output. intros Hrun. run_inv Hrun; simplify_eq.
  - right.
    repeat match goal with H : upd _ _ _ = Some _ |- _ =>
      apply upd_Some in H as [? ->] end.
    cbn. rewrite length_insert. done.
  - left. split; [lia|]. by eexists.
Qed.

Lemma Sr_A_output_cases st message s out :
  Sr.A_output st message = Some (s, out) →
  (WINDOWSIZE ≤ st.(Sr.windowcount) ∧ ∃ c, s = Sr.set_stats st c) ∨
  (st.(Sr.windowcount) < WINDOWSIZE ∧
   0 ≤ Z.rem st.(Sr.A_nextseqnum) WINDOWSIZE
     < Z.of_nat (length st.(Sr.acked)) ∧
   s.(Sr.acked) =
     <[Z.to_nat (Z.rem st.(Sr.A_nextseqnum) WINDOWSIZE) := false]>
       st.(Sr.acked) ∧
   length s.(Sr.buffer) = length st.(Sr.buffer) ∧
   length s.(Sr.timer_ids) = length st.(Sr.timer_ids) ∧
   s.(Sr.send_base) = st.(Sr.send_base) ∧
   s.(Sr.A_nextseqnum) = Z.rem (st.(Sr.A_nextseqnum) + 1) SEQSPACE ∧
   s.(Sr.windowcount) = st.(Sr.windowcount) + 1).
Proof.
  unfold Sr.A_output. intros Hrun. run_inv Hrun; simplify_eq.
  - right.
    repeat match goal with H : upd _ _ _ = Some _ |- _ =>
      apply upd_Some in H as [? ->] end.
    cbn. rewrite !length_insert. done.
  - left. split; [lia|]. by eexists.
Qed.

(** The timeout handlers leave the window variables alone. *)
Lemma Part000_A_timerinterrupt_window st s out :
  Part000.A_timerinterrupt st = Some (s, out) →
  s.(Part000.acked) = st.(Part000.acked) ∧
  s.(Part000.buffer) = st.(Part000.buffer) ∧
  s.(Part000.send_base) = st.(Part000.send_base) ∧
  s.(Part000.A_nextseqnum) = st.(Part000.A_nextseqnum) ∧
  s.(Part000.windowcount) = st.(Part000.windowcount).
Proof.
  unfold Part000.A_timerinterrupt. intros Hrun. by run_inv Hrun; simplify_eq.
Qed.

Lemma Sr_A_timerinterrupt_window st s out :
  Sr.A_timerinterrupt st = Some (s, out) → ∃ c, s = Sr.set_stats st c.
Proof.
  unfold Sr.A_timerinterrupt. intros Hrun. run_inv Hrun.
  destruct x as [i|]; run_inv Hrun; simplify_eq.
  - by eexists.
  - exists s.(Sr.stats). by destruct s.
Qed.

(** ** The base slot while packets are outstanding *)

Lemma window_inv_output flags base next wc :
  window_inv flags base next wc →
  0 ≤ Z.rem next WINDOWSIZE < Z.of_nat (length flags) →
  window_inv (<[Z.to_nat (Z.rem next WINDOWSIZE) := false]> flags)
             base (Z.rem (next + 1) SEQSPACE) (wc + 1).
Proof.
  intros (Hbase & Hnext & Hlen & Hcong & Hflag) Hi.
  unfold window_inv. rewrite length_insert, rem_slot by lia.
  split_and!; [modarith.. | done | modarith |].
  intros Hpos. destruct (decide (slot next = slot base)) as [<-|Hne].
  - apply list_lookup_insert_eq. pose proof (slot_lt next). lia.
  - rewrite list_lookup_insert_ne by done.
    destruct (decide (wc > 0)) as [Hwc|Hwc]; [by apply Hflag|].
    exfalso. apply Hne. f_equal. modarith.
Qed.

Lemma window_inv_mark flags base next wc a :
  window_inv flags base next wc →
  0 ≤ a < SEQSPACE → in_window base a = true → a ≠ base →
  window_inv (<[Z.to_nat (Z.rem a WINDOWSIZE) := true]> flags)
             base next wc.
Proof.
  intros (Hbase & Hnext & Hlen & Hcong & Hflag) Ha Hwin Hne.
  unfold window_inv. rewrite length_insert, rem_slot by lia.
  split_and!; [lia.. | done | done |].
  intros Hpos. rewrite list_lookup_insert_ne; [by apply Hflag|].
  intros Heq. apply slot_eq_iff in Heq.
  apply in_window_spec in Hwin; [|done..]. modarith.
Qed.

Lemma window_slid_new_base flags base wc k flags' base' wc' :
  0 ≤ base →
  window_slid flags base wc k flags' base' wc' →
  wc' = 0 ∨ flags' !! slot base' = Some false.
Proof.
  intros Hbase (Hk & -> & -> & Hset & Hclr & Hother & Hcnt & [Hz|Hstop]);
    [by left|right].
  rewrite slot_mod_seqspace.
  destruct (decide (k = 6%nat)) as [->|Hk6].
  - replace (slot (base + Z.of_nat 6)) with (slot (base + Z.of_nat 0))
      by (unfold slot; f_equal; modarith).
    apply Hclr. lia.
  - rewrite Hother; [done|].
    intros j Hj Heq. apply slot_eq_iff in Heq. modarith.
Qed.

Lemma window_inv_slid flags base next wc k flags' base' wc' :
  window_inv flags base next wc → length flags' = 6%nat →
  window_slid flags base wc k flags' base' wc' →
  window_inv flags' base' next wc'.
Proof.
  intros (Hbase & Hnext & Hlen & Hcong & Hflag) Hlen' Hslid.
  destruct (window_slid_new_base _ _ _ _ _ _ _ (proj1 Hbase) Hslid)
    as [Hz|Hnew].
  all: destruct Hslid as (Hk & -> & -> & _).
  all: unfold window_inv; split_and!; [modarith.. | done | modarith |].
  - intros Hpos. lia.
  - intros _. done.
Qed.

Lemma Part000_step_window_inv st ev s out :
  Part000.sender_wf st →
  window_inv st.(Part000.acked) st.(Part000.send_base)
             st.(Part000.A_nextseqnum) st.(Part000.windowcount) →
  match ev with ev_input packet => ack_typed packet | _ => True end →
  Part000.A_step st ev = Some (s, out) →
  Part000.sender_wf s ∧
  window_inv s.(Part000.acked) s.(Part000.send_base)
             s.(Part000.A_nextseqnum) s.(Part000.windowcount).
Proof.
  intros Hwf Hinv Htyped Hstep. pose proof Hwf as (Hbase & Hlen & Hbuf).
  destruct ev as [message|packet|]; cbn [Part000.A_step] in Hstep.
  - destruct (Part000_A_output_cases _ _ _ _ Hstep)
      as [[_ [c ->]]|(_ & Hi & Hacked & Hbuf' & Hb & Hn & Hw)].
    { split; assumption. }
    split.
    + unfold Part000.sender_wf.
      rewrite Hacked, length_insert, Hbuf', Hb. done.
    + rewrite Hacked, Hb, Hn, Hw. by apply window_inv_output.
  - destruct (Part000_A_input_cases _ _ _ _ Hwf Hstep)
      as [[c ->]|[(Hgood & Hwin & Hne & Hi & Hacked & Hbuf' & Hb & Hn & Hw)
                 |(Hgood & Hack & Hwf' & Hn & _ & k & Hslid)]].
    + split; assumption.
    + assert (0 ≤ packet.(acknum) < SEQSPACE) as Ha.
      { destruct Htyped as [Hbad|[Hrange|Hunused]];
          [congruence | done | rewrite Hunused in Hi; modarith]. }
      split.
      * unfold Part000.sender_wf.
        rewrite Hacked, length_insert, Hbuf', Hb. done.
      * rewrite Hacked, Hb, Hn, Hw. by apply window_inv_mark.
    + split; [done|]. rewrite Hn.
      eapply window_inv_slid; [exact Hinv| |exact Hslid].
      destruct Hwf' as (_ & Hl & _). unfold WINDOWSIZE in Hl. lia.
  - apply Part000_A_timerinterrupt_window in Hstep
      as (Hacked & Hbuf' & Hb & Hn & Hw).
    unfold Part000.sender_wf. by rewrite Hacked, Hbuf', Hb, Hn, Hw.
Qed.

Lemma Part000_run_window_inv evs st s out :
  Part000.sender_wf st →
  window_inv st.(Part000.acked) st.(Part000.send_base)
             st.(Part000.A_nextseqnum) st.(Part000.windowcount) →
  acks_typed evs →
  Part000.A_run st evs = Some (s, out) →
  Part000.sender_wf s ∧
  window_inv s.(Part000.acked) s.(Part000.send_base)
             s.(Part000.A_nextseqnum) s.(Part000.windowcount).
Proof.
  revert st out.
  induction evs as [|ev evs IH]; intros st out Hwf Hinv Htyped Hrun.
  - cbn in Hrun. by simplify_eq.
  - cbn [Part000.A_run] in Hrun. run_inv Hrun.
    apply Forall_cons in Htyped as [Hev Htyped].
    match goal with H : Part000.A_step _ _ = Some _ |- _ =>
      destruct (Part000_step_window_inv _ _ _ _ Hwf Hinv Hev H) end.
    simplify_eq. eapply IH; [| | |eassumption]; done.
Qed.

Lemma Part000_init_window_inv :
  Part000.sender_wf Part000.A_init ∧
  window_inv Part000.A_init.(Part000.acked) Part000.A_init.(Part000.send_base)
             Part000.A_init.(Part000.A_nextseqnum)
             Part000.A_init.(Part000.windowcount).
Proof.
  split; [by_evaluation|]. unfold window_inv. cbn.
  split_and!; [done..|]. lia.
Qed.

(** C10: in every state the sender of the sibling draft reaches from
    [A_init] through calls of [A_output], [A_input] and [A_timerinterrupt]
    (acknowledgments typed as in section 3, or rejected by the checksum),
    [windowcount > 0] implies that [acked[send_base % WINDOWSIZE]] is
    false: the oldest outstanding packet sits unacknowledged in the base
    slot. *)
Theorem base_slot_unacked_while_outstanding
    (evs : list A_event) (st : Part000.sender) (out : list event) :
  acks_typed evs →
  Part000.A_run Part000.A_init evs = Some (st, out) →
  st.(Part000.windowcount) > 0 →
  idx st.(Part000.acked) (Z.rem st.(Part000.send_base) WINDOWSIZE)
    = Some false.
Proof.
  intros Htyped Hrun Hpos.
  destruct Part000_init_window_inv as [Hwf0 Hinv0].
  destruct (Part000_run_window_inv _ _ _ _ Hwf0 Hinv0 Htyped Hrun)
    as [Hwf (Hbase & _ & _ & _ & Hflag)].
  rewrite idx_lookup, rem_slot by modarith. by apply Hflag.
Qed.

Ltac typed_events :=
  repeat (apply Forall_cons; split;
          [first [exact I | right; left; by_evaluation]|]);
  exact (Forall_nil_2 _).

Lemma base_slot_unacked_while_outstanding_witness :
  acks_typed one_outstanding ∧
  idx Part000_one_outstanding.(Part000.acked)
      (Z.rem Part000_one_outstanding.(Part000.send_base) WINDOWSIZE)
    = Some false.
Proof.
  split; [typed_events|].
  eapply (base_slot_unacked_while_outstanding one_outstanding
            Part000_one_outstanding);
    [typed_events | vm_compute; reflexivity | vm_compute; reflexivity].
Defined.

(** ** Bounds on the window count *)

Lemma window_slid_count flags base wc k flags' base' wc' :
  window_slid flags base wc k flags' base' wc' →
  0 < wc → 0 ≤ wc' ≤ wc.
Proof.
  intros (Hk & _ & -> & _ & _ & _ & Hcnt & _) Hpos.
  split; [|lia].
  destruct (decide (0 ≤ wc - Z.of_nat k)) as [|Hneg]; [done|].
  specialize (Hcnt (Z.to_nat wc) ltac:(lia)). lia.
Qed.

Lemma ack_for_sent_base base wc packet :
  0 ≤ base < SEQSPACE →
  ack_for_sent base wc packet = true →
  IsCorrupted packet = false → packet.(acknum) = base → 0 < wc.
Proof.
  intros Hbase Hsent Hgood Hack. unfold ack_for_sent in Hsent.
  rewrite Hgood, Hack, in_window_base, Z.sub_diag in Hsent by done.
  cbn in Hsent. apply bool_decide_eq_true in Hsent. modarith.
Qed.

Lemma Part000_step_count st ev s out :
  Part000.sender_wf st →
  0 ≤ st.(Part000.windowcount) ≤ WINDOWSIZE →
  match ev with
  | ev_input packet =>
      ack_for_sent st.(Part000.send_base) st.(Part000.windowcount) packet
        = true
  | _ => True
  end →
  Part000.A_step st ev = Some (s, out) →
  Part000.sender_wf s ∧ 0 ≤ s.(Part000.windowcount) ≤ WINDOWSIZE.
Proof.
  intros Hwf Hcount Hsent Hstep. pose proof Hwf as (Hbase & Hlen & Hbuf).
  destruct ev as [message|packet|]; cbn [Part000.A_step] in Hstep.
  - destruct (Part000_A_output_cases _ _ _ _ Hstep)
      as [[_ [c ->]]|(Hroom & Hi & Hacked & Hbuf' & Hb & Hn & Hw)].
    { split; assumption. }
    split; [|lia]. unfold Part000.sender_wf.
    rewrite Hacked, length_insert, Hbuf', Hb. done.
  - destruct (Part000_A_input_cases _ _ _ _ Hwf Hstep)
      as [[c ->]|[(Hgood & Hwin & Hne & Hi & Hacked & Hbuf' & Hb & Hn & Hw)
                 |(Hgood & Hack & Hwf' & Hn & _ & k & Hslid)]].
    + split; assumption.
    + split; [|lia]. unfold Part000.sender_wf.
      rewrite Hacked, length_insert, Hbuf', Hb. done.
    + split; [done|].
      pose proof (ack_for_sent_base _ _ _ Hbase Hsent Hgood Hack) as Hpos.
      pose proof (window_slid_count _ _ _ _ _ _ _ Hslid Hpos). lia.
  - apply Part000_A_timerinterrupt_window in Hstep
      as (Hacked & Hbuf' & Hb & Hn & Hw).
    unfold Part000.sender_wf. by rewrite Hacked, Hbuf', Hb, Hw.
Qed.

Lemma Sr_step_count st ev s out :
  Sr.sender_wf st →
  0 ≤ st.(Sr.windowcount) →
  match ev with
  | ev_input packet =>
      ack_for_sent st.(Sr.send_base) st.(Sr.windowcount) packet = true
  | _ => True
  end →
  Sr.A_step st ev = Some (s, out) →
  Sr.sender_wf s ∧ 0 ≤ s.(Sr.windowcount).
Proof.
  intros Hwf Hcount Hsent Hstep.
  pose proof Hwf as (Hbase & Hlen & Hbuf & Htim & Hwc).
  destruct ev as [message|packet|]; cbn [Sr.A_step] in Hstep.
  - destruct (Sr_A_output_cases _ _ _ _ Hstep)
      as [[_ [c ->]]|(Hroom & Hi & Hacked & Hbuf' & Htim' & Hb & Hn & Hw)].
    { split; assumption. }
    split; [|lia]. unfold Sr.sender_wf.
    rewrite Hacked, length_insert, Hbuf', Htim', Hb, Hw.
    split_and!; try done; lia.
  - destruct (Sr_A_input_cases _ _ _ _ Hwf Hstep)
      as [[c ->]|[(Hgood & Hwin & Hne & Hi & Hacked & Hbuf' & Htim' & Hb
                   & Hn & Hw)
                 |(Hgood & Hack & Hwf' & Hn & _ & k & Hslid)]].
    + split; assumption.
    + split; [|lia]. unfold Sr.sender_wf.
      rewrite Hacked, length_insert, Hbuf', Htim', Hb, Hw.
      split_and!; try done; lia.
    + split; [done|].
      pose proof (ack_for_sent_base _ _ _ Hbase Hsent Hgood Hack) as Hpos.
      pose proof (window_slid_count _ _ _ _ _ _ _ Hslid Hpos). lia.
  - apply Sr_A_timerinterrupt_window in Hstep as [c ->].
    split; assumption.
Qed.

Lemma Part000_run_count evs st s out :
  Part000.sender_wf st →
  0 ≤ st.(Part000.windowcount) ≤ WINDOWSIZE →
  Part000.acks_for_sent st evs →
  Part000.A_run st evs = Some (s, out) →
  Part000.sender_wf s ∧ 0 ≤ s.(Part000.windowcount) ≤ WINDOWSIZE.
Proof.
  revert st out.
  induction evs as [|ev evs IH]; intros st out Hwf Hcount Hsent Hrun.
  - cbn in Hrun. by simplify_eq.
  - cbn [Part000.A_run] in Hrun. run_inv Hrun.
    cbn [Part000.acks_for_sent] in Hsent. destruct Hsent as [Hev Hsent].
    match goal with H : Part000.A_step _ _ = Some _ |- _ =>
      rewrite H in Hsent;
      destruct (Part000_step_count _ _ _ _ Hwf Hcount Hev H) end.
    simplify_eq. eapply IH; [| | |eassumption]; done.
Qed.

Lemma Sr_run_count evs st s out :
  Sr.sender_wf st →
  0 ≤ st.(Sr.windowcount) →
  Sr.acks_for_sent st evs →
  Sr.A_run st evs = Some (s, out) →
  Sr.sender_wf s ∧ 0 ≤ s.(Sr.windowcount).
Proof.
  revert st out.
  induction evs as [|ev evs IH]; intros st out Hwf Hcount Hsent Hrun.
  - cbn in Hrun. by simplify_eq.
  - cbn [Sr.A_run] in Hrun. run_inv Hrun.
    cbn [Sr.acks_for_sent] in Hsent. destruct Hsent as [Hev Hsent].
    match goal with H : Sr.A_step _ _ = Some _ |- _ =>
      rewrite H in Hsent;
      destruct (Sr_step_count _ _ _ _ Hwf Hcount Hev H) end.
    simplify_eq. eapply IH; [| | |eassumption]; done.
Qed.

(** ** The receiver arrays keep their size *)

Lemma deliver_length fuel buf flags base flags' base' out :
  deliver fuel buf flags base = Some (flags', base', out) →
  length flags' = length flags.
Proof.
  revert flags base flags' base' out.
  induction fuel as [|fuel IH]; intros flags base flags' base' out; [done|].
  cbn [deliver]. intros Hrun. run_inv Hrun; simplify_eq; [|done].
  match goal with H : deliver _ _ _ _ = Some _ |- _ => apply IH in H end.
  match goal with H : upd _ _ _ = Some _ |- _ => apply upd_length in H end.
  congruence.
Qed.

Lemma B_accept_length st packet s out ack :
  B_accept st packet = Some (s, out, ack) →
  length s.(rcv_acked) = length st.(rcv_acked).
Proof.
  unfold B_accept. intros Hrun. run_inv_all; simplify_eq; try done.
  all: cbn [rcv_acked].
  all: repeat match goal with
       | H : deliver _ _ _ _ = Some _ |- _ => apply deliver_length in H
       | H : upd _ _ _ = Some _ |- _ => apply upd_length in H
       end; congruence.
Qed.

Lemma Part000_B_input_length st packet s out :
  Part000.B_input st packet = Some (s, out) →
  length s.(rcv_acked) = length st.(rcv_acked).
Proof.
  unfold Part000.B_input. intros Hrun. run_inv Hrun. simplify_eq.
  cbn [rcv_acked]. by eapply B_accept_length.
Qed.

Lemma Sr_B_input_length st packet junk s out :
  Sr.B_input st packet junk = Some (s, out) →
  length s.(rcv_acked) = length st.(rcv_acked).
Proof.
  unfold Sr.B_input. intros Hrun. run_inv Hrun. simplify_eq.
  cbn [rcv_acked]. by eapply B_accept_length.
Qed.

Lemma receiver_run_length {X : Type}
    (step : receiver → X → option (receiver * list event)) :
  (∀ st x s out, step st x = Some (s, out) →
     length s.(rcv_acked) = length st.(rcv_acked)) →
  ∀ arrivals st s out,
    receiver_run step st arrivals = Some (s, out) →
    length s.(rcv_acked) = length st.(rcv_acked).
Proof.
  intros Hstep arrivals. induction arrivals as [|x arrivals IH];
    intros st s out Hrun; cbn [receiver_run] in Hrun.
  - by simplify_eq.
  - run_inv Hrun. simplify_eq.
    match goal with H : step _ _ = Some _ |- _ =>
      apply Hstep in H as <- end.
    by eapply IH.
Qed.

Lemma Part000_B_run_length arrivals st s out :
  Part000.B_run st arrivals = Some (s, out) →
  length s.(rcv_acked) = length st.(rcv_acked).
Proof. apply receiver_run_length. apply Part000_B_input_length. Qed.

Lemma Sr_B_run_length arrivals st s out :
  Sr.B_run st arrivals = Some (s, out) →
  length s.(rcv_acked) = length st.(rcv_acked).
Proof.
  apply receiver_run_length. intros ? ? ? ?. apply Sr_B_input_length.
Qed.

(** C9, amended: [windowcount] stays within [0, WINDOWSIZE] in every state
    the sender reaches from [A_init] through calls of [A_output], [A_input]
    and [A_timerinterrupt], provided every uncorrupted acknowledgment that
    falls into the window is for one of the [windowcount] outstanding
    sequence numbers ([acks_for_sent]); and in every state the receiver
    reaches from [B_init] through calls of [B_input], whatever the packets,
    at most [WINDOWSIZE] received flags are set.  Stated for [sr.c] and for
    the sibling draft. *)
Theorem window_bounds_for_sent_acks
    (evs evs' : list A_event) (arrivals : list (pkt * list ascii))
    (arrivals' : list pkt)
    (st : Sr.sender) (st' : Part000.sender) (rcv rcv' : receiver)
    (out out' outB outB' : list event) :
  Sr.acks_for_sent Sr.A_init evs →
  Sr.A_run Sr.A_init evs = Some (st, out) →
  Part000.acks_for_sent Part000.A_init evs' →
  Part000.A_run Part000.A_init evs' = Some (st', out') →
  Sr.B_run Sr.B_init arrivals = Some (rcv, outB) →
  Part000.B_run Part000.B_init arrivals' = Some (rcv', outB') →
  0 ≤ st.(Sr.windowcount) ≤ WINDOWSIZE ∧
  0 ≤ st'.(Part000.windowcount) ≤ WINDOWSIZE ∧
  Z.of_nat (count_set rcv.(rcv_acked)) ≤ WINDOWSIZE ∧
  Z.of_nat (count_set rcv'.(rcv_acked)) ≤ WINDOWSIZE.
Proof.
  intros Hsent Hrun Hsent' Hrun' HrunB HrunB'.
  split; [|split; [|split]].
  - destruct (Sr_run_count evs Sr.A_init st out) as [Hwf Hlow];
      [by_evaluation | by_evaluation | done | done |].
    destruct Hwf as (_ & _ & _ & _ & Hhigh). lia.
  - destruct (Part000_run_count evs' Part000.A_init st' out') as [_ Hcount];
      [by_evaluation | by_evaluation | done | done |]. done.
  - apply Sr_B_run_length in HrunB.
    pose proof (count_set_le_length rcv.(rcv_acked)) as Hle.
    rewrite HrunB in Hle. cbn in Hle. unfold WINDOWSIZE. lia.
  - apply Part000_B_run_length in HrunB'.
    pose proof (count_set_le_length rcv'.(rcv_acked)) as Hle.
    rewrite HrunB' in Hle. cbn in Hle. unfold WINDOWSIZE. lia.
Qed.

Lemma window_bounds_for_sent_acks_witness :
  0 ≤ Sr_one_outstanding.(Sr.windowcount) ≤ WINDOWSIZE ∧
  0 ≤ Part000_one_outstanding.(Part000.windowcount) ≤ WINDOWSIZE ∧
  Z.of_nat (count_set Sr_received.(rcv_acked)) ≤ WINDOWSIZE ∧
  Z.of_nat (count_set Part000_received.(rcv_acked)) ≤ WINDOWSIZE.
Proof.
  eapply (window_bounds_for_sent_acks one_outstanding one_outstanding
            out_of_order_junk out_of_order);
    [vm_compute; repeat split | vm_compute; reflexivity
    |vm_compute; repeat split | vm_compute; reflexivity
    |vm_compute; reflexivity | vm_compute; reflexivity].
Defined.

(** ** The packets of the sender *)

Lemma Part000_step_nextseqnum st ev s out (n : nat) :
  Part000.A_step st ev = Some (s, out) →
  st.(Part000.A_nextseqnum) = Z.of_nat n `mod` SEQSPACE →
  s.(Part000.A_nextseqnum)
  = Z.of_nat (n + length (accepts st.(Part000.windowcount) ev)) `mod` SEQSPACE.
Proof.
  intros Hstep Hnext. destruct ev as [message|packet|];
    cbn [Part000.A_step accepts] in *.
  - unfold Part000.A_output in Hstep. destruct (decide _); run_inv Hstep;
      simplify_eq; cbn [Part000.A_nextseqnum length]; [modarith|].
    rewrite Nat.add_0_r. by destruct st.
  - rewrite Nat.add_0_r, <- Hnext. clear Hnext.
    unfold Part000.A_input in Hstep. run_inv_all; by simplify_eq.
  - rewrite Nat.add_0_r, <- Hnext. clear Hnext.
    unfold Part000.A_timerinterrupt in Hstep. run_inv_all; by simplify_eq.
Qed.

Lemma Part000_run_nextseqnum evs st s out (n : nat) :
  Part000.A_run st evs = Some (s, out) →
  st.(Part000.A_nextseqnum) = Z.of_nat n `mod` SEQSPACE →
  s.(Part000.A_nextseqnum)
  = Z.of_nat (n + length (Part000.accepted st evs)) `mod` SEQSPACE.
Proof.
  revert st out n. induction evs as [|ev evs IH]; intros st out n Hrun Hnext.
  - cbn in Hrun. simplify_eq. by rewrite Nat.add_0_r.
  - cbn [Part000.A_run] in Hrun. run_inv Hrun. simplify_eq.
    cbn [Part000.accepted].
    match goal with H : Part000.A_step _ _ = Some _ |- _ =>
      rewrite H; pose proof (Part000_step_nextseqnum _ _ _ _ _ H Hnext) end.
    rewrite length_app, Nat.add_assoc. by eapply IH.
Qed.

(** The message that [A_output] accepts after [k] others goes out as the
    packet [nth_pkt] gives for [k]. *)
Lemma Part000_accepted_packet evs st out message s out' stream :
  Part000.A_run Part000.A_init evs = Some (st, out) →
  st.(Part000.windowcount) < WINDOWSIZE →
  Part000.A_output st message = Some (s, out') →
  stream (length (Part000.accepted Part000.A_init evs)) = message →
  sent_by A out'
  = [nth_pkt stream (length (Part000.accepted Part000.A_init evs))].
Proof.
  intros Hrun Hroom Hout <-.
  apply (Part000_run_nextseqnum _ _ _ _ 0) in Hrun; [|done].
  rewrite Nat.add_0_l in Hrun.
  unfold Part000.A_output in Hout. rewrite decide_True in Hout by done.
  run_inv Hout. simplify_eq. unfold nth_pkt. rewrite <- Hrun.
  by destruct (_ && _).
Qed.

Lemma Sr_step_nextseqnum st ev s out (n : nat) :
  Sr.A_step st ev = Some (s, out) →
  st.(Sr.A_nextseqnum) = Z.of_nat n `mod` SEQSPACE →
  s.(Sr.A_nextseqnum)
  = Z.of_nat (n + length (accepts st.(Sr.windowcount) ev)) `mod` SEQSPACE.
Proof.
  intros Hstep Hnext. destruct ev as [message|packet|];
    cbn [Sr.A_step accepts] in *.
  - unfold Sr.A_output in Hstep. destruct (decide _); run_inv Hstep;
      simplify_eq; cbn [Sr.A_nextseqnum length]; [modarith|].
    rewrite Nat.add_0_r. by destruct st.
  - rewrite Nat.add_0_r, <- Hnext. clear Hnext.
    unfold Sr.A_input in Hstep. run_inv_all; by simplify_eq.
  - rewrite Nat.add_0_r, <- Hnext. clear Hnext.
    unfold Sr.A_timerinterrupt in Hstep. run_inv Hstep.
    match goal with H : match ?x with _ => _ end = Some _ |- _ =>
      destruct x; run_inv H end; by simplify_eq.
Qed.

Lemma Sr_run_nextseqnum evs st s out (n : nat) :
  Sr.A_run st evs = Some (s, out) →
  st.(Sr.A_nextseqnum) = Z.of_nat n `mod` SEQSPACE →
  s.(Sr.A_nextseqnum)
  = Z.of_nat (n + length (Sr.accepted st evs)) `mod` SEQSPACE.
Proof.
  revert st out n. induction evs as [|ev evs IH]; intros st out n Hrun Hnext.
  - cbn in Hrun. simplify_eq. by rewrite Nat.add_0_r.
  - cbn [Sr.A_run] in Hrun. run_inv Hrun. simplify_eq.
    cbn [Sr.accepted].
    match goal with H : Sr.A_step _ _ = Some _ |- _ =>
      rewrite H; pose proof (Sr_step_nextseqnum _ _ _ _ _ H Hnext) end.
    rewrite length_app, Nat.add_assoc. by eapply IH.
Qed.

Lemma Sr_accepted_packet evs st out message s out' stream :
  Sr.A_run Sr.A_init evs = Some (st, out) →
  st.(Sr.windowcount) < WINDOWSIZE →
  Sr.A_output st message = Some (s, out') →
  stream (length (Sr.accepted Sr.A_init evs)) = message →
  sent_by A out' = [nth_pkt stream (length (Sr.accepted Sr.A_init evs))].
Proof.
  intros Hrun Hroom Hout <-.
  apply (Sr_run_nextseqnum _ _ _ _ 0) in Hrun; [|done].
  rewrite Nat.add_0_l in Hrun.
  unfold Sr.A_output in Hout. rewrite decide_True in Hout by done.
  run_inv Hout. simplify_eq. unfold nth_pkt. by rewrite <- Hrun.
Qed.

(** ** Delivery in order *)

Lemma consecutive_S b n :
  consecutive b (S n) = b `mod` SEQSPACE :: consecutive ((b + 1) `mod` SEQSPACE) n.
Proof.
  unfold consecutive. cbn [seq fmap list_fmap]. f_equal.
  - f_equal. lia.
  - rewrite <- fmap_S_seq, <- list_fmap_compose.
    apply list_fmap_ext. intros _ k _. cbn. modarith.
Qed.

Lemma numbered_nil Q D : numbered Q D [].
Proof. intros i q Hq. by rewrite lookup_nil in Hq. Qed.

Lemma numbered_cons Q D q qs :
  q.(seqnum) = D `mod` SEQSPACE → Q D q → numbered Q (D + 1) qs →
  numbered Q D (q :: qs).
Proof.
  intros Hseq HQ Hqs [|i] p Hp.
  - injection Hp as <-. change (Z.of_nat 0) with 0. by rewrite Z.add_0_r.
  - destruct (Hqs i p Hp) as [Hs Hq].
    replace (D + Z.of_nat (S i)) with (D + 1 + Z.of_nat i) by lia. done.
Qed.

Lemma numbered_inv Q D q qs :
  numbered Q D (q :: qs) →
  q.(seqnum) = D `mod` SEQSPACE ∧ Q D q ∧ numbered Q (D + 1) qs.
Proof.
  intros Hqs. destruct (Hqs 0%nat q eq_refl) as [Hs HQ].
  change (Z.of_nat 0) with 0 in Hs, HQ. rewrite Z.add_0_r in Hs, HQ.
  split; [done|]. split; [done|].
  intros i p Hp. destruct (Hqs (S i) p Hp) as [Hs' HQ'].
  replace (D + 1 + Z.of_nat i) with (D + Z.of_nat (S i)) by lia. done.
Qed.

Lemma numbered_app Q D qs1 qs2 :
  numbered Q D qs1 → numbered Q (D + Z.of_nat (length qs1)) qs2 →
  numbered Q D (qs1 ++ qs2).
Proof.
  intros H1 H2 i q Hq. apply lookup_app_Some in Hq as [Hq|[Hlen Hq]].
  - by apply H1.
  - destruct (H2 _ _ Hq) as [Hs HQ].
    replace (D + Z.of_nat i)
      with (D + Z.of_nat (length qs1) + Z.of_nat (i - length qs1)) by lia.
    done.
Qed.

Lemma numbered_consecutive Q D qs :
  numbered Q D qs → seqnum <$> qs = consecutive D (length qs).
Proof.
  revert D. induction qs as [|q qs IH]; intros D Hqs; [done|].
  apply numbered_inv in Hqs as (Hs & _ & Hqs).
  cbn [fmap list_fmap length]. rewrite consecutive_S, Hs. f_equal.
  rewrite (IH _ Hqs). unfold consecutive.
  apply list_fmap_ext. intros _ k _. cbn. modarith.
Qed.

Lemma numbered_Forall Q D qs (P : pkt → Prop) :
  (∀ k p, Q k p → P p) → numbered Q D qs → Forall P qs.
Proof.
  intros HQ Hqs. apply Forall_lookup. intros i q Hq.
  destruct (Hqs i q Hq). eauto.
Qed.

Lemma numbered_stream stream (D : nat) qs :
  numbered (stands_for stream) (Z.of_nat D) qs →
  qs = nth_pkt stream <$> seq D (length qs).
Proof.
  revert D. induction qs as [|q qs IH]; intros D Hqs; [done|].
  apply numbered_inv in Hqs as (_ & [_ ->] & Hqs).
  cbn [length seq fmap list_fmap]. rewrite Nat2Z.id. f_equal.
  apply IH. by replace (Z.of_nat (S D)) with (Z.of_nat D + 1) by lia.
Qed.

Lemma rcv_inv_store Q D buf flags base packet k :
  rcv_inv Q D buf flags base →
  D ≤ k < D + WINDOWSIZE →
  packet.(seqnum) = k `mod` SEQSPACE →
  Q k packet →
  rcv_inv Q D (<[slot packet.(seqnum) := packet]> buf)
          (<[slot packet.(seqnum) := true]> flags) base.
Proof.
  intros (HD & Hbase & Hlen & Hbuf & Hslots) Hk Hseq HQ.
  split; [done|]. split; [done|]. rewrite !length_insert.
  split; [done|]. split; [done|].
  intros j Hj. destruct (decide (j = slot packet.(seqnum))) as [->|Hne].
  - exists packet, k. rewrite list_lookup_insert_eq
      by (pose proof (slot_lt packet.(seqnum)); lia).
    split; [done|]. split; [done|]. split; [|done].
    rewrite Hseq. symmetry. apply slot_mod_seqspace.
  - rewrite list_lookup_insert_ne in Hj by done.
    destruct (Hslots j Hj) as (p & k' & Hp & Hrest).
    exists p, k'. rewrite list_lookup_insert_ne by done. done.
Qed.

(** The loop delivers the packets buffered for the positions [D],
    [D + 1], and so on, and the window invariant holds for what is left. *)
Lemma deliver_spec fuel Q D buf flags base :
  rcv_inv Q D buf flags base →
  (count_set flags < fuel)%nat →
  ∃ qs flags',
    deliver fuel buf flags base
      = Some (flags', (D + Z.of_nat (length qs)) `mod` SEQSPACE,
              tolayer5 B <$> (payload <$> qs)) ∧
    numbered Q D qs ∧
    rcv_inv Q (D + Z.of_nat (length qs)) buf flags'
            ((D + Z.of_nat (length qs)) `mod` SEQSPACE).
Proof.
  revert D flags base.
  induction fuel as [|fuel IH]; intros D flags base Hinv Hfuel; [lia|].
  pose proof Hinv as (HD & Hbase & Hlen & Hbuf & Hslots).
  assert (0 ≤ base < SEQSPACE) as Hrange by modarith.
  assert (slot base = slot D) as Hslot
    by (rewrite Hbase; apply slot_mod_seqspace).
  cbn [deliver]. rewrite !idx_lookup, !rem_slot by modarith.
  destruct (flags_lookup flags base Hlen) as [[] Hflag];
    rewrite Hflag, mbind_Some.
  - destruct (Hslots _ Hflag) as (p & k & Hp & Hk & Hkslot & Hseq & HQ).
    assert (k = D) as ->.
    { rewrite Hslot in Hkslot. apply slot_eq_iff in Hkslot. modarith. }
    rewrite Hp, mbind_Some.
    rewrite upd_in_range, rem_slot, mbind_Some by modarith.
    set (flags1 := <[slot base := false]> flags).
    pose proof (count_set_clear flags _ Hflag) as Hcount.
    fold flags1 in Hcount.
    assert (rcv_inv Q (D + 1) buf flags1 (Z.rem (base + 1) SEQSPACE)) as Hinv1.
    { rewrite Z.rem_mod_nonneg by modarith.
      split; [lia|]. split; [modarith|].
      split; [by unfold flags1; rewrite length_insert|]. split; [done|].
      intros j Hj.
      assert (j ≠ slot base) as Hne.
      { intros ->. unfold flags1 in Hj.
        rewrite list_lookup_insert_eq in Hj
          by (pose proof (slot_lt base); lia).
        congruence. }
      unfold flags1 in Hj. rewrite list_lookup_insert_ne in Hj by done.
      destruct (Hslots j Hj) as (q & k & Hq & Hqk & Hqslot & Hqseq & HqQ).
      exists q, k. split; [done|]. split; [|done].
      assert (slot k ≠ slot D) as Hkne by congruence.
      rewrite slot_eq_iff in Hkne. modarith. }
    destruct (IH _ flags1 _ Hinv1 ltac:(lia))
      as (qs & flags' & Hrun & Hnum & Hinv').
    rewrite Hrun, mbind_Some. cbv beta iota.
    exists (p :: qs), flags'. cbn [length fmap list_fmap].
    replace (D + Z.of_nat (S (length qs)))
      with (D + 1 + Z.of_nat (length qs)) by lia.
    split; [done|]. split; [|done]. by apply numbered_cons.
  - exists [], flags. cbn [length fmap list_fmap Z.of_nat].
    rewrite Z.add_0_r, <- Hbase.
    split; [done|]. split; [apply numbered_nil|done].
Qed.

(** The receiving half of [B_input] on an admissible packet: it returns,
    what it delivers are the packets of the positions from [D] on, and the
    window invariant is kept. *)
Lemma B_accept_spec Q D st packet :
  rcv_inv Q D st.(rcv_buffer) st.(rcv_acked) st.(rcv_base) →
  admissible Q D packet →
  ∃ s ack qs,
    B_accept st packet = Some (s, tolayer5 B <$> (payload <$> qs), ack) ∧
    numbered Q D qs ∧
    rcv_inv Q (D + Z.of_nat (length qs))
            s.(rcv_buffer) s.(rcv_acked) s.(rcv_base).
Proof.
  intros Hinv Hadm. pose proof Hinv as (HD & Hbase & Hlen & Hbuf & Hslots).
  assert (∀ x, B_accept st packet = Some (st, [], x) →
          ∃ s ack qs,
            B_accept st packet
              = Some (s, tolayer5 B <$> (payload <$> qs), ack) ∧
            numbered Q D qs ∧
            rcv_inv Q (D + Z.of_nat (length qs))
                    s.(rcv_buffer) s.(rcv_acked) s.(rcv_base)) as Hsame.
  { intros x Hx. exists st, x, []. split; [exact Hx|].
    cbn [length Z.of_nat]. rewrite Z.add_0_r.
    split; [apply numbered_nil|done]. }
  destruct (IsCorrupted packet) eqn:Hgood.
  { eapply Hsame. by apply B_accept_corrupted. }
  destruct Hadm as [?|[Hrange Hstands]]; [congruence|].
  destruct (in_window st.(rcv_base) packet.(seqnum)) eqn:Hwin.
  2:{ eapply Hsame. unfold B_accept. by rewrite Hgood, Hwin. }
  destruct Hstands as (k & Hk & Hseq & HQ); [by rewrite <- Hbase|].
  pose proof (rcv_inv_store _ _ _ _ _ _ _ Hinv Hk Hseq HQ) as Hstored.
  unfold B_accept. rewrite Hgood, Hwin. cbn [negb].
  rewrite !upd_in_range, !mbind_Some, !rem_slot by modarith.
  destruct (decide (packet.(seqnum) = st.(rcv_base))) as [Heq|Hne].
  - destruct (deliver_spec
                (S (length (<[slot packet.(seqnum) := true]> st.(rcv_acked))))
                _ _ _ _ _ Hstored)
      as (qs & flags' & Hrun & Hnum & Hinv1).
    { pose proof (count_set_le_length
                    (<[slot packet.(seqnum) := true]> st.(rcv_acked))). lia. }
    rewrite Hrun, mbind_Some. cbv beta iota.
    eexists _, _, qs. split; [reflexivity|].
    cbn [rcv_base rcv_buffer rcv_acked]. done.
  - rewrite mbind_Some. cbv beta iota.
    eexists _, _, []. split; [reflexivity|].
    cbn [rcv_base rcv_buffer rcv_acked length Z.of_nat]. rewrite Z.add_0_r.
    split; [apply numbered_nil|done].
Qed.

Lemma delivered_tolayer5 ds : delivered (tolayer5 B <$> ds) = ds.
Proof. induction ds as [|d ds IH]; [done|]. cbn. by f_equal. Qed.

Lemma Part000_B_input_spec Q D st packet :
  rcv_inv Q D st.(rcv_buffer) st.(rcv_acked) st.(rcv_base) →
  admissible Q D packet →
  ∃ s out qs,
    Part000.B_input st packet = Some (s, out) ∧
    delivered out = payload <$> qs ∧
    numbered Q D qs ∧
    rcv_inv Q (D + Z.of_nat (length qs))
            s.(rcv_buffer) s.(rcv_acked) s.(rcv_base).
Proof.
  intros Hinv Hadm.
  destruct (B_accept_spec _ _ _ _ Hinv Hadm)
    as (s & ack & qs & Hrun & Hnum & Hinv').
  unfold Part000.B_input. rewrite Hrun, mbind_Some. cbv beta iota zeta.
  eexists _, _, qs. split; [reflexivity|].
  rewrite delivered_app, delivered_tolayer5.
  cbn [delivered omap list_omap rcv_base rcv_buffer rcv_acked].
  by rewrite app_nil_r.
Qed.

Lemma Sr_B_input_spec Q D st packet junk :
  rcv_inv Q D st.(rcv_buffer) st.(rcv_acked) st.(rcv_base) →
  admissible Q D packet → length junk = 20%nat →
  ∃ s out qs,
    Sr.B_input st packet junk = Some (s, out) ∧
    delivered out = payload <$> qs ∧
    numbered Q D qs ∧
    rcv_inv Q (D + Z.of_nat (length qs))
            s.(rcv_buffer) s.(rcv_acked) s.(rcv_base).
Proof.
  intros Hinv Hadm Hjunk.
  destruct (B_accept_spec _ _ _ _ Hinv Hadm)
    as (s & ack & qs & Hrun & Hnum & Hinv').
  unfold Sr.B_input. rewrite Hrun, mbind_Some. cbv beta iota zeta.
  match goal with |- context [Sr.fill_and_send 20 0 ?p] =>
    destruct (fill_and_send_total 20 0 p) as [sent Hsent];
      [lia | cbn [payload]; lia |];
    rewrite Hsent, mbind_Some;
    apply fill_and_send_spec in Hsent as (ps & -> & _ & _)
  end.
  eexists _, _, qs. split; [reflexivity|].
  rewrite delivered_app, delivered_tolayer5, delivered_tolayer3.
  cbn [rcv_base rcv_buffer rcv_acked].
  by rewrite app_nil_r.
Qed.

(** A run of a receiver whose steps keep the window invariant, each
    arrival being allowed ([allowed D x]) for the number [D] of payloads
    delivered before it: the run returns and delivers the packets of the
    positions [D], [D + 1], ... *)
Lemma receiver_run_spec {X : Type}
    (step : receiver → X → option (receiver * list event))
    (allowed : Z → X → Prop) (Q : Z → pkt → Prop) :
  (∀ D st x,
     rcv_inv Q D st.(rcv_buffer) st.(rcv_acked) st.(rcv_base) →
     allowed D x →
     ∃ s out qs,
       step st x = Some (s, out) ∧
       delivered out = payload <$> qs ∧
       numbered Q D qs ∧
       rcv_inv Q (D + Z.of_nat (length qs))
               s.(rcv_buffer) s.(rcv_acked) s.(rcv_base)) →
  ∀ arrivals D st,
    rcv_inv Q D st.(rcv_buffer) st.(rcv_acked) st.(rcv_base) →
    (∀ pre x post s out,
       arrivals = pre ++ x :: post →
       receiver_run step st pre = Some (s, out) →
       allowed (D + Z.of_nat (length (delivered out))) x) →
    ∃ s out qs,
      receiver_run step st arrivals = Some (s, out) ∧
      delivered out = payload <$> qs ∧
      numbered Q D qs.
Proof.
  intros Hstep arrivals.
  induction arrivals as [|x arrivals IH]; intros D st Hinv Hall.
  - exists st, [], []. split; [done|]. split; [done|]. apply numbered_nil.
  - destruct (Hstep D st x Hinv)
      as (s1 & out1 & qs1 & Hrun1 & Hout1 & Hnum1 & Hinv1).
    { specialize (Hall [] x arrivals st [] eq_refl eq_refl).
      change (allowed (D + 0) x) in Hall. by rewrite Z.add_0_r in Hall. }
    destruct (IH _ _ Hinv1) as (s2 & out2 & qs2 & Hrun2 & Hout2 & Hnum2).
    { intros pre y post s out -> Hpre.
      specialize (Hall (x :: pre) y post s (out1 ++ out) eq_refl).
      cbn [receiver_run] in Hall. rewrite Hrun1, mbind_Some in Hall.
      cbv beta iota in Hall. rewrite Hpre, mbind_Some in Hall.
      cbv beta iota in Hall. specialize (Hall eq_refl).
      rewrite delivered_app, length_app, Hout1, length_fmap,
        Nat2Z.inj_add, Z.add_assoc in Hall.
      done. }
    exists s2, (out1 ++ out2), (qs1 ++ qs2).
    cbn [receiver_run]. rewrite Hrun1, mbind_Some. cbv beta iota.
    rewrite Hrun2, mbind_Some. cbv beta iota.
    split; [done|]. rewrite delivered_app, Hout1, Hout2, fmap_app.
    split; [done|]. by apply numbered_app.
Qed.

Lemma receiver_run_fmap {X Y : Type} (f : X → Y)
    (step : receiver → Y → option (receiver * list event)) st xs :
  receiver_run step st (f <$> xs)
  = receiver_run (λ st x, step st (f x)) st xs.
Proof.
  revert st. induction xs as [|x xs IH]; intros st; [done|].
  cbn [fmap list_fmap receiver_run].
  destruct (step st (f x)) as [[s out]|]; [|done].
  rewrite !mbind_Some. cbv beta iota. by rewrite <- IH.
Qed.

Lemma rcv_inv_init Q :
  rcv_inv Q 0 (replicate 6 zero_pkt) (replicate 6 false) 0.
Proof.
  split; [done|]. split; [done|]. split; [done|]. split; [done|].
  intros j Hj. apply lookup_replicate in Hj as [? _]. done.
Qed.

(** A typed packet is admissible whatever the state of the window: the
    position it stands for is the one its sequence number names. *)
Lemma typed_admissible (P : pkt → Prop) D packet :
  0 ≤ D → data_typed packet → P packet →
  admissible (λ _ q, P q ∧ IsCorrupted q = false) D packet.
Proof.
  intros HD Htyped HP. destruct (IsCorrupted packet) eqn:Hgood; [by left|].
  destruct Htyped as [?|Hrange]; [congruence|].
  right. split; [done|]. intros Hwin.
  apply in_window_spec in Hwin; [|modarith|done].
  exists (D + (packet.(seqnum) - D) `mod` SEQSPACE).
  split; [modarith|]. split; [modarith|done].
Qed.

(** A copy that fits is admissible as the packet of its position. *)
Lemma fits_admissible stream (D : nat) a :
  fits D a → admissible (stands_for stream) (Z.of_nat D) (pkt_of stream a).
Proof.
  destruct a as [k|packet]; cbn [fits pkt_of]; [|by left].
  intros [Hlow Hhigh]. right.
  change (nth_pkt stream k).(seqnum) with (Z.of_nat k `mod` SEQSPACE).
  split; [modarith|]. intros Hwin.
  apply in_window_spec in Hwin; [|modarith..].
  exists (Z.of_nat k). split; [modarith|]. split; [done|].
  split; [lia|]. by rewrite Nat2Z.id.
Qed.

Lemma Part000_receive_spec stream arrivals :
  channel_consistent id (Part000_receive stream) arrivals →
  ∃ st out n,
    Part000_receive stream arrivals = Some (st, out) ∧
    delivered out = (λ k, take 20 (stream k).(data)) <$> seq 0 n.
Proof.
  intros Hfits.
  destruct (receiver_run_spec
              (λ st a, Part000.B_input st (pkt_of stream a))
              (λ D a, admissible (stands_for stream) D (pkt_of stream a))
              (stands_for stream)
              (λ D st a, Part000_B_input_spec _ D st _)
              arrivals 0 Part000.B_init (rcv_inv_init _))
    as (st & out & qs & Hrun & Hout & Hnum).
  { intros pre a post s out Heq Hrun.
    rewrite <- Nat2Z.inj_0, <- Nat2Z.inj_add. apply fits_admissible.
    apply (Hfits pre a post s out Heq).
    unfold Part000_receive, Part000.B_run. by rewrite receiver_run_fmap. }
  exists st, out, (length qs).
  unfold Part000_receive, Part000.B_run. rewrite receiver_run_fmap.
  split; [done|]. rewrite Hout.
  rewrite (numbered_stream stream 0 qs Hnum) at 1.
  by rewrite <- list_fmap_compose.
Qed.

Lemma Sr_receive_spec stream arrivals :
  channel_consistent fst (Sr_receive stream) arrivals →
  Forall (λ x, length x.2 = 20%nat) arrivals →
  ∃ st out n,
    Sr_receive stream arrivals = Some (st, out) ∧
    delivered out = (λ k, take 20 (stream k).(data)) <$> seq 0 n.
Proof.
  intros Hfits Hjunk.
  destruct (receiver_run_spec
              (λ st x, Sr.B_input st (pkt_of stream x.1) x.2)
              (λ D x, admissible (stands_for stream) D (pkt_of stream x.1)
                      ∧ length x.2 = 20%nat)
              (stands_for stream)
              (λ D st x Hinv Hx,
                 Sr_B_input_spec _ D st _ _ Hinv (proj1 Hx) (proj2 Hx))
              arrivals 0 Sr.B_init (rcv_inv_init _))
    as (st & out & qs & Hrun & Hout & Hnum).
  { intros pre x post s out Heq Hrun. split.
    - rewrite <- Nat2Z.inj_0, <- Nat2Z.inj_add. apply fits_admissible.
      apply (Hfits pre x post s out Heq).
      unfold Sr_receive, Sr.B_run. by rewrite receiver_run_fmap.
    - rewrite Forall_forall in Hjunk. apply Hjunk. rewrite Heq.
      apply elem_of_app. right. by left. }
  exists st, out, (length qs).
  unfold Sr_receive, Sr.B_run. rewrite receiver_run_fmap.
  split; [done|]. rewrite Hout.
  rewrite (numbered_stream stream 0 qs Hnum) at 1.
  by rewrite <- list_fmap_compose.
Qed.

Lemma Part000_B_run_spec arrivals :
  Forall data_typed arrivals →
  ∃ st out qs,
    Part000.B_run Part000.B_init arrivals = Some (st, out) ∧
    delivered out = payload <$> qs ∧
    seqnum <$> qs = consecutive 0 (length qs) ∧
    Forall (λ q, q ∈ arrivals ∧ IsCorrupted q = false) qs.
Proof.
  intros Htyped.
  set (Q := λ (_ : Z) q, q ∈ arrivals ∧ IsCorrupted q = false).
  destruct (receiver_run_spec Part000.B_input
              (λ D packet, admissible Q D packet) Q
              (λ D st packet, Part000_B_input_spec Q D st packet)
              arrivals 0 Part000.B_init (rcv_inv_init _))
    as (st & out & qs & Hrun & Hout & Hnum).
  { intros pre packet post s out Heq _.
    assert (packet ∈ arrivals) as Hin
      by (rewrite Heq; apply elem_of_app; right; by left).
    rewrite Forall_forall in Htyped.
    apply (typed_admissible (λ q, q ∈ arrivals)); [lia|by apply Htyped|done]. }
  exists st, out, qs. split; [done|]. split; [done|].
  split; [by eapply numbered_consecutive|].
  eapply numbered_Forall; [|exact Hnum]. intros k q Hq. exact Hq.
Qed.

Lemma Sr_B_run_spec arrivals :
  Forall (λ a, data_typed a.1 ∧ length a.2 = 20%nat) arrivals →
  ∃ st out qs,
    Sr.B_run Sr.B_init arrivals = Some (st, out) ∧
    delivered out = payload <$> qs ∧
    seqnum <$> qs = consecutive 0 (length qs) ∧
    Forall (λ q, q ∈ arrivals.*1 ∧ IsCorrupted q = false) qs.
Proof.
  intros Htyped.
  set (Q := λ (_ : Z) q, q ∈ arrivals.*1 ∧ IsCorrupted q = false).
  destruct (receiver_run_spec (λ st a, Sr.B_input st a.1 a.2)
              (λ D a, admissible Q D a.1 ∧ length a.2 = 20%nat) Q
              (λ D st a Hinv Ha,
                 Sr_B_input_spec Q D st _ _ Hinv (proj1 Ha) (proj2 Ha))
              arrivals 0 Sr.B_init (rcv_inv_init _))
    as (st & out & qs & Hrun & Hout & Hnum).
  { intros pre a post s out Heq _.
    assert (a ∈ arrivals) as Hin
      by (rewrite Heq; apply elem_of_app; right; by left).
    rewrite Forall_forall in Htyped. destruct (Htyped a Hin) as [Ha Hjunk].
    split; [|done].
    apply (typed_admissible (λ q, q ∈ arrivals.*1)); [lia|done|].
    by apply list_elem_of_fmap_2. }
  exists st, out, qs. split; [done|]. split; [done|].
  split; [by eapply numbered_consecutive|].
  eapply numbered_Forall; [|exact Hnum]. intros k q Hq. exact Hq.
Qed.

(** One case of a consistency proof on sample arrivals: count what the
    run on the prefix delivers, then check that the arrival fits. *)
Ltac arrival_case Heq Hrun :=
  injection Heq as <- _;
  match type of Hrun with
  | ?run = Some (_, ?out) =>
      let n := fresh "n" in
      let Hn := fresh "Hn" in
      let Hcount := fresh "Hcount" in
      remember (length (delivered out)) as n eqn:Hn;
      assert (Some n
              = (λ r : receiver * list event, length (delivered r.2)) <$> run)
        as Hcount by (rewrite Hrun; subst n; reflexivity);
      clear Hn Hrun; vm_compute in Hcount; injection Hcount as ->
  end;
  vm_compute; first [reflexivity | lia].

Lemma in_flight_consistent :
  channel_consistent id (Part000_receive sample_stream) in_flight.
Proof.
  intros pre a post st out Heq Hrun. unfold in_flight in Heq.
  do 5 (destruct pre as [|? pre];
        [arrival_case Heq Hrun | injection Heq as <- Heq]).
  destruct pre; discriminate Heq.
Qed.

Lemma in_flight_junk_consistent :
  channel_consistent fst (Sr_receive sample_stream) in_flight_junk.
Proof.
  intros pre a post st out Heq Hrun.
  unfold in_flight_junk, in_flight in Heq. cbn [fmap list_fmap] in Heq.
  do 5 (destruct pre as [|? pre];
        [arrival_case Heq Hrun | injection Heq as <- Heq]).
  destruct pre; discriminate Heq.
Qed.

(** C2: the payloads handed to layer 5 come in send order, none twice,
    none left out, and their sequence numbers are 0, 1, 2, ... modulo
    [SEQSPACE].  Stated for the sibling draft and for [sr.c], in two
    readings of the arrivals.
    - Whatever packets arrive, in whatever order, with duplicates and
      corrupted ones among them (each packet typed as in section 3 or
      rejected by the checksum): every call of [B_input] returns, and the
      payloads delivered in the course of the run are those of uncorrupted
      arrived packets [qs] whose sequence numbers are 0, 1, 2, ... modulo
      [SEQSPACE], one after the other.
    - When the arrivals [sent] are copies of the packets that [A_output]
      builds for the messages [stream 0], [stream 1], ..., or damaged
      packets, in an order consistent with the channel (a copy is never
      more than a window behind or ahead of what has been delivered,
      [channel_consistent]): every call of [B_input] returns, and the
      payloads delivered are those of the messages 0, 1, ..., [n - 1], in
      this order. *)
Theorem in_order_delivery
    (arrivals : list pkt) (arrivals' : list (pkt * list ascii))
    (stream : nat → msg)
    (sent : list arrival) (sent' : list (arrival * list ascii)) :
  Forall data_typed arrivals →
  Forall (λ a, data_typed a.1 ∧ length a.2 = 20%nat) arrivals' →
  channel_consistent id (Part000_receive stream) sent →
  channel_consistent fst (Sr_receive stream) sent' →
  Forall (λ x, length x.2 = 20%nat) sent' →
  (∃ st out qs,
     Part000.B_run Part000.B_init arrivals = Some (st, out) ∧
     delivered out = payload <$> qs ∧
     seqnum <$> qs = consecutive 0 (length qs) ∧
     Forall (λ q, q ∈ arrivals ∧ IsCorrupted q = false) qs) ∧
  (∃ st out qs,
     Sr.B_run Sr.B_init arrivals' = Some (st, out) ∧
     delivered out = payload <$> qs ∧
     seqnum <$> qs = consecutive 0 (length qs) ∧
     Forall (λ q, q ∈ arrivals'.*1 ∧ IsCorrupted q = false) qs) ∧
  (∃ st out n,
     Part000_receive stream sent = Some (st, out) ∧
     delivered out = (λ k, take 20 (stream k).(data)) <$> seq 0 n) ∧
  (∃ st out n,
     Sr_receive stream sent' = Some (st, out) ∧
     delivered out = (λ k, take 20 (stream k).(data)) <$> seq 0 n).
Proof.
  intros Htyped Htyped' Hfits Hfits' Hjunk.
  split; [by apply Part000_B_run_spec|].
  split; [by apply Sr_B_run_spec|].
  split; [by apply Part000_receive_spec|by apply Sr_receive_spec].
Qed.

Lemma in_order_delivery_witness :
  (∃ st out qs,
     Part000.B_run Part000.B_init out_of_order = Some (st, out) ∧
     delivered out = payload <$> qs ∧
     seqnum <$> qs = consecutive 0 (length qs)) ∧
  (∃ st out qs,
     Sr.B_run Sr.B_init out_of_order_junk = Some (st, out) ∧
     delivered out = payload <$> qs ∧
     seqnum <$> qs = consecutive 0 (length qs)) ∧
  (∃ st out n,
     Part000_receive sample_stream in_flight = Some (st, out) ∧
     delivered out
     = (λ k, take 20 (sample_stream k).(data)) <$> seq 0 n) ∧
  (∃ st out n,
     Sr_receive sample_stream in_flight_junk = Some (st, out) ∧
     delivered out
     = (λ k, take 20 (sample_stream k).(data)) <$> seq 0 n).
Proof.
  destruct (in_order_delivery out_of_order out_of_order_junk
              sample_stream in_flight in_flight_junk)
    as [(st & out & qs & Hrun & Hout & Hseq & _)
        [(st' & out' & qs' & Hrun' & Hout' & Hseq' & _) [Hsent Hsent']]].
  - repeat (apply Forall_cons; split; [right; by_evaluation|]).
    exact (Forall_nil_2 _).
  - repeat (apply Forall_cons; split;
            [split; [right; by_evaluation | reflexivity]|]).
    exact (Forall_nil_2 _).
  - exact in_flight_consistent.
  - exact in_flight_junk_consistent.
  - repeat (apply Forall_cons; split; [reflexivity|]).
    exact (Forall_nil_2 _).
  - split; [|split; [|exact (conj Hsent Hsent')]].
    + exists st, out, qs. exact (conj Hrun (conj Hout Hseq)).
    + exists st', out', qs'. exact (conj Hrun' (conj Hout' Hseq')).
Defined.

(** ** The timeout handlers on well-formed states *)

Lemma resend_scan_terminates fuel (n : nat) flags base wc next i :
  length flags = 6%nat → 0 ≤ base → wc ≤ WINDOWSIZE →
  (8 ≤ n + fuel)%nat → (n ≤ 6)%nat →
  (i - Z.of_nat n * (base + 1)) `mod` 6 = 0 →
  (if decide (n = 0%nat) then i = 0 else 1 ≤ i ≤ 6) →
  ∃ found, Sr.resend_scan fuel flags base wc next i = Some found ∧
           ∀ j, found = Some j → 0 ≤ j < WINDOWSIZE.
Proof.
  intros Hlen Hbase Hwc. revert n i.
  induction fuel as [|fuel IH]; intros n i Hfuel Hn Hmod Hi; [lia|].
  cbn [Sr.resend_scan].
  destruct (decide (i < wc)) as [Hlt|]; [|by eexists].
  assert (n = 0%nat ∧ i = 0 ∨ n ≠ 0%nat ∧ 1 ≤ i ≤ 6) as Hi'
    by (destruct (decide (n = 0%nat)); lia).
  clear Hi. unfold WINDOWSIZE in Hwc.
  rewrite idx_lookup by modarith.
  destruct (lookup_lt_is_Some_2 flags
              (Z.to_nat (Z.rem (Z.rem (base + i) SEQSPACE) WINDOWSIZE)))
    as [a Ha]; [modarith|].
  rewrite Ha, mbind_Some.
  destruct (negb a && _).
  { eexists. split; [done|]. intros j [= <-]. modarith. }
  apply (IH (S n)); [lia | | |].
  - do 7 (destruct n as [|n]; [modarith|]). lia.
  - do 7 (destruct n as [|n]; [modarith|]). lia.
  - rewrite decide_False by done. modarith.
Qed.

(** On a well-formed state the handler of [sr.c] returns, and it hands at
    most one packet to layer 3. *)
Lemma Sr_A_timerinterrupt_total st :
  Sr.sender_wf st →
  ∃ s out, Sr.A_timerinterrupt st = Some (s, out) ∧
           (length (sent_by A out) ≤ 1)%nat.
Proof.
  intros (Hbase & Hlen & Hbuf & Htim & Hwc).
  assert (length st.(Sr.acked) = 6%nat) as Hlen'
    by (unfold WINDOWSIZE in Hlen; lia).
  destruct (resend_scan_terminates 8 0 st.(Sr.acked) st.(Sr.send_base)
              st.(Sr.windowcount) st.(Sr.A_nextseqnum) 0)
    as (found & Hscan & Hfound); [done | lia | done | lia | lia | |
                                  by rewrite decide_True |].
  { change (Z.of_nat 0) with 0. modarith. }
  unfold Sr.A_timerinterrupt. rewrite Hlen', Hscan, mbind_Some.
  destruct found as [j|].
  2:{ eexists _, _. split; [reflexivity|]. cbn. lia. }
  specialize (Hfound j eq_refl). rewrite idx_lookup by lia.
  destruct (lookup_lt_is_Some_2 st.(Sr.buffer) (Z.to_nat j)) as [p Hp];
    [unfold WINDOWSIZE in *; lia|].
  rewrite Hp, mbind_Some. eexists _, _. split; [reflexivity|].
  unfold sent_by. cbn [omap list_omap]. rewrite decide_True by done.
  cbn. lia.
Qed.

(** In every state the sender of the sibling draft reaches, with something
    outstanding, the handler resends exactly the packet in the base slot
    and rearms the timer. *)
Lemma Part000_timerinterrupt_reachable evs st out :
  acks_typed evs →
  Part000.A_run Part000.A_init evs = Some (st, out) →
  st.(Part000.windowcount) > 0 →
  ∃ s p,
    st.(Part000.buffer) !! slot st.(Part000.send_base) = Some p ∧
    Part000.A_timerinterrupt st = Some (s, [tolayer3 A p; starttimer A RTT]).
Proof.
  intros Htyped Hrun Hpos.
  destruct Part000_init_window_inv as [Hwf0 Hinv0].
  destruct (Part000_run_window_inv _ _ _ _ Hwf0 Hinv0 Htyped Hrun)
    as [(Hbase & _ & Hbuf) (_ & _ & _ & _ & Hflag)].
  destruct (lookup_lt_is_Some_2 st.(Part000.buffer)
              (slot st.(Part000.send_base))) as [p Hp].
  { pose proof (slot_lt st.(Part000.send_base)).
    unfold WINDOWSIZE in Hbuf. lia. }
  eexists _, p. split; [done|].
  apply Part000_timerinterrupt_base; [lia | by apply Hflag | done].
Qed.

(** * Further properties of the handlers *)

(** ** The checksum *)

Lemma int_wrap_add_l x y : int_wrap (int_wrap x + y) = int_wrap (x + y).
Proof.
  unfold int_wrap. change (2 ^ 31) with 2147483648.
  change (2 ^ 32) with 4294967296.
  Z.to_euclidean_division_equations. lia.
Qed.

Lemma int_wrap_eq x y :
  int_wrap x = int_wrap y ↔ (x - y) `mod` 2 ^ 32 = 0.
Proof.
  unfold int_wrap. change (2 ^ 31) with 2147483648.
  change (2 ^ 32) with 4294967296.
  Z.to_euclidean_division_equations. lia.
Qed.

Lemma payload_sum_cons c cs :
  payload_sum (c :: cs) = char_to_int c + payload_sum cs.
Proof. reflexivity. Qed.

Lemma checksum_loop_sum cs a :
  foldl (λ checksum c, int_wrap (checksum + char_to_int c)) (int_wrap a) cs
  = int_wrap (a + payload_sum cs).
Proof.
  revert a. induction cs as [|c cs IH]; intros a.
  - cbn. by rewrite Z.add_0_r.
  - cbn [foldl].
    rewrite IH, <- Z.add_assoc, int_wrap_add_l, payload_sum_cons. done.
Qed.

Lemma ComputeChecksum_sum p :
  ComputeChecksum p
  = int_wrap (p.(seqnum) + p.(acknum) + payload_sum (take 20 p.(payload))).
Proof. unfold ComputeChecksum. cbv zeta. apply checksum_loop_sum. Qed.

Lemma char_to_int_range c : -128 ≤ char_to_int c < 128.
Proof.
  unfold char_to_int. cbv zeta.
  pose proof (N_ascii_bounded c). destruct (decide _); lia.
Qed.

Lemma char_to_int_inj c c' : char_to_int c = char_to_int c' → c = c'.
Proof.
  unfold char_to_int. cbv zeta. intros Heq.
  pose proof (N_ascii_bounded c). pose proof (N_ascii_bounded c').
  rewrite <- (ascii_N_embedding c), <- (ascii_N_embedding c'). f_equal.
  repeat destruct (decide _); lia.
Qed.

Lemma payload_sum_insert cs (i : nat) c c' :
  cs !! i = Some c →
  payload_sum (<[i := c']> cs) = payload_sum cs - char_to_int c + char_to_int c'.
Proof.
  revert i. induction cs as [|x cs IH]; intros i Hi; [done|].
  destruct i as [|i].
  - injection Hi as ->. change (<[0%nat := c']> (c :: cs)) with (c' :: cs).
    rewrite !payload_sum_cons. lia.
  - change (<[S i := c']> (x :: cs)) with (x :: <[i := c']> cs).
    rewrite !payload_sum_cons, (IH i Hi). lia.
Qed.

Lemma payload_sum_Permutation cs cs' :
  cs ≡ₚ cs' → payload_sum cs = payload_sum cs'.
Proof.
  induction 1 as [|c cs cs' _ IH|c c' cs|cs1 cs2 cs3 _ IH1 _ IH2];
    rewrite ?payload_sum_cons; [done | lia | lia | congruence].
Qed.

(** X1: the checksum catches the change of one payload character.  If a
    packet passes [IsCorrupted] and one of its twenty payload characters is
    replaced by a different one, header and checksum field staying as they
    were, [IsCorrupted] rejects it. *)
Theorem checksum_detects_changed_character
    (p : pkt) (i : nat) (c c' : ascii) :
  IsCorrupted p = false →
  (i < 20)%nat → p.(payload) !! i = Some c → c' ≠ c →
  IsCorrupted {| seqnum := p.(seqnum); acknum := p.(acknum);
                 checksum := p.(checksum);
                 payload := <[i := c']> p.(payload) |} = true.
Proof.
  unfold IsCorrupted. intros Hgood Hi Hc Hne.
  destruct (decide (p.(checksum) = ComputeChecksum p)) as [Hsum|];
    [clear Hgood|done].
  cbn [checksum]. rewrite decide_False; [done|].
  rewrite Hsum, !ComputeChecksum_sum. cbn [seqnum acknum payload].
  rewrite take_insert_lt by done.
  rewrite (payload_sum_insert _ _ c) by (by rewrite lookup_take_lt).
  rewrite int_wrap_eq.
  pose proof (char_to_int_range c). pose proof (char_to_int_range c').
  assert (char_to_int c' ≠ char_to_int c)
    by (intros Heq; by apply char_to_int_inj in Heq).
  change (2 ^ 32) with 4294967296.
  Z.to_euclidean_division_equations. lia.
Qed.

Lemma checksum_detects_changed_character_witness :
  IsCorrupted (garble (nth_pkt sample_stream 0)) = true.
Proof.
  apply (checksum_detects_changed_character
           (nth_pkt sample_stream 0) 0 "a"%char "Z"%char);
    [vm_compute; reflexivity | lia | reflexivity | discriminate].
Defined.

(** X2: the checksum catches the change of one header field.  If a packet
    passes [IsCorrupted] and its [seqnum] or its [acknum] is replaced by
    another value of type [int] (off by [d], which is not 0 and less than
    2^32 in size), the rest staying as it was, [IsCorrupted] rejects it. *)
Theorem checksum_detects_changed_header (p : pkt) (d : Z) :
  IsCorrupted p = false →
  d ≠ 0 → - 2 ^ 32 < d < 2 ^ 32 →
  IsCorrupted {| seqnum := p.(seqnum) + d; acknum := p.(acknum);
                 checksum := p.(checksum); payload := p.(payload) |} = true ∧
  IsCorrupted {| seqnum := p.(seqnum); acknum := p.(acknum) + d;
                 checksum := p.(checksum); payload := p.(payload) |} = true.
Proof.
  unfold IsCorrupted. intros Hgood Hd Hsize.
  destruct (decide (p.(checksum) = ComputeChecksum p)) as [Hsum|];
    [clear Hgood|done].
  cbn [checksum]. rewrite Hsum, !ComputeChecksum_sum.
  cbn [seqnum acknum payload].
  split; (rewrite decide_False; [done|]); rewrite int_wrap_eq;
    change (2 ^ 32) with 4294967296 in *;
    Z.to_euclidean_division_equations; lia.
Qed.

Lemma checksum_detects_changed_header_witness :
  IsCorrupted {| seqnum := 999999; acknum := NOTINUSE;
                 checksum := (nth_pkt sample_stream 0).(checksum);
                 payload := (nth_pkt sample_stream 0).(payload) |} = true.
Proof.
  apply (checksum_detects_changed_header (nth_pkt sample_stream 0) 999999);
    [vm_compute; reflexivity | lia | lia].
Defined.

(** X3: the checksum is blind to changes that keep the sum.  A packet with
    the checksum field of a packet that passes [IsCorrupted], the same sum
    of [seqnum] and [acknum] and the same twenty payload characters in any
    order, or any others of the same sum, passes [IsCorrupted] too. *)
Theorem checksum_blind_to_equal_sums (p q : pkt) :
  IsCorrupted p = false →
  q.(checksum) = p.(checksum) →
  q.(seqnum) + q.(acknum) = p.(seqnum) + p.(acknum) →
  (take 20 q.(payload) ≡ₚ take 20 p.(payload) ∨
   payload_sum (take 20 q.(payload)) = payload_sum (take 20 p.(payload))) →
  IsCorrupted q = false.
Proof.
  unfold IsCorrupted. intros Hgood Hfield Hheader Hpayload.
  destruct (decide (p.(checksum) = ComputeChecksum p)) as [Hsum|];
    [clear Hgood|done].
  rewrite decide_True; [done|].
  rewrite Hfield, Hsum, !ComputeChecksum_sum. f_equal.
  destruct Hpayload as [Hperm|Heq].
  - rewrite (payload_sum_Permutation _ _ Hperm). lia.
  - lia.
Qed.

Lemma checksum_blind_to_equal_sums_witness :
  compensated ≠ nth_pkt sample_stream 0 ∧ IsCorrupted compensated = false.
Proof.
  split; [discriminate|].
  apply (checksum_blind_to_equal_sums (nth_pkt sample_stream 0));
    [vm_compute; reflexivity | reflexivity | reflexivity
    | right; vm_compute; reflexivity].
Defined.

(** ** The sender runs within its arrays *)

Lemma Part000_A_input_total st packet :
  Part000.sender_wf st →
  IsCorrupted packet = true ∨ 0 ≤ packet.(acknum) →
  ∃ s out, Part000.A_input st packet = Some (s, out).
Proof.
  intros Hwf Hack. pose proof Hwf as (Hbase & Hlen & Hbuf).
  destruct (IsCorrupted packet) eqn:Hgood.
  { rewrite Part000_A_input_corrupted by done. by eauto. }
  destruct Hack as [?|Hack]; [done|].
  destruct (in_window st.(Part000.send_base) packet.(acknum)) eqn:Hwin.
  2:{ rewrite Part000_A_input_outside by done. by eauto. }
  destruct (lookup_lt_is_Some_2 st.(Part000.acked) (slot packet.(acknum)))
    as [a Ha].
  { pose proof (slot_lt packet.(acknum)). unfold WINDOWSIZE in Hlen. lia. }
  destruct a.
  { rewrite Part000_A_input_duplicate; [by eauto|done..|].
    by rewrite idx_lookup, rem_slot by modarith. }
  destruct (decide (packet.(acknum) = st.(Part000.send_base))) as [Heq|Hne].
  - rewrite Heq in Ha.
    destruct (Part000_A_input_base st packet Hwf Hgood Heq Ha)
      as (s & out & _ & Hrun & _). by eauto.
  - unfold Part000.A_input. rewrite Hgood, Hwin. cbn [negb].
    rewrite idx_lookup, rem_slot, Ha, mbind_Some by modarith.
    rewrite upd_in_range, mbind_Some by modarith.
    rewrite decide_False by done. by eauto.
Qed.

Lemma Sr_A_input_total st packet :
  Sr.sender_wf st →
  IsCorrupted packet = true ∨ 0 ≤ packet.(acknum) →
  ∃ s out, Sr.A_input st packet = Some (s, out).
Proof.
  intros Hwf Hack. pose proof Hwf as (Hbase & Hlen & Hbuf & Htim & Hwc).
  destruct (IsCorrupted packet) eqn:Hgood.
  { rewrite Sr_A_input_corrupted by done. by eauto. }
  destruct Hack as [?|Hack]; [done|].
  destruct (in_window st.(Sr.send_base) packet.(acknum)) eqn:Hwin.
  2:{ rewrite Sr_A_input_outside by done. by eauto. }
  destruct (lookup_lt_is_Some_2 st.(Sr.acked) (slot packet.(acknum)))
    as [a Ha].
  { pose proof (slot_lt packet.(acknum)). unfold WINDOWSIZE in Hlen. lia. }
  destruct a.
  { rewrite Sr_A_input_duplicate; [by eauto|done..|].
    by rewrite idx_lookup, rem_slot by modarith. }
  destruct (decide (packet.(acknum) = st.(Sr.send_base))) as [Heq|Hne].
  - rewrite Heq in Ha.
    destruct (Sr_A_input_base st packet Hwf Hgood Heq Ha)
      as (s & out & _ & Hrun & _). by eauto.
  - unfold Sr.A_input. rewrite Hgood, Hwin. cbn [negb].
    rewrite idx_lookup, rem_slot, Ha, mbind_Some by modarith.
    rewrite upd_in_range, mbind_Some by modarith.
    rewrite decide_False by done. rewrite mbind_Some. cbv beta iota.
    destruct (decide (st.(Sr.windowcount) > 0)); [|by eauto].
    rewrite length_insert.
    replace (length st.(Sr.acked)) with 6%nat
      by (unfold WINDOWSIZE in Hlen; lia).
    destruct (restart_timer_total
                (<[Z.to_nat (Z.rem packet.(acknum) WINDOWSIZE) := true]>
                   st.(Sr.acked))
                st.(Sr.send_base) st.(Sr.windowcount) st.(Sr.A_nextseqnum))
      as [t Ht]; [rewrite length_insert; unfold WINDOWSIZE in Hlen; lia
                 | lia | done |].
    rewrite Ht, mbind_Some. by eauto.
Qed.

Lemma Part000_step_bounds st ev s out :
  Part000.sender_wf st →
  0 ≤ st.(Part000.A_nextseqnum) < SEQSPACE →
  st.(Part000.windowcount) ≤ WINDOWSIZE →
  Part000.A_step st ev = Some (s, out) →
  Part000.sender_wf s ∧
  0 ≤ s.(Part000.A_nextseqnum) < SEQSPACE ∧
  s.(Part000.windowcount) ≤ WINDOWSIZE.
Proof.
  intros Hwf Hnext Hwc Hstep. pose proof Hwf as (Hbase & Hlen & Hbuf).
  destruct ev as [message|packet|]; cbn [Part000.A_step] in Hstep.
  - destruct (Part000_A_output_cases _ _ _ _ Hstep)
      as [[_ [c ->]]|(Hroom & Hi & Hacked & Hbuf' & Hb & Hn & Hw)];
      [done|].
    unfold Part000.sender_wf.
    rewrite Hacked, length_insert, Hbuf', Hb, Hn, Hw.
    split_and!; try done; modarith.
  - destruct (Part000_A_input_cases _ _ _ _ Hwf Hstep)
      as [[c ->]|[(Hgood & Hwin & Hne & Hi & Hacked & Hbuf' & Hb & Hn & Hw)
                 |(Hgood & Hack & Hwf' & Hn & _ & k & Hslid)]].
    + done.
    + unfold Part000.sender_wf.
      rewrite Hacked, length_insert, Hbuf', Hb, Hn, Hw. done.
    + rewrite Hn. destruct Hslid as (_ & _ & -> & _).
      split; [done|]. split; [done|]. lia.
  - apply Part000_A_timerinterrupt_window in Hstep
      as (Hacked & Hbuf' & Hb & Hn & Hw).
    unfold Part000.sender_wf. by rewrite Hacked, Hbuf', Hb, Hn, Hw.
Qed.

Lemma Part000_step_total st ev :
  Part000.sender_wf st →
  0 ≤ st.(Part000.A_nextseqnum) →
  match ev with
  | ev_input packet => IsCorrupted packet = true ∨ 0 ≤ packet.(acknum)
  | _ => True
  end →
  ∃ s out, Part000.A_step st ev = Some (s, out).
Proof.
  intros Hwf Hnext Hev. pose proof Hwf as (Hbase & Hlen & Hbuf).
  destruct ev as [message|packet|]; cbn [Part000.A_step].
  - unfold Part000.A_output. destruct (decide _); [|by eauto].
    cbv zeta. rewrite !upd_in_range, !mbind_Some by modarith. by eauto.
  - by apply Part000_A_input_total.
  - unfold Part000.A_timerinterrupt. cbv zeta.
    destruct (lookup_lt_is_Some_2 st.(Part000.acked)
                (slot st.(Part000.send_base))) as [a Ha].
    { pose proof (slot_lt st.(Part000.send_base)).
      unfold WINDOWSIZE in Hlen. lia. }
    destruct (lookup_lt_is_Some_2 st.(Part000.buffer)
                (slot st.(Part000.send_base))) as [p Hp].
    { pose proof (slot_lt st.(Part000.send_base)).
      unfold WINDOWSIZE in Hbuf. lia. }
    rewrite !idx_lookup, !rem_slot, Ha, Hp, mbind_Some by modarith.
    destruct a; cbn [negb]; [|rewrite mbind_Some]; by eauto.
Qed.

Lemma Sr_step_bounds st ev s out :
  Sr.sender_wf st →
  0 ≤ st.(Sr.A_nextseqnum) < SEQSPACE →
  Sr.A_step st ev = Some (s, out) →
  Sr.sender_wf s ∧ 0 ≤ s.(Sr.A_nextseqnum) < SEQSPACE.
Proof.
  intros Hwf Hnext Hstep.
  pose proof Hwf as (Hbase & Hlen & Hbuf & Htim & Hwc).
  destruct ev as [message|packet|]; cbn [Sr.A_step] in Hstep.
  - destruct (Sr_A_output_cases _ _ _ _ Hstep)
      as [[_ [c ->]]|(Hroom & Hi & Hacked & Hbuf' & Htim' & Hb & Hn & Hw)];
      [done|].
    unfold Sr.sender_wf.
    rewrite Hacked, length_insert, Hbuf', Htim', Hb, Hn, Hw.
    split_and!; try done; modarith.
  - destruct (Sr_A_input_cases _ _ _ _ Hwf Hstep)
      as [[c ->]|[(Hgood & Hwin & Hne & Hi & Hacked & Hbuf' & Htim' & Hb
                   & Hn & Hw)
                 |(Hgood & Hack & Hwf' & Hn & _ & k & Hslid)]].
    + done.
    + unfold Sr.sender_wf.
      rewrite Hacked, length_insert, Hbuf', Htim', Hb, Hn, Hw. done.
    + by rewrite Hn.
  - apply Sr_A_timerinterrupt_window in Hstep as [c ->]. done.
Qed.

Lemma Sr_step_total st ev :
  Sr.sender_wf st →
  0 ≤ st.(Sr.A_nextseqnum) →
  match ev with
  | ev_input packet => IsCorrupted packet = true ∨ 0 ≤ packet.(acknum)
  | _ => True
  end →
  ∃ s out, Sr.A_step st ev = Some (s, out).
Proof.
  intros Hwf Hnext Hev. pose proof Hwf as (Hbase & Hlen & Hbuf & Htim & Hwc).
  destruct ev as [message|packet|]; cbn [Sr.A_step].
  - unfold Sr.A_output. destruct (decide _); [|by eauto].
    cbv zeta. rewrite !upd_in_range, !mbind_Some by modarith. by eauto.
  - by apply Sr_A_input_total.
  - destruct (Sr_A_timerinterrupt_total st Hwf) as (s & out & Hrun & _).
    by eauto.
Qed.

Lemma Part000_run_safe evs st :
  Part000.sender_wf st →
  0 ≤ st.(Part000.A_nextseqnum) < SEQSPACE →
  st.(Part000.windowcount) ≤ WINDOWSIZE →
  acks_indexable evs →
  ∃ s out,
    Part000.A_run st evs = Some (s, out) ∧
    Part000.sender_wf s ∧
    0 ≤ s.(Part000.A_nextseqnum) < SEQSPACE ∧
    s.(Part000.windowcount) ≤ WINDOWSIZE.
Proof.
  revert st. induction evs as [|ev evs IH]; intros st Hwf Hnext Hwc Hevs.
  - by exists st, [].
  - apply Forall_cons in Hevs as [Hev Hevs].
    destruct (Part000_step_total st ev Hwf (proj1 Hnext) Hev)
      as (s1 & out1 & Hstep).
    destruct (Part000_step_bounds _ _ _ _ Hwf Hnext Hwc Hstep)
      as (Hwf1 & Hnext1 & Hwc1).
    destruct (IH s1 Hwf1 Hnext1 Hwc1 Hevs) as (s & out & Hrun & Hs).
    exists s, (out1 ++ out). split; [|done].
    cbn [Part000.A_run]. rewrite Hstep, mbind_Some. cbv beta iota.
    by rewrite Hrun, mbind_Some.
Qed.

Lemma Sr_run_safe evs st :
  Sr.sender_wf st →
  0 ≤ st.(Sr.A_nextseqnum) < SEQSPACE →
  acks_indexable evs →
  ∃ s out,
    Sr.A_run st evs = Some (s, out) ∧
    Sr.sender_wf s ∧
    0 ≤ s.(Sr.A_nextseqnum) < SEQSPACE.
Proof.
  revert st. induction evs as [|ev evs IH]; intros st Hwf Hnext Hevs.
  - by exists st, [].
  - apply Forall_cons in Hevs as [Hev Hevs].
    destruct (Sr_step_total st ev Hwf (proj1 Hnext) Hev)
      as (s1 & out1 & Hstep).
    destruct (Sr_step_bounds _ _ _ _ Hwf Hnext Hstep) as (Hwf1 & Hnext1).
    destruct (IH s1 Hwf1 Hnext1 Hevs) as (s & out & Hrun & Hs).
    exists s, (out1 ++ out). split; [|done].
    cbn [Sr.A_run]. rewrite Hstep, mbind_Some. cbv beta iota.
    by rewrite Hrun, mbind_Some.
Qed.

(** X4: the sender stays within its arrays.  Whatever calls of [A_output],
    [A_input] and [A_timerinterrupt] follow [A_init], as long as every
    acknowledgment that passes the checksum has an [acknum] that is not
    negative, every call returns: no index leaves [buffer], [acked] or
    [timer_ids], and the loops end.  In the state reached the arrays have
    [WINDOWSIZE] entries, [send_base] and [A_nextseqnum] are sequence
    numbers, and [windowcount] is at most [WINDOWSIZE].  Stated for [sr.c]
    and for the sibling draft. *)
Theorem sender_stays_within_bounds (evs : list A_event) :
  acks_indexable evs →
  (∃ st out,
     Sr.A_run Sr.A_init evs = Some (st, out) ∧
     Sr.sender_wf st ∧
     0 ≤ st.(Sr.A_nextseqnum) < SEQSPACE) ∧
  (∃ st out,
     Part000.A_run Part000.A_init evs = Some (st, out) ∧
     Part000.sender_wf st ∧
     0 ≤ st.(Part000.A_nextseqnum) < SEQSPACE ∧
     st.(Part000.windowcount) ≤ WINDOWSIZE).
Proof.
  intros Hevs. split.
  - apply Sr_run_safe; [by_evaluation | done | done].
  - apply Part000_run_safe; [by_evaluation | done | done | done].
Qed.

Lemma sender_stays_within_bounds_witness :
  (∃ st out,
     Sr.A_run Sr.A_init wrapped_run = Some (st, out) ∧ Sr.sender_wf st) ∧
  (∃ st out,
     Part000.A_run Part000.A_init wrapped_run = Some (st, out) ∧
     Part000.sender_wf st).
Proof.
  destruct (sender_stays_within_bounds wrapped_run)
    as [(st & out & Hrun & Hwf & _) (st' & out' & Hrun' & Hwf' & _)].
  - unfold wrapped_run.
    repeat (apply Forall_cons; split;
            [first [exact I | right; by_evaluation]|]).
    exact (Forall_nil_2 _).
  - split.
    + exists st, out. exact (conj Hrun Hwf).
    + exists st', out'. exact (conj Hrun' Hwf').
Defined.

(** ** Negative numbers in packets that pass the checksum *)




(** ** The window variables of [sr.c] *)

Lemma Sr_step_window_inv st ev s out :
  Sr.sender_wf st →
  window_inv st.(Sr.acked) st.(Sr.send_base)
             st.(Sr.A_nextseqnum) st.(Sr.windowcount) →
  match ev with ev_input packet => ack_typed packet | _ => True end →
  Sr.A_step st ev = Some (s, out) →
  Sr.sender_wf s ∧
  window_inv s.(Sr.acked) s.(Sr.send_base)
             s.(Sr.A_nextseqnum) s.(Sr.windowcount).
Proof.
  intros Hwf Hinv Htyped Hstep.
  pose proof Hwf as (Hbase & Hlen & Hbuf & Htim & Hwc).
  destruct (Sr_step_bounds st ev s out Hwf) as [Hwf' _];
    [by destruct Hinv as (_ & ? & _) | done |].
  split; [done|].
  destruct ev as [message|packet|]; cbn [Sr.A_step] in Hstep.
  - destruct (Sr_A_output_cases _ _ _ _ Hstep)
      as [[_ [c ->]]|(_ & Hi & Hacked & Hbuf' & Htim' & Hb & Hn & Hw)];
      [done|].
    rewrite Hacked, Hb, Hn, Hw. by apply window_inv_output.
  - destruct (Sr_A_input_cases _ _ _ _ Hwf Hstep)
      as [[c ->]|[(Hgood & Hwin & Hne & Hi & Hacked & Hbuf' & Htim' & Hb
                   & Hn & Hw)
                 |(Hgood & Hack & _ & Hn & _ & k & Hslid)]].
    + done.
    + assert (0 ≤ packet.(acknum) < SEQSPACE) as Ha.
      { destruct Htyped as [Hbad|[Hrange|Hunused]];
          [congruence | done | rewrite Hunused in Hi; modarith]. }
      rewrite Hacked, Hb, Hn, Hw. by apply window_inv_mark.
    + rewrite Hn. eapply window_inv_slid; [exact Hinv| |exact Hslid].
      destruct Hwf' as (_ & Hl & _). unfold WINDOWSIZE in Hl. lia.
  - apply Sr_A_timerinterrupt_window in Hstep as [c ->]. done.
Qed.

Lemma Sr_run_window_inv evs st s out :
  Sr.sender_wf st →
  window_inv st.(Sr.acked) st.(Sr.send_base)
             st.(Sr.A_nextseqnum) st.(Sr.windowcount) →
  acks_typed evs →
  Sr.A_run st evs = Some (s, out) →
  Sr.sender_wf s ∧
  window_inv s.(Sr.acked) s.(Sr.send_base)
             s.(Sr.A_nextseqnum) s.(Sr.windowcount).
Proof.
  revert st out.
  induction evs as [|ev evs IH]; intros st out Hwf Hinv Htyped Hrun.
  - cbn in Hrun. by simplify_eq.
  - cbn [Sr.A_run] in Hrun. run_inv Hrun.
    apply Forall_cons in Htyped as [Hev Htyped].
    match goal with H : Sr.A_step _ _ = Some _ |- _ =>
      destruct (Sr_step_window_inv _ _ _ _ Hwf Hinv Hev H) end.
    simplify_eq. eapply IH; [| | |eassumption]; done.
Qed.

Lemma Sr_init_window_inv :
  Sr.sender_wf Sr.A_init ∧
  window_inv Sr.A_init.(Sr.acked) Sr.A_init.(Sr.send_base)
             Sr.A_init.(Sr.A_nextseqnum) Sr.A_init.(Sr.windowcount).
Proof.
  split; [by_evaluation|]. unfold window_inv. cbn.
  split_and!; [done..|]. lia.
Qed.

(** X6: the window variables stay consistent.  In every state that the
    sender reaches from [A_init] through calls of [A_output], [A_input] and
    [A_timerinterrupt] (acknowledgments typed as in section 3, or rejected
    by the checksum), [A_nextseqnum] is [send_base + windowcount] modulo
    [SEQSPACE]; this holds for [sr.c] and for the sibling draft.  In
    [sr.c], moreover, [windowcount > 0] implies that
    [acked[send_base % WINDOWSIZE]] is false. *)
Theorem window_variables_consistent
    (evs evs' : list A_event) (st : Sr.sender) (st' : Part000.sender)
    (out out' : list event) :
  acks_typed evs → acks_typed evs' →
  Sr.A_run Sr.A_init evs = Some (st, out) →
  Part000.A_run Part000.A_init evs' = Some (st', out') →
  st.(Sr.A_nextseqnum)
    = (st.(Sr.send_base) + st.(Sr.windowcount)) `mod` SEQSPACE ∧
  (st.(Sr.windowcount) > 0 →
   idx st.(Sr.acked) (Z.rem st.(Sr.send_base) WINDOWSIZE) = Some false) ∧
  st'.(Part000.A_nextseqnum)
    = (st'.(Part000.send_base) + st'.(Part000.windowcount)) `mod` SEQSPACE.
Proof.
  intros Htyped Htyped' Hrun Hrun'.
  destruct Sr_init_window_inv as [Hwf0 Hinv0].
  destruct (Sr_run_window_inv _ _ _ _ Hwf0 Hinv0 Htyped Hrun)
    as [_ (Hbase & Hnext & _ & Hcong & Hflag)].
  destruct Part000_init_window_inv as [Hwf0' Hinv0'].
  destruct (Part000_run_window_inv _ _ _ _ Hwf0' Hinv0' Htyped' Hrun')
    as [_ (Hbase' & Hnext' & _ & Hcong' & _)].
  split; [modarith|]. split; [|modarith].
  intros Hpos. rewrite idx_lookup, rem_slot by modarith. by apply Hflag.
Qed.

Lemma window_variables_consistent_witness :
  Sr_wrapped.(Sr.A_nextseqnum)
    = (Sr_wrapped.(Sr.send_base) + Sr_wrapped.(Sr.windowcount))
        `mod` SEQSPACE ∧
  Part000_wrapped.(Part000.A_nextseqnum)
    = (Part000_wrapped.(Part000.send_base)
       + Part000_wrapped.(Part000.windowcount)) `mod` SEQSPACE.
Proof.
  edestruct (window_variables_consistent wrapped_run wrapped_run)
    as (Hsr & _ & Hpart);
    [| |vm_compute; reflexivity|vm_compute; reflexivity
     |exact (conj Hsr Hpart)].
  - unfold wrapped_run.
    repeat (apply Forall_cons; split;
            [first [exact I | right; left; by_evaluation]|]).
    exact (Forall_nil_2 _).
  - unfold wrapped_run.
    repeat (apply Forall_cons; split;
            [first [exact I | right; left; by_evaluation]|]).
    exact (Forall_nil_2 _).
Defined.

(** ** The timer of the sibling draft *)

(** What [A_input] does, with the calls it makes. *)
Lemma Part000_A_input_trace st packet s out :
  Part000.sender_wf st →
  Part000.A_input st packet = Some (s, out) →
  (out = [] ∧
   s.(Part000.timer_running) = st.(Part000.timer_running) ∧
   s.(Part000.windowcount) = st.(Part000.windowcount) ∧
   s.(Part000.send_base) = st.(Part000.send_base)) ∨
  (IsCorrupted packet = false ∧
   packet.(acknum) = st.(Part000.send_base) ∧
   st.(Part000.acked) !! slot st.(Part000.send_base) = Some false ∧
   out = stoptimer A ::
         (if bool_decide (s.(Part000.windowcount) > 0)
          then [starttimer A RTT] else []) ∧
   s.(Part000.timer_running) = bool_decide (s.(Part000.windowcount) > 0)).
Proof.
  intros (Hbase & Hlen & Hbuf) Hrun. unfold Part000.A_input in Hrun.
  destruct (IsCorrupted packet) eqn:Hgood; cbn [negb] in Hrun;
    [left; by simplify_eq|].
  destruct (in_window _ _) eqn:Hwin; [|left; by simplify_eq].
  apply bind_Some in Hrun as (a & Ha & Hrun).
  destruct a; [left; by simplify_eq|].
  apply bind_Some in Hrun as (flags & Hflags & Hrun).
  destruct (decide (packet.(acknum) = st.(Part000.send_base))) as [Heq|Hne].
  - right. apply bind_Some in Hrun as ([[flags' base'] wc'] & Hslide & Hrun).
    simplify_eq. cbn [Part000.windowcount Part000.timer_running].
    split; [done|]. split; [done|]. split; [|done].
    apply idx_Some in Ha as [Hi Ha]. by rewrite Heq, rem_slot in Ha by lia.
  - left. by simplify_eq.
Qed.

Lemma Part000_step_starts st ev s out (running : bool) :
  Part000.sender_wf st →
  Part000.A_step st ev = Some (s, out) →
  (running = true → st.(Part000.timer_running) = true) →
  ∃ running',
    timer_after false
      (match ev with ev_timerinterrupt => false | _ => running end) out
      = Some running' ∧
    (running' = true → s.(Part000.timer_running) = true).
Proof.
  intros Hwf Hstep Hflag.
  destruct ev as [message|packet|]; cbn [Part000.A_step] in Hstep.
  - unfold Part000.A_output in Hstep. run_inv Hstep; simplify_eq.
    + cbn [Part000.timer_running].
      destruct (bool_decide _), st.(Part000.timer_running), running;
        try (by specialize (Hflag eq_refl));
        cbn; eexists; by split.
    + exists running. by split.
  - destruct (Part000_A_input_trace _ _ _ _ Hwf Hstep)
      as [(-> & Hrun & _)|(_ & _ & _ & -> & ->)].
    + exists running. rewrite Hrun. by split.
    + destruct (bool_decide _), running; cbn; eexists; by split.
  - unfold Part000.A_timerinterrupt in Hstep. run_inv Hstep; simplify_eq.
    + exists true. by split.
    + exists false. by split.
Qed.

(** X7: the sibling draft never starts a timer that runs.  Put beside a
    timer that is started by [starttimer], stopped by [stoptimer] and has
    gone off when [A_timerinterrupt] is entered, the handlers of the sender
    call [starttimer] only while the timer does not run, whatever calls of
    [A_output], [A_input] and [A_timerinterrupt] follow [A_init] (every
    acknowledgment that passes the checksum having an [acknum] that is not
    negative, so that the calls return). *)
Theorem Part000_starts_timer_in_turn (evs : list A_event) :
  acks_indexable evs →
  ∃ st running,
    timer_run Part000.A_step false Part000.A_init false evs
      = Some (st, running).
Proof.
  assert (∀ st running,
            Part000.sender_wf st →
            0 ≤ st.(Part000.A_nextseqnum) < SEQSPACE →
            st.(Part000.windowcount) ≤ WINDOWSIZE →
            (running = true → st.(Part000.timer_running) = true) →
            acks_indexable evs →
            ∃ s r, timer_run Part000.A_step false st running evs
                   = Some (s, r)) as Hgen.
  { induction evs as [|ev evs IH];
      intros st running Hwf Hnext Hwc Hflag Hevs; [by eexists _, _|].
    apply Forall_cons in Hevs as [Hev Hevs].
    destruct (Part000_step_total st ev Hwf (proj1 Hnext) Hev)
      as (s1 & out1 & Hstep).
    destruct (Part000_step_bounds _ _ _ _ Hwf Hnext Hwc Hstep)
      as (Hwf1 & Hnext1 & Hwc1).
    destruct (Part000_step_starts _ _ _ _ running Hwf Hstep Hflag)
      as (r1 & Hr1 & Hflag1).
    cbn [timer_run]. rewrite Hstep, mbind_Some. cbv beta iota.
    rewrite Hr1, mbind_Some. by apply IH. }
  intros Hevs. apply Hgen; [by_evaluation | done | done | done | done].
Qed.

Lemma Part000_starts_timer_in_turn_witness :
  ∃ st running,
    timer_run Part000.A_step false Part000.A_init false wrapped_run
      = Some (st, running).
Proof.
  apply (Part000_starts_timer_in_turn wrapped_run). unfold wrapped_run.
  repeat (apply Forall_cons; split;
          [first [exact I | right; by_evaluation]|]).
  exact (Forall_nil_2 _).
Defined.

Lemma acks_numbered_typed evs : acks_numbered evs → acks_typed evs.
Proof.
  intros Hevs. eapply Forall_impl; [exact Hevs|].
  intros [message|packet|]; [done| |done].
  intros [Hbad|Hrange]; [by left|right; by left].
Qed.

Lemma acks_numbered_indexable evs : acks_numbered evs → acks_indexable evs.
Proof.
  intros Hevs. eapply Forall_impl; [exact Hevs|].
  intros [message|packet|]; [done| |done].
  intros [Hbad|Hrange]; [by left|right; lia].
Qed.

Lemma Part000_step_timer_tracks st ev s out (running : bool) :
  Part000.sender_wf st →
  window_inv st.(Part000.acked) st.(Part000.send_base)
             st.(Part000.A_nextseqnum) st.(Part000.windowcount) →
  0 ≤ st.(Part000.windowcount) →
  st.(Part000.timer_running) = running →
  running = bool_decide (st.(Part000.windowcount) > 0) →
  match ev with
  | ev_input packet =>
      ack_for_sent st.(Part000.send_base) st.(Part000.windowcount) packet
        = true
  | _ => True
  end →
  (ev = ev_timerinterrupt → running = true) →
  Part000.A_step st ev = Some (s, out) →
  ∃ running',
    timer_after true
      (match ev with ev_timerinterrupt => false | _ => running end) out
      = Some running' ∧
    s.(Part000.timer_running) = running' ∧
    running' = bool_decide (s.(Part000.windowcount) > 0).
Proof.
  intros Hwf Hinv Hcount Hflag Hrunning Hsent Hdue Hstep.
  pose proof Hwf as (Hbase & Hlen & Hbuf).
  destruct ev as [message|packet|]; cbn [Part000.A_step] in Hstep.
  - unfold Part000.A_output in Hstep. run_inv Hstep; simplify_eq.
    + cbn [Part000.timer_running Part000.windowcount].
      rewrite (bool_decide_true (_ + 1 > 0)) by lia.
      destruct (decide (st.(Part000.windowcount) = 0)) as [Hz|Hnz].
      * rewrite Hz in *. rewrite bool_decide_true by done.
        rewrite Hrunning, bool_decide_false by lia.
        exists true. by split.
      * rewrite bool_decide_false by done.
        rewrite bool_decide_true in Hrunning by lia. rewrite Hrunning.
        exists true. by split.
    + exists st.(Part000.timer_running). by split.
  - destruct (Part000_A_input_trace _ _ _ _ Hwf Hstep)
      as [(-> & Hrun & Hw & _)|(Hgood & Hack & _ & -> & Hrun)].
    + exists running. rewrite Hrun, Hw. by split.
    + pose proof (ack_for_sent_base _ _ _ Hbase Hsent Hgood Hack) as Hpos.
      rewrite bool_decide_true in Hrunning by lia. rewrite Hrunning, Hrun.
      destruct (bool_decide _); cbn; eexists; by split.
  - specialize (Hdue eq_refl). rewrite Hdue in Hrunning.
    symmetry in Hrunning. apply bool_decide_eq_true in Hrunning.
    destruct Hinv as (_ & _ & _ & _ & Hunacked).
    specialize (Hunacked Hrunning).
    destruct (lookup_lt_is_Some_2 st.(Part000.buffer)
                (slot st.(Part000.send_base))) as [p Hp].
    { pose proof (slot_lt st.(Part000.send_base)).
      unfold WINDOWSIZE in Hbuf. lia. }
    rewrite (Part000_timerinterrupt_base st p) in Hstep by (done || lia).
    simplify_eq. cbn [Part000.timer_running Part000.windowcount].
    exists true. split; [done|]. split; [done|].
    by rewrite bool_decide_true.
Qed.

(** X8: in the sibling draft the timer runs exactly while packets are
    outstanding.  Beside a timer that is started by [starttimer], stopped by
    [stoptimer] and goes off only while it runs, and with acknowledgments
    that pass the checksum only for sequence numbers and, inside the
    window, only for outstanding packets: after any calls of [A_output],
    [A_input] and [A_timerinterrupt] that follow [A_init], every
    [starttimer] found the timer stopped, every [stoptimer] found it
    running, the timer runs if and only if [windowcount > 0], and
    [timer_running] says so. *)
Theorem Part000_timer_tracks_window (evs : list A_event) :
  acks_numbered evs →
  Part000.acks_for_sent Part000.A_init evs →
  interrupts_due Part000.A_step true Part000.A_init false evs →
  ∃ st running,
    timer_run Part000.A_step true Part000.A_init false evs
      = Some (st, running) ∧
    running = bool_decide (st.(Part000.windowcount) > 0) ∧
    st.(Part000.timer_running) = running.
Proof.
  assert (∀ st running,
            Part000.sender_wf st →
            window_inv st.(Part000.acked) st.(Part000.send_base)
                       st.(Part000.A_nextseqnum) st.(Part000.windowcount) →
            0 ≤ st.(Part000.windowcount) ≤ WINDOWSIZE →
            st.(Part000.timer_running) = running →
            running = bool_decide (st.(Part000.windowcount) > 0) →
            acks_numbered evs →
            Part000.acks_for_sent st evs →
            interrupts_due Part000.A_step true st running evs →
            ∃ s r, timer_run Part000.A_step true st running evs
                   = Some (s, r) ∧
                   r = bool_decide (s.(Part000.windowcount) > 0) ∧
                   s.(Part000.timer_running) = r) as Hgen.
  { induction evs as [|ev evs IH];
      intros st running Hwf Hinv Hcount Hflag Hrunning Hevs Hsent Hdue;
      [by eexists _, _|].
    apply Forall_cons in Hevs as [Hev Hevs].
    cbn [Part000.acks_for_sent] in Hsent. destruct Hsent as [Hsent1 Hsent].
    cbn [interrupts_due] in Hdue. destruct Hdue as [Hdue1 Hdue].
    destruct (Part000_step_total st ev Hwf) as (s1 & out1 & Hstep).
    { by destruct Hinv as (_ & [? _] & _). }
    { destruct ev as [message|packet|]; [done| |done].
      destruct Hev as [?|?]; [by left|right; lia]. }
    rewrite Hstep in Hsent, Hdue.
    assert (match ev with
            | ev_input packet => ack_typed packet
            | _ => True
            end) as Htyped.
    { destruct ev as [message|packet|]; [done| |done].
      destruct Hev as [?|?]; [by left|right; by left]. }
    destruct (Part000_step_window_inv _ _ _ _ Hwf Hinv Htyped Hstep)
      as [Hwf1 Hinv1].
    destruct (Part000_step_count _ _ _ _ Hwf Hcount Hsent1 Hstep)
      as [_ Hcount1].
    destruct (Part000_step_timer_tracks _ _ _ _ running Hwf Hinv
                (proj1 Hcount) Hflag Hrunning Hsent1 Hdue1 Hstep)
      as (r1 & Hr1 & Hflag1 & Hrunning1).
    rewrite Hr1 in Hdue.
    cbn [timer_run]. rewrite Hstep, mbind_Some. cbv beta iota.
    rewrite Hr1, mbind_Some. by apply IH. }
  intros Hevs Hsent Hdue.
  destruct Part000_init_window_inv as [Hwf0 Hinv0].
  by apply Hgen.
Qed.

Lemma Part000_timer_tracks_window_witness :
  ∃ st running,
    timer_run Part000.A_step true Part000.A_init false timed_run
      = Some (st, running) ∧
    running = bool_decide (st.(Part000.windowcount) > 0) ∧
    st.(Part000.timer_running) = running.
Proof.
  apply (Part000_timer_tracks_window timed_run).
  - unfold timed_run.
    repeat (apply Forall_cons; split;
            [first [exact I | right; by_evaluation]|]).
    exact (Forall_nil_2 _).
  - vm_compute. repeat split.
  - vm_compute.
    repeat split; intros; first [reflexivity | discriminate].
Defined.

(** ** The receiver, call by call *)

(** What the delivery loop does, told by the number [k] of slots it
    advances over: these [k] slots, from the base on, were set and are
    cleared, their packets [qs] go to layer 5 in this order, no other flag
    changes, and the slot of the new base is not set. *)
Lemma deliver_run fuel buf flags base :
  0 ≤ base < SEQSPACE → length flags = 6%nat → length buf = 6%nat →
  (count_set flags < fuel)%nat →
  ∃ (k : nat) flags' qs,
    deliver fuel buf flags base
      = Some (flags', (base + Z.of_nat k) `mod` SEQSPACE,
              tolayer5 B <$> (payload <$> qs)) ∧
    length flags' = 6%nat ∧
    length qs = k ∧
    (k ≤ count_set flags)%nat ∧
    (∀ j, (j < k)%nat →
       flags !! slot (base + Z.of_nat j) = Some true ∧
       flags' !! slot (base + Z.of_nat j) = Some false ∧
       qs !! j = buf !! slot (base + Z.of_nat j)) ∧
    (∀ i, (∀ j, (j < k)%nat → i ≠ slot (base + Z.of_nat j)) →
       flags' !! i = flags !! i) ∧
    flags' !! slot (base + Z.of_nat k) = Some false.
Proof.
  intros Hbase Hlen Hbuf. revert flags base Hbase Hlen.
  induction fuel as [|fuel IH]; intros flags base Hbase Hlen Hfuel; [lia|].
  cbn [deliver]. rewrite !idx_lookup, !rem_slot by modarith.
  destruct (flags_lookup flags base Hlen) as [[] Hflag];
    rewrite Hflag, mbind_Some.
  - destruct (lookup_lt_is_Some_2 buf (slot base)) as [p Hp].
    { pose proof (slot_lt base). lia. }
    rewrite Hp, mbind_Some.
    rewrite upd_in_range, rem_slot, mbind_Some by modarith.
    set (flags1 := <[slot base := false]> flags).
    assert (length flags1 = 6%nat) as Hlen1
      by (unfold flags1; by rewrite length_insert).
    assert (flags1 !! slot base = Some false) as Hcleared.
    { unfold flags1. apply list_lookup_insert_eq.
      pose proof (slot_lt base). lia. }
    pose proof (count_set_clear flags _ Hflag) as Hcount.
    fold flags1 in Hcount.
    destruct (IH flags1 (Z.rem (base + 1) SEQSPACE))
      as (k & flags' & qs & Hrun & Hlen' & Hqs & Hk & Hset & Hother & Hstop);
      [modarith | done | lia |].
    rewrite Hrun, mbind_Some. cbv beta iota.
    rewrite Z.rem_mod_nonneg in * by modarith.
    assert (∀ j, (j < k)%nat → slot base ≠ slot (base + Z.of_nat (S j)))
      as Hfresh.
    { intros j Hj Heq. destruct (Hset j Hj) as [Hs _].
      rewrite slot_succ_seqspace, <- Heq, Hcleared in Hs. done. }
    exists (S k), flags', (p :: qs). split_and!.
    + replace ((base + Z.of_nat (S k)) `mod` SEQSPACE)
        with (((base + 1) `mod` SEQSPACE + Z.of_nat k) `mod` SEQSPACE)
        by modarith.
      done.
    + done.
    + cbn. by rewrite Hqs.
    + lia.
    + intros [|j] Hj.
      * rewrite Z.add_0_r. split; [done|]. split; [|by rewrite Hp].
        rewrite Hother; [done|]. intros j' Hj'.
        rewrite slot_succ_seqspace. by apply Hfresh.
      * destruct (Hset j ltac:(lia)) as (Hs & Hclr & Hq).
        rewrite slot_succ_seqspace in Hs, Hclr, Hq.
        split; [|by split].
        unfold flags1 in Hs.
        rewrite list_lookup_insert_ne in Hs; [done|]. apply Hfresh. lia.
    + intros i Hi. rewrite Hother.
      * unfold flags1. apply list_lookup_insert_ne.
        intros <-. apply (Hi 0%nat); [lia|]. by rewrite Z.add_0_r.
      * intros j Hj. rewrite slot_succ_seqspace. apply Hi. lia.
    + by rewrite slot_succ_seqspace in Hstop.
  - exists 0%nat, flags, []. cbn [Z.of_nat fmap list_fmap length].
    rewrite Z.add_0_r, Z.mod_small by done.
    split_and!; [done | done | done | lia | intros j Hj; lia | done | done].
Qed.

(** The receiving half of [B_input] on a packet that passes the checksum
    and falls into the window: the packet is stored, and if it is the one
    the base waits for, the delivery loop runs over [k] slots, at least
    one. *)
Lemma B_accept_run st packet :
  receiver_wf st → IsCorrupted packet = false →
  0 ≤ packet.(seqnum) →
  in_window st.(rcv_base) packet.(seqnum) = true →
  ∃ (k : nat) flags' qs,
    B_accept st packet
      = Some ({| B_nextseqnum := st.(B_nextseqnum);
                 rcv_buffer := <[slot packet.(seqnum) := packet]> st.(rcv_buffer);
                 rcv_acked := flags';
                 rcv_base := (st.(rcv_base) + Z.of_nat k) `mod` SEQSPACE;
                 packets_received := st.(packets_received) + 1 |},
              tolayer5 B <$> (payload <$> qs), packet.(seqnum)) ∧
    length flags' = 6%nat ∧ length qs = k ∧ (k ≤ 6)%nat ∧
    (∀ j, (j < k)%nat →
       <[slot packet.(seqnum) := true]> st.(rcv_acked)
         !! slot (st.(rcv_base) + Z.of_nat j) = Some true ∧
       flags' !! slot (st.(rcv_base) + Z.of_nat j) = Some false ∧
       qs !! j = <[slot packet.(seqnum) := packet]> st.(rcv_buffer)
                   !! slot (st.(rcv_base) + Z.of_nat j)) ∧
    (∀ i, (∀ j, (j < k)%nat → i ≠ slot (st.(rcv_base) + Z.of_nat j)) →
       flags' !! i = <[slot packet.(seqnum) := true]> st.(rcv_acked) !! i) ∧
    (packet.(seqnum) = st.(rcv_base) →
     (1 ≤ k)%nat ∧
     flags' !! slot (st.(rcv_base) + Z.of_nat k) = Some false) ∧
    (packet.(seqnum) ≠ st.(rcv_base) → k = 0%nat).
Proof.
  intros (Hbase & Hlen & Hbuf) Hgood Hseq Hwin.
  unfold B_accept. rewrite Hgood, Hwin. cbn [negb]. cbv zeta.
  rewrite !upd_in_range, !mbind_Some, !rem_slot by modarith.
  set (flags1 := <[slot packet.(seqnum) := true]> st.(rcv_acked)).
  set (buf1 := <[slot packet.(seqnum) := packet]> st.(rcv_buffer)).
  assert (length flags1 = 6%nat) as Hlen1
    by (unfold flags1; by rewrite length_insert).
  assert (length buf1 = 6%nat) as Hbuf1
    by (unfold buf1; by rewrite length_insert).
  destruct (decide (packet.(seqnum) = st.(rcv_base))) as [Heq|Hne].
  - destruct (deliver_run (S (length flags1)) buf1 flags1 st.(rcv_base))
      as (k & flags' & qs & Hrun & Hlen' & Hqs & Hk & Hset & Hother & Hstop);
      [done | done | done | pose proof (count_set_le_length flags1); lia |].
    rewrite Hrun, mbind_Some. cbv beta iota.
    pose proof (count_set_le_length flags1).
    exists k, flags', qs. split_and!; try done; try lia.
    intros _. split; [|done]. destruct k as [|k]; [|lia]. exfalso.
      change (Z.of_nat 0) with 0 in Hstop. rewrite Z.add_0_r in Hstop.
      rewrite Hother in Hstop by (intros j Hj; lia).
    unfold flags1 in Hstop. rewrite Heq in Hstop.
    rewrite list_lookup_insert_eq in Hstop; [done|].
    pose proof (slot_lt st.(rcv_base)). lia.
  - rewrite mbind_Some. cbv beta iota.
    exists 0%nat, flags1, []. cbn [Z.of_nat fmap list_fmap length].
    rewrite Z.add_0_r, Z.mod_small by done.
    split_and!; try done; try lia; intros j Hj; lia.
Qed.

Lemma B_accept_outside st packet :
  IsCorrupted packet = false →
  in_window st.(rcv_base) packet.(seqnum) = false →
  B_accept st packet = Some (st, [], packet.(seqnum)).
Proof. intros Hgood Hwin. unfold B_accept. by rewrite Hgood, Hwin. Qed.

Lemma B_accept_total st packet :
  receiver_wf st → IsCorrupted packet = false → 0 ≤ packet.(seqnum) →
  ∃ s out,
    B_accept st packet = Some (s, out, packet.(seqnum)) ∧
    only_deliveries out ∧
    s.(B_nextseqnum) = st.(B_nextseqnum) ∧
    receiver_wf s.
Proof.
  intros Hwf Hgood Hseq.
  destruct (in_window st.(rcv_base) packet.(seqnum)) eqn:Hwin.
  - destruct (B_accept_run st packet Hwf Hgood Hseq Hwin)
      as (k & flags' & qs & Hrun & Hlen' & _).
    eexists _, _. split; [exact Hrun|].
    split; [by eapply B_accept_only_deliveries|]. split; [done|].
    destruct Hwf as (Hbase & Hlen & Hbuf). unfold receiver_wf.
    cbn [rcv_base rcv_acked rcv_buffer]. rewrite length_insert.
    split_and!; [modarith.. | done | done].
  - rewrite B_accept_outside by done. eexists _, _.
    split; [done|]. split; [constructor|]. done.
Qed.

(** X9: every packet that passes the checksum is acknowledged by its own
    sequence number, inside the window or outside.  On a receiver whose
    arrays have [WINDOWSIZE] entries and whose base is a sequence number,
    [B_input] returns for every such packet with a [seqnum] that is not
    negative; what it hands to layer 3 carries [acknum = packet.seqnum],
    the value of [B_nextseqnum] as [seqnum] and a checksum that
    [IsCorrupted] accepts; [B_nextseqnum] alternates between 0 and 1.  The
    sibling draft sends one such packet, with a payload of twenty ['0'];
    in [sr.c] this holds of each packet sent. *)
Theorem B_input_acknowledges_by_seqnum
    (st : receiver) (packet : pkt) (junk : list ascii) :
  receiver_wf st → IsCorrupted packet = false → 0 ≤ packet.(seqnum) →
  length junk = 20%nat →
  (∃ s out ack,
     Part000.B_input st packet = Some (s, out ++ [tolayer3 B ack]) ∧
     only_deliveries out ∧
     ack.(acknum) = packet.(seqnum) ∧
     ack.(seqnum) = st.(B_nextseqnum) ∧
     ack.(payload) = replicate 20 "0"%char ∧
     IsCorrupted ack = false ∧
     s.(B_nextseqnum) = Z.rem (st.(B_nextseqnum) + 1) 2 ∧
     receiver_wf s) ∧
  (∃ s out acks,
     Sr.B_input st packet junk = Some (s, out ++ (tolayer3 B <$> acks)) ∧
     only_deliveries out ∧
     Forall (λ ack, ack.(acknum) = packet.(seqnum) ∧
                    ack.(seqnum) = st.(B_nextseqnum) ∧
                    IsCorrupted ack = false) acks ∧
     s.(B_nextseqnum) = Z.rem (st.(B_nextseqnum) + 1) 2 ∧
     receiver_wf s).
Proof.
  intros Hwf Hgood Hseq Hjunk.
  destruct (B_accept_total st packet Hwf Hgood Hseq)
    as (s & out & Hrun & Hout & Hnext & Hwf').
  split.
  - unfold Part000.B_input. rewrite Hrun, mbind_Some. cbv beta iota zeta.
    eexists _, out, _. split; [reflexivity|].
    cbn [acknum seqnum payload B_nextseqnum].
    split_and!; try done; [apply stamped_not_corrupted | by rewrite Hnext].
  - unfold Sr.B_input. rewrite Hrun, mbind_Some. cbv beta iota zeta.
    match goal with |- context [Sr.fill_and_send 20 0 ?p] =>
      destruct (fill_and_send_total 20 0 p) as [sent Hsent];
        [lia | cbn [payload]; lia |];
      rewrite Hsent, mbind_Some;
      apply fill_and_send_spec in Hsent as (acks & -> & _ & Hall)
    end.
    eexists _, out, acks. split; [reflexivity|].
    cbn [acknum seqnum B_nextseqnum] in *.
    split_and!; try done; [|by rewrite Hnext].
    eapply Forall_impl; [exact Hall|]. intros ack (? & ? & ?).
    split_and!; congruence.
Qed.

Lemma B_input_acknowledges_by_seqnum_witness :
  (∃ s out ack,
     Part000.B_input Part000_rcv_wrapped (nth_pkt sample_stream 2)
       = Some (s, out ++ [tolayer3 B ack]) ∧
     ack.(acknum) = 2) ∧
  (∃ s out acks,
     Sr.B_input Part000_rcv_wrapped (nth_pkt sample_stream 2) sample_junk
       = Some (s, out ++ (tolayer3 B <$> acks)) ∧
     Forall (λ ack, ack.(acknum) = 2) acks).
Proof.
  destruct (B_input_acknowledges_by_seqnum Part000_rcv_wrapped
              (nth_pkt sample_stream 2) sample_junk)
    as [(s & out & ack & Hrun & _ & Hack & _)
        (s' & out' & acks & Hrun' & _ & Hall & _)];
    [by_evaluation | vm_compute; reflexivity | by_evaluation | reflexivity |].
  split.
  - exists s, out, ack. exact (conj Hrun Hack).
  - exists s', out', acks. split; [exact Hrun'|].
    exact (Forall_impl _ _ _ Hall (λ _ H, proj1 H)).
Defined.

Lemma delivered_cons_tolayer5 d out :
  delivered (tolayer5 B d :: out) = d :: delivered out.
Proof. reflexivity. Qed.

Lemma B_accept_redelivery st packet :
  receiver_wf st → IsCorrupted packet = false →
  packet.(seqnum) = st.(rcv_base) →
  ∃ s rest,
    B_accept st packet
      = Some (s, tolayer5 B packet.(payload) :: rest, packet.(seqnum)) ∧
    only_deliveries rest ∧
    receiver_wf s ∧
    s.(B_nextseqnum) = st.(B_nextseqnum) ∧
    in_window s.(rcv_base) packet.(seqnum) = false.
Proof.
  intros Hwf Hgood Heq. pose proof Hwf as (Hbase & Hlen & Hbuf).
  destruct (B_accept_run st packet Hwf Hgood)
    as (k & flags' & qs & Hrun & Hlen' & Hqs & Hk & Hset & _ & Hbasek & _);
    [lia | by rewrite Heq, in_window_base |].
  destruct (Hbasek Heq) as [Hpos _].
  destruct (Hset 0%nat ltac:(lia)) as (_ & _ & Hq).
  change (Z.of_nat 0) with 0 in Hq.
  rewrite Z.add_0_r, <- Heq, list_lookup_insert_eq in Hq
    by (pose proof (slot_lt packet.(seqnum)); lia).
  destruct qs as [|q qs]; [done|]. injection Hq as ->.
  pose proof (B_accept_only_deliveries _ _ _ _ _ Hrun) as Hout.
  cbn [fmap list_fmap] in Hrun, Hout.
  apply Forall_cons in Hout as [_ Hout].
  eexists _, _. split; [exact Hrun|]. split; [done|].
  cbn [rcv_base B_nextseqnum]. split.
  - unfold receiver_wf. cbn [rcv_base rcv_acked rcv_buffer].
    rewrite length_insert. split_and!; [modarith.. | done | done].
  - split; [done|]. rewrite Heq. apply in_window_after_slide; [done|lia].
Qed.

Lemma Sr_B_input_outside st packet junk :
  IsCorrupted packet = false →
  in_window st.(rcv_base) packet.(seqnum) = false →
  length junk = 20%nat →
  ∃ acks,
    Sr.B_input st packet junk
      = Some ({| B_nextseqnum := Z.rem (st.(B_nextseqnum) + 1) 2;
                 rcv_buffer := st.(rcv_buffer);
                 rcv_acked := st.(rcv_acked);
                 rcv_base := st.(rcv_base);
                 packets_received := st.(packets_received) |},
              tolayer3 B <$> acks) ∧
    Forall (λ ack, ack.(acknum) = packet.(seqnum)) acks.
Proof.
  intros Hgood Hwin Hjunk. unfold Sr.B_input.
  rewrite (B_accept_outside _ packet Hgood) by done.
  rewrite mbind_Some. cbv beta iota zeta.
  match goal with |- context [Sr.fill_and_send 20 0 ?p] =>
    destruct (fill_and_send_total 20 0 p) as [sent Hsent];
      [lia | cbn [payload]; lia |];
    rewrite Hsent, mbind_Some;
    apply fill_and_send_spec in Hsent as (acks & -> & _ & Hall)
  end.
  exists acks. split; [done|].
  eapply Forall_impl; [exact Hall|]. by intros ack (_ & ? & _).
Qed.

(** X10: a second copy of the packet just delivered is acknowledged again
    and otherwise ignored.  When a packet that passes the checksum carries
    the sequence number the base waits for, [B_input] hands its payload to
    layer 5 first; called again with the same packet, in the state it
    left, [B_input] finds the packet outside the window: nothing goes to
    layer 5, buffer, flags, base and [packets_received] keep their values,
    and the acknowledgment sent carries the same [acknum].  Stated for the
    sibling draft and for [sr.c]. *)
Theorem B_input_ignores_second_copy
    (st : receiver) (packet : pkt) (junk : list ascii) :
  receiver_wf st → IsCorrupted packet = false →
  packet.(seqnum) = st.(rcv_base) → length junk = 20%nat →
  (∃ s1 out1 rest s2 out2,
     Part000.B_input st packet = Some (s1, out1) ∧
     delivered out1 = packet.(payload) :: rest ∧
     Part000.B_input s1 packet = Some (s2, out2) ∧
     delivered out2 = [] ∧
     Forall (λ ack, ack.(acknum) = packet.(seqnum)) (sent_by B out2) ∧
     (s2.(rcv_buffer), s2.(rcv_acked), s2.(rcv_base), s2.(packets_received))
     = (s1.(rcv_buffer), s1.(rcv_acked), s1.(rcv_base),
        s1.(packets_received))) ∧
  (∃ s1 out1 rest s2 out2,
     Sr.B_input st packet junk = Some (s1, out1) ∧
     delivered out1 = packet.(payload) :: rest ∧
     Sr.B_input s1 packet junk = Some (s2, out2) ∧
     delivered out2 = [] ∧
     Forall (λ ack, ack.(acknum) = packet.(seqnum)) (sent_by B out2) ∧
     (s2.(rcv_buffer), s2.(rcv_acked), s2.(rcv_base), s2.(packets_received))
     = (s1.(rcv_buffer), s1.(rcv_acked), s1.(rcv_base),
        s1.(packets_received))).
Proof.
  intros Hwf Hgood Heq Hjunk.
  destruct (B_accept_redelivery st packet Hwf Hgood Heq)
    as (s & rest & Hrun & Hrest & Hwf' & Hnext & Hout).
  split.
  - unfold Part000.B_input at 1. rewrite Hrun, mbind_Some.
    cbv beta iota zeta.
    eexists _, _, (delivered rest), _, _. split; [reflexivity|].
    split; [by rewrite delivered_app, delivered_cons_tolayer5, app_nil_r|].
    unfold Part000.B_input. cbn [rcv_base rcv_buffer rcv_acked].
    rewrite (B_accept_outside _ packet Hgood) by done.
    rewrite mbind_Some. cbv beta iota zeta.
    split; [reflexivity|]. split; [done|]. split; [|done].
    cbn [app]. unfold sent_by. cbn [omap list_omap].
    rewrite decide_True by done. cbn. by constructor.
  - unfold Sr.B_input at 1. rewrite Hrun, mbind_Some. cbv beta iota zeta.
    match goal with |- context [Sr.fill_and_send 20 0 ?p] =>
      destruct (fill_and_send_total 20 0 p) as [sent Hsent];
        [lia | cbn [payload]; lia |];
      rewrite Hsent, mbind_Some;
      apply fill_and_send_spec in Hsent as (acks & -> & _ & _)
    end.
    match goal with |- context [Some (?s1, _)] =>
      destruct (Sr_B_input_outside s1 packet junk Hgood Hout Hjunk)
        as (acks' & Hrun' & Hall')
    end.
    eexists _, _, (delivered rest), _, (tolayer3 B <$> acks').
    split; [reflexivity|].
    split.
    { by rewrite delivered_app, delivered_tolayer3, app_nil_r,
        delivered_cons_tolayer5. }
    rewrite Hrun'.
    split; [reflexivity|]. split; [by rewrite delivered_tolayer3|].
    split; [by rewrite sent_by_tolayer3|done].
Qed.

Lemma B_input_ignores_second_copy_witness :
  (∃ s1 out1 rest s2 out2,
     Part000.B_input Part000.B_init (nth_pkt sample_stream 0)
       = Some (s1, out1) ∧
     delivered out1 = (nth_pkt sample_stream 0).(payload) :: rest ∧
     Part000.B_input s1 (nth_pkt sample_stream 0) = Some (s2, out2) ∧
     delivered out2 = []) ∧
  (∃ s1 out1 rest s2 out2,
     Sr.B_input Sr.B_init (nth_pkt sample_stream 0) sample_junk
       = Some (s1, out1) ∧
     delivered out1 = (nth_pkt sample_stream 0).(payload) :: rest ∧
     Sr.B_input s1 (nth_pkt sample_stream 0) sample_junk = Some (s2, out2) ∧
     delivered out2 = []).
Proof.
  split.
  - destruct (B_input_ignores_second_copy Part000.B_init
                (nth_pkt sample_stream 0) sample_junk)
      as [(s1 & out1 & rest & s2 & out2 & H1 & H2 & H3 & H4 & _) _];
      [by_evaluation | vm_compute; reflexivity | reflexivity | reflexivity |].
    exists s1, out1, rest, s2, out2. exact (conj H1 (conj H2 (conj H3 H4))).
  - destruct (B_input_ignores_second_copy Sr.B_init
                (nth_pkt sample_stream 0) sample_junk)
      as [_ (s1 & out1 & rest & s2 & out2 & H1 & H2 & H3 & H4 & _)];
      [by_evaluation | vm_compute; reflexivity | reflexivity | reflexivity |].
    exists s1, out1, rest, s2, out2. exact (conj H1 (conj H2 (conj H3 H4))).
Defined.

(** ** The receiver delivers all it can *)

Lemma nth_pkt_good stream k : IsCorrupted (nth_pkt stream k) = false.
Proof. unfold nth_pkt, data_pkt. cbv zeta. apply stamped_not_corrupted. Qed.

Lemma slot_base_offset (D j : nat) :
  slot (Z.of_nat D `mod` SEQSPACE + Z.of_nat j) = slot (Z.of_nat (D + j)).
Proof. unfold slot. f_equal. modarith. Qed.

Lemma slot_window_ne (a b : nat) :
  a ≠ b → (a < b + 6)%nat → (b < a + 6)%nat →
  slot (Z.of_nat a) ≠ slot (Z.of_nat b).
Proof. intros Hne Ha Hb. rewrite slot_eq_iff. modarith. Qed.

Lemma B_accept_complete stream arrived D st a :
  rcv_complete stream arrived D st → fits D a →
  ∃ s (n : nat) ack,
    B_accept st (pkt_of stream a)
      = Some (s, tolayer5 B <$> (payload <$> (nth_pkt stream <$> seq D n)),
              ack) ∧
    s.(B_nextseqnum) = st.(B_nextseqnum) ∧
    rcv_complete stream (copies [a] ++ arrived) (D + n) s.
Proof.
  intros Hinv Hfits.
  pose proof Hinv as (Hbase & Hlen & Hbuf & Hflags & Hstored & Hwait
                      & Hbefore & Hbound).
  destruct a as [k|packet]; cbn [fits pkt_of copies omap list_omap app] in *.
  2:{ rewrite B_accept_corrupted by done. exists st, 0%nat.
      eexists. rewrite Nat.add_0_r. done. }
  pose proof (nth_pkt_good stream k) as Hgood.
  assert ((nth_pkt stream k).(seqnum) = Z.of_nat k `mod` SEQSPACE) as Hseq
    by done.
  destruct Hfits as [Hlow Hhigh].
  destruct (decide (k < D)%nat) as [Hold|Hnew].
  - (* a copy of a packet delivered before *)
    rewrite B_accept_outside; [|done|].
    2:{ rewrite Hbase, Hseq. apply not_true_is_false.
        rewrite in_window_spec by modarith. modarith. }
    exists st, 0%nat. eexists. rewrite Nat.add_0_r.
    split; [done|]. split; [done|].
    unfold rcv_complete. split_and!; try done.
    + intros k' Hk'. rewrite Hflags by done. f_equal.
      apply bool_decide_ext. rewrite elem_of_cons.
      split; [by right|]. intros [->|?]; [lia|done].
    + intros k' Hk' Hin. apply Hstored; [done|].
      apply elem_of_cons in Hin as [->|?]; [lia|done].
    + rewrite elem_of_cons. intros [->|?]; [lia|done].
    + intros k' Hk'. apply elem_of_cons. right. by apply Hbefore.
    + intros k' Hin. apply elem_of_cons in Hin as [->|?]; [lia|].
      by apply Hbound.
  - (* a copy of a packet of the window *)
    destruct (B_accept_run st (nth_pkt stream k))
      as (n & flags' & qs & Hrun & Hlen' & Hqs & Hn & Hset & Hother
          & Hisbase & Hnotbase).
    { unfold receiver_wf. rewrite Hbase. split_and!; [modarith..|done|done]. }
    { done. }
    { rewrite Hseq. modarith. }
    { rewrite Hbase, Hseq. apply in_window_spec; modarith. }
    rewrite Hseq, slot_mod_seqspace in *.
    set (flags1 := <[slot (Z.of_nat k) := true]> st.(rcv_acked)) in *.
    set (buf1 := <[slot (Z.of_nat k) := nth_pkt stream k]> st.(rcv_buffer))
      in *.
    assert (∀ k', (D ≤ k' < D + 6)%nat →
              flags1 !! slot (Z.of_nat k')
              = Some (bool_decide (k' ∈ k :: arrived))) as Hflags1.
    { intros k' Hk'. destruct (decide (k' = k)) as [->|Hne].
      - unfold flags1. rewrite list_lookup_insert_eq
          by (pose proof (slot_lt (Z.of_nat k)); lia).
        rewrite bool_decide_true; [done|by left].
      - unfold flags1. rewrite list_lookup_insert_ne
          by (apply slot_window_ne; lia).
        rewrite Hflags by done. f_equal. apply bool_decide_ext.
        rewrite elem_of_cons. split; [by right|]. by intros [->|?]. }
    assert (∀ k', (D ≤ k' < D + 6)%nat → k' ∈ k :: arrived →
              buf1 !! slot (Z.of_nat k') = Some (nth_pkt stream k'))
      as Hstored1.
    { intros k' Hk' Hin. destruct (decide (k' = k)) as [->|Hne].
      - unfold buf1. apply list_lookup_insert_eq.
        pose proof (slot_lt (Z.of_nat k)). lia.
      - unfold buf1. rewrite list_lookup_insert_ne
          by (apply slot_window_ne; lia).
        apply Hstored; [done|].
        by apply elem_of_cons in Hin as [->|?]. }
    assert (∀ k', k' ∈ k :: arrived → (k' < D + 6)%nat) as Hbound1.
    { intros k' Hin. apply elem_of_cons in Hin as [->|?]; [lia|].
      by apply Hbound. }
    assert (∀ j, (j < n)%nat → (D + j)%nat ∈ k :: arrived) as Hrun_in.
    { intros j Hj. destruct (Hset j Hj) as (Hs & _ & _).
      rewrite Hbase, slot_base_offset, Hflags1 in Hs by lia.
      injection Hs as Hs. by apply bool_decide_eq_true in Hs. }
    assert (qs = nth_pkt stream <$> seq D n) as ->.
    { apply list_eq. intros j. rewrite list_lookup_fmap.
      destruct (decide (j < n)%nat) as [Hj|Hj].
      - destruct (Hset j Hj) as (_ & _ & Hq).
        rewrite Hq, Hbase, slot_base_offset, lookup_seq_lt by done.
        apply Hstored1; [lia|]. by apply Hrun_in.
      - rewrite lookup_seq_ge, lookup_ge_None_2 by lia. done. }
    eexists _, n, _. split; [exact Hrun|]. split; [done|].
    assert (∀ k', (D + n ≤ k' < D + n + 6)%nat →
              flags' !! slot (Z.of_nat k')
              = Some (bool_decide (k' ∈ k :: arrived))) as Hflags'.
    { intros k' Hk'. destruct (decide (k' < D + 6)%nat) as [Hin|Hbeyond].
      - rewrite Hother; [apply Hflags1; lia|].
        intros j Hj. rewrite Hbase, slot_base_offset.
        apply slot_window_ne; lia.
      - destruct (Hset (k' - D - 6)%nat ltac:(lia)) as (_ & Hclr & _).
        rewrite Hbase, slot_base_offset in Hclr.
        replace (slot (Z.of_nat k'))
          with (slot (Z.of_nat (D + (k' - D - 6))))
          by (unfold slot; f_equal; modarith).
        rewrite Hclr, bool_decide_false; [done|].
        intros Hin. apply Hbound1 in Hin. lia. }
    unfold rcv_complete. cbn [rcv_base rcv_acked rcv_buffer].
    split_and!.
    + rewrite Hbase. modarith.
    + done.
    + unfold buf1. by rewrite length_insert.
    + done.
    + intros k' Hk' Hin. apply Hstored1; [|done].
      pose proof (Hbound1 k' Hin). lia.
    + destruct (decide (k = D)) as [->|Hne].
      * destruct Hisbase as [Hpos Hstop]; [by rewrite Hbase|].
        rewrite Hbase, slot_base_offset, Hflags' in Hstop by lia.
        injection Hstop as Hstop. by apply bool_decide_eq_false in Hstop.
      * rewrite Hnotbase by (rewrite Hbase; modarith).
        rewrite Nat.add_0_r, elem_of_cons. by intros [->|?].
    + intros k' Hk'. destruct (decide (k' < D)%nat) as [Hlt|Hge].
      * apply elem_of_cons. right. by apply Hbefore.
      * replace k' with (D + (k' - D))%nat by lia. apply Hrun_in. lia.
    + intros k' Hin. apply Hbound1 in Hin. lia.
Qed.

Lemma rcv_complete_equiv stream arrived arrived' D st :
  (∀ k, k ∈ arrived ↔ k ∈ arrived') →
  rcv_complete stream arrived D st → rcv_complete stream arrived' D st.
Proof.
  intros Hsame (Hbase & Hlen & Hbuf & Hflags & Hstored & Hwait & Hbefore
                & Hbound).
  unfold rcv_complete. split_and!; try done.
  - intros k Hk. rewrite Hflags by done. f_equal.
    apply bool_decide_ext, Hsame.
  - intros k Hk Hin. apply Hstored; [done|]. by apply Hsame.
  - intros Hin. by apply Hwait, Hsame.
  - intros k Hk. by apply Hsame, Hbefore.
  - intros k Hin. by apply Hbound, Hsame.
Qed.

Lemma delivered_stream stream D n :
  payload <$> (nth_pkt stream <$> seq D n)
  = (λ k, take 20 (stream k).(data)) <$> seq D n.
Proof. by rewrite <- list_fmap_compose. Qed.

Lemma Part000_B_input_complete stream arrived D st a :
  rcv_complete stream arrived D st → fits D a →
  ∃ s out (n : nat),
    Part000.B_input st (pkt_of stream a) = Some (s, out) ∧
    delivered out = (λ k, take 20 (stream k).(data)) <$> seq D n ∧
    rcv_complete stream (copies [a] ++ arrived) (D + n) s.
Proof.
  intros Hinv Hfits.
  destruct (B_accept_complete _ _ _ _ _ Hinv Hfits)
    as (s & n & ack & Hrun & _ & Hinv').
  unfold Part000.B_input. rewrite Hrun, mbind_Some. cbv beta iota zeta.
  eexists _, _, n. split; [reflexivity|].
  split; [|exact Hinv'].
  rewrite delivered_app, delivered_tolayer5, delivered_stream.
  by rewrite app_nil_r.
Qed.

Lemma Sr_B_input_complete stream arrived D st a junk :
  rcv_complete stream arrived D st → fits D a → length junk = 20%nat →
  ∃ s out (n : nat),
    Sr.B_input st (pkt_of stream a) junk = Some (s, out) ∧
    delivered out = (λ k, take 20 (stream k).(data)) <$> seq D n ∧
    rcv_complete stream (copies [a] ++ arrived) (D + n) s.
Proof.
  intros Hinv Hfits Hjunk.
  destruct (B_accept_complete _ _ _ _ _ Hinv Hfits)
    as (s & n & ack & Hrun & _ & Hinv').
  unfold Sr.B_input. rewrite Hrun, mbind_Some. cbv beta iota zeta.
  match goal with |- context [Sr.fill_and_send 20 0 ?p] =>
    destruct (fill_and_send_total 20 0 p) as [sent Hsent];
      [lia | cbn [payload]; lia |];
    rewrite Hsent, mbind_Some;
    apply fill_and_send_spec in Hsent as (ps & -> & _ & _)
  end.
  eexists _, _, n. split; [reflexivity|].
  split; [|exact Hinv'].
  rewrite delivered_app, delivered_tolayer5, delivered_tolayer3,
    delivered_stream.
  by rewrite app_nil_r.
Qed.

Lemma copies_cons a arrivals :
  copies (a :: arrivals) = copies [a] ++ copies arrivals.
Proof. unfold copies. by rewrite <- omap_app. Qed.

(** A run of a receiver whose steps keep [rcv_complete], each arrival
    being allowed for the number of payloads delivered before it. *)
Lemma receiver_run_complete {X : Type}
    (step : receiver → X → option (receiver * list event))
    (what : X → arrival) (allowed : nat → X → Prop) stream :
  (∀ arrived D st x,
     rcv_complete stream arrived D st → allowed D x →
     ∃ s out (n : nat),
       step st x = Some (s, out) ∧
       delivered out = (λ k, take 20 (stream k).(data)) <$> seq D n ∧
       rcv_complete stream (copies [what x] ++ arrived) (D + n) s) →
  ∀ xs arrived D st,
    rcv_complete stream arrived D st →
    (∀ pre x post s out,
       xs = pre ++ x :: post →
       receiver_run step st pre = Some (s, out) →
       allowed (D + length (delivered out))%nat x) →
    ∃ s out (n : nat) arrived',
      receiver_run step st xs = Some (s, out) ∧
      delivered out = (λ k, take 20 (stream k).(data)) <$> seq D n ∧
      (∀ k, k ∈ arrived' ↔ k ∈ copies (what <$> xs) ∨ k ∈ arrived) ∧
      rcv_complete stream arrived' (D + n) s.
Proof.
  intros Hstep xs.
  induction xs as [|x xs IH]; intros arrived D st Hinv Hall.
  - exists st, [], 0%nat, arrived. rewrite Nat.add_0_r.
    split_and!; try done. intros k. split; [by right|].
    intros [Hk|Hk]; [|done]. by apply elem_of_nil in Hk.
  - destruct (Hstep arrived D st x Hinv)
      as (s1 & out1 & n1 & Hrun1 & Hout1 & Hinv1).
    { specialize (Hall [] x xs st [] eq_refl eq_refl).
      change (allowed (D + 0) x)%nat in Hall.
      by rewrite Nat.add_0_r in Hall. }
    destruct (IH _ _ _ Hinv1)
      as (s2 & out2 & n2 & arrived' & Hrun2 & Hout2 & Hsame & Hinv2).
    { intros pre y post s out -> Hpre.
      specialize (Hall (x :: pre) y post s (out1 ++ out) eq_refl).
      cbn [receiver_run] in Hall. rewrite Hrun1, mbind_Some in Hall.
      cbv beta iota in Hall. rewrite Hpre, mbind_Some in Hall.
      cbv beta iota in Hall. specialize (Hall eq_refl).
      rewrite delivered_app, length_app, Hout1, length_fmap,
        length_seq, Nat.add_assoc in Hall.
      done. }
    exists s2, (out1 ++ out2), (n1 + n2)%nat, arrived'.
    cbn [receiver_run]. rewrite Hrun1, mbind_Some. cbv beta iota.
    rewrite Hrun2, mbind_Some. cbv beta iota.
    split; [done|]. split_and!.
    + by rewrite delivered_app, Hout1, Hout2, seq_app, fmap_app.
    + intros k. rewrite Hsame. cbn [fmap list_fmap].
      rewrite (copies_cons (what x) (what <$> xs)), !elem_of_app. tauto.
    + by rewrite Nat.add_assoc.
Qed.

Lemma elem_of_copies k arrivals : k ∈ copies arrivals ↔ copy k ∈ arrivals.
Proof.
  unfold copies. rewrite list_elem_of_omap. split.
  - intros ([k'|p] & Hin & Heq); [|done]. by injection Heq as ->.
  - intros Hin. by exists (copy k).
Qed.

Lemma rcv_complete_init stream b :
  rcv_complete stream [] 0
    {| B_nextseqnum := b; rcv_buffer := replicate 6 zero_pkt;
       rcv_acked := replicate 6 false; rcv_base := 0;
       packets_received := 0 |}.
Proof.
  unfold rcv_complete. cbn [rcv_base rcv_acked rcv_buffer].
  split; [done|]. split; [done|]. split; [done|]. split.
  { intros k Hk. rewrite bool_decide_false
      by (intros Hin; by apply elem_of_nil in Hin).
    apply lookup_replicate. split; [done|].
    pose proof (slot_lt (Z.of_nat k)). lia. }
  split.
  { intros k _ Hin. by apply elem_of_nil in Hin. }
  split.
  { intros Hin. by apply elem_of_nil in Hin. }
  split.
  { intros k Hk. lia. }
  intros k Hin. by apply elem_of_nil in Hin.
Qed.

(** X11: the receiver delivers all it can.  When the arrivals are copies
    of the packets that [A_output] builds for the messages [stream 0],
    [stream 1], ..., or damaged packets, in an order consistent with the
    channel ([channel_consistent]), the payloads handed to layer 5 in the
    course of the run are those of the messages 0, ..., [n - 1], where [n]
    is the first number of which no copy has arrived: nothing that has
    arrived in full sequence is held back.  Stated for the sibling draft
    and for [sr.c]. *)
Theorem receiver_delivers_all_it_can
    (stream : nat → msg)
    (sent : list arrival) (sent' : list (arrival * list ascii)) :
  channel_consistent id (Part000_receive stream) sent →
  channel_consistent fst (Sr_receive stream) sent' →
  Forall (λ x, length x.2 = 20%nat) sent' →
  (∃ st out (n : nat),
     Part000_receive stream sent = Some (st, out) ∧
     delivered out = (λ k, take 20 (stream k).(data)) <$> seq 0 n ∧
     (∀ k, (k < n)%nat → copy k ∈ sent) ∧
     copy n ∉ sent) ∧
  (∃ st out (n : nat),
     Sr_receive stream sent' = Some (st, out) ∧
     delivered out = (λ k, take 20 (stream k).(data)) <$> seq 0 n ∧
     (∀ k, (k < n)%nat → copy k ∈ sent'.*1) ∧
     copy n ∉ sent'.*1).
Proof.
  intros Hfits Hfits' Hjunk. split.
  - destruct (receiver_run_complete
                (λ st a, Part000.B_input st (pkt_of stream a)) id
                (λ D a, fits D a) stream
                (λ arrived D st a, Part000_B_input_complete _ _ _ _ _)
                sent [] 0%nat Part000.B_init (rcv_complete_init _ _))
      as (st & out & n & arrived' & Hrun & Hout & Hsame & Hinv).
    { intros pre a post s out Heq Hrun. apply (Hfits pre a post s out Heq).
      unfold Part000_receive, Part000.B_run. by rewrite receiver_run_fmap. }
    exists st, out, n. unfold Part000_receive, Part000.B_run.
    rewrite receiver_run_fmap. split; [done|]. split; [done|].
    destruct Hinv as (_ & _ & _ & _ & _ & Hwait & Hbefore & _).
    rewrite list_fmap_id in Hsame.
    assert (∀ k, k ∈ arrived' ↔ copy k ∈ sent) as Hin.
    { intros k. rewrite Hsame, elem_of_copies. split; [|by left].
      intros [?|Hnil]; [done|]. by apply elem_of_nil in Hnil. }
    split.
    + intros k Hk. by apply Hin, Hbefore.
    + intros Hn. by apply Hwait, Hin.
  - destruct (receiver_run_complete
                (λ st x, Sr.B_input st (pkt_of stream x.1) x.2) fst
                (λ D x, fits D x.1 ∧ length x.2 = 20%nat) stream
                (λ arrived D st x Hinv Hx,
                   Sr_B_input_complete _ _ _ _ _ _ Hinv (proj1 Hx)
                     (proj2 Hx))
                sent' [] 0%nat Sr.B_init (rcv_complete_init _ _))
      as (st & out & n & arrived' & Hrun & Hout & Hsame & Hinv).
    { intros pre x post s out Heq Hrun. split.
      - apply (Hfits' pre x post s out Heq).
        unfold Sr_receive, Sr.B_run. by rewrite receiver_run_fmap.
      - rewrite Forall_forall in Hjunk. apply Hjunk. rewrite Heq.
        apply elem_of_app. right. by left. }
    exists st, out, n. unfold Sr_receive, Sr.B_run.
    rewrite receiver_run_fmap. split; [done|]. split; [done|].
    destruct Hinv as (_ & _ & _ & _ & _ & Hwait & Hbefore & _).
    assert (∀ k, k ∈ arrived' ↔ copy k ∈ sent'.*1) as Hin.
    { intros k. rewrite Hsame, elem_of_copies. split; [|by left].
      intros [?|Hnil]; [done|]. by apply elem_of_nil in Hnil. }
    split.
    + intros k Hk. by apply Hin, Hbefore.
    + intros Hn. by apply Hwait, Hin.
Qed.

Lemma receiver_delivers_all_it_can_witness :
  (∃ st out (n : nat),
     Part000_receive sample_stream in_flight = Some (st, out) ∧
     delivered out
     = (λ k, take 20 (sample_stream k).(data)) <$> seq 0 n ∧
     copy n ∉ in_flight) ∧
  (∃ st out (n : nat),
     Sr_receive sample_stream in_flight_junk = Some (st, out) ∧
     delivered out
     = (λ k, take 20 (sample_stream k).(data)) <$> seq 0 n ∧
     copy n ∉ in_flight_junk.*1).
Proof.
  destruct (receiver_delivers_all_it_can sample_stream in_flight
              in_flight_junk)
    as [(st & out & n & Hrun & Hout & _ & Hn)
        (st' & out' & n' & Hrun' & Hout' & _ & Hn')].
  - exact in_flight_consistent.
  - exact in_flight_junk_consistent.
  - repeat (apply Forall_cons; split; [reflexivity|]).
    exact (Forall_nil_2 _).
  - split.
    + exists st, out, n. exact (conj Hrun (conj Hout Hn)).
    + exists st', out', n'. exact (conj Hrun' (conj Hout' Hn')).
Defined.

(** ** The timer of [sr.c] *)

Lemma Sr_A_output_accepts st message :
  Sr.sender_wf st → 0 ≤ st.(Sr.A_nextseqnum) →
  st.(Sr.windowcount) < WINDOWSIZE →
  Sr.A_output st message
  = Some ({| Sr.buffer :=
               <[slot st.(Sr.A_nextseqnum)
                 := data_pkt st.(Sr.A_nextseqnum) message]> st.(Sr.buffer);
             Sr.windowcount := st.(Sr.windowcount) + 1;
             Sr.A_nextseqnum := Z.rem (st.(Sr.A_nextseqnum) + 1) SEQSPACE;
             Sr.send_base := st.(Sr.send_base);
             Sr.acked := <[slot st.(Sr.A_nextseqnum) := false]> st.(Sr.acked);
             Sr.timer_ids :=
               <[slot st.(Sr.A_nextseqnum) := st.(Sr.A_nextseqnum)]>
                 st.(Sr.timer_ids);
             Sr.stats := st.(Sr.stats) |},
          [tolayer3 A (data_pkt st.(Sr.A_nextseqnum) message);
           starttimer A RTT]).
Proof.
  intros (Hbase & Hlen & Hbuf & Htim & Hwc) Hnext Hroom.
  unfold Sr.A_output. rewrite decide_True by done. cbv zeta.
  rewrite !upd_in_range, !mbind_Some, !rem_slot by modarith. done.
Qed.

(** X12: [sr.c] starts the timer for every message it accepts, also while
    the timer runs.  When [A_output] accepts two messages in a row, each
    call hands its packet to layer 3 and calls [starttimer]; the second
    [starttimer] finds the timer running, whatever its state was before
    the first. *)
Theorem Sr_starts_running_timer
    (st : Sr.sender) (m1 m2 : msg) (strict running : bool) :
  Sr.sender_wf st → 0 ≤ st.(Sr.A_nextseqnum) →
  st.(Sr.windowcount) + 1 < WINDOWSIZE →
  (∃ s1 s2 p1 p2,
     Sr.A_output st m1 = Some (s1, [tolayer3 A p1; starttimer A RTT]) ∧
     Sr.A_output s1 m2 = Some (s2, [tolayer3 A p2; starttimer A RTT])) ∧
  timer_run Sr.A_step strict st running [ev_output m1; ev_output m2] = None.
Proof.
  intros Hwf Hnext Hroom.
  pose proof (Sr_A_output_accepts st m1 Hwf Hnext ltac:(lia)) as Hrun1.
  match type of Hrun1 with _ = Some (?s, _) => set (s1 := s) in * end.
  assert (Sr.sender_wf s1) as Hwf1.
  { destruct Hwf as (Hbase & Hlen & Hbuf & Htim & Hwc).
    unfold Sr.sender_wf, s1.
    cbn [Sr.send_base Sr.acked Sr.buffer Sr.timer_ids Sr.windowcount].
    rewrite !length_insert. split_and!; try done; lia. }
  pose proof (Sr_A_output_accepts s1 m2 Hwf1) as Hrun2.
  unfold s1 at 1 2 in Hrun2. cbn [Sr.A_nextseqnum Sr.windowcount] in Hrun2.
  specialize (Hrun2 ltac:(modarith) ltac:(lia)).
  split.
  - eexists _, _, _, _. split; [exact Hrun1|exact Hrun2].
  - cbn [timer_run Sr.A_step]. rewrite Hrun1, mbind_Some. cbv beta iota.
    destruct running; [done|]. cbn [timer_after timer_call].
    rewrite !mbind_Some. rewrite Hrun2, mbind_Some. cbv beta iota.
    reflexivity.
Qed.

Lemma Sr_starts_running_timer_witness :
  timer_run Sr.A_step true Sr.A_init false
    [ev_output (sample_msg "a"); ev_output (sample_msg "b")] = None.
Proof.
  apply (Sr_starts_running_timer Sr.A_init (sample_msg "a") (sample_msg "b")
           true false); by_evaluation.
Defined.

(** The first round of the loop that follows the slide in [A_input] of
    [sr.c], the base slot being unacknowledged. *)
Lemma restart_timer_first fuel flags base wc next :
  0 ≤ base → 0 < wc → flags !! slot base = Some false →
  Sr.restart_timer (S fuel) flags base wc next 0
  = Some (if decide (Z.rem base WINDOWSIZE = next) then []
          else [starttimer A RTT]).
Proof.
  intros Hbase Hwc Hflag. cbn [Sr.restart_timer].
  rewrite decide_True by lia. cbv zeta. rewrite Z.add_0_r.
  destruct (decide (Z.rem base WINDOWSIZE = next)); [done|].
  replace (Z.rem (Z.rem base WINDOWSIZE) WINDOWSIZE)
    with (Z.rem base WINDOWSIZE) by modarith.
  by rewrite idx_lookup, rem_slot, Hflag by modarith.
Qed.

(** X13: what [sr.c] does with the timer after an acknowledgment for a
    packet that is not the base.  When a new acknowledgment arrives for a
    packet of the window other than the base, the base being
    unacknowledged, [A_input] marks the slot, calls [stoptimer], and calls
    [starttimer] again unless [send_base % WINDOWSIZE] equals
    [A_nextseqnum]; in that case it returns with the timer stopped,
    although [windowcount] packets are outstanding. *)
Theorem Sr_restart_after_selective_ack (st : Sr.sender) (packet : pkt) :
  Sr.sender_wf st → IsCorrupted packet = false →
  0 ≤ packet.(acknum) < SEQSPACE →
  in_window st.(Sr.send_base) packet.(acknum) = true →
  packet.(acknum) ≠ st.(Sr.send_base) →
  st.(Sr.acked) !! slot packet.(acknum) = Some false →
  st.(Sr.acked) !! slot st.(Sr.send_base) = Some false →
  st.(Sr.windowcount) > 0 →
  Sr.A_input st packet
  = Some ({| Sr.buffer := st.(Sr.buffer);
             Sr.windowcount := st.(Sr.windowcount);
             Sr.A_nextseqnum := st.(Sr.A_nextseqnum);
             Sr.send_base := st.(Sr.send_base);
             Sr.acked := <[slot packet.(acknum) := true]> st.(Sr.acked);
             Sr.timer_ids := st.(Sr.timer_ids);
             Sr.stats :=
               incr_new_ACKs (incr_total_ACKs_received st.(Sr.stats)) |},
          stoptimer A ::
          (if decide (Z.rem st.(Sr.send_base) WINDOWSIZE
                      = st.(Sr.A_nextseqnum))
           then [] else [starttimer A RTT])).
Proof.
  intros (Hbase & Hlen & Hbuf & Htim & Hwc) Hgood Hack Hwin Hne Hflag Hunacked
         Hpos.
  assert (slot packet.(acknum) ≠ slot st.(Sr.send_base)) as Hslots.
  { rewrite slot_eq_iff. apply in_window_spec in Hwin; [|done..]. modarith. }
  unfold Sr.A_input. rewrite Hgood, Hwin. cbn [negb]. cbv zeta.
  rewrite idx_lookup, rem_slot, Hflag, mbind_Some by modarith.
  rewrite upd_in_range, rem_slot, mbind_Some by modarith.
  rewrite decide_False, mbind_Some by done. cbv beta iota.
  rewrite decide_True by done.
  rewrite restart_timer_first, mbind_Some;
    [done | lia | lia | by rewrite list_lookup_insert_ne].
Qed.

Lemma Sr_restart_after_selective_ack_witness :
  ∃ s, Sr.A_input Sr_second_round (ack_pkt 0 7) = Some (s, [stoptimer A]) ∧
       s.(Sr.windowcount) = 6 ∧
       s.(Sr.acked) !! slot s.(Sr.send_base) = Some false.
Proof.
  eexists. split; [|split].
  - rewrite (Sr_restart_after_selective_ack Sr_second_round (ack_pkt 0 7));
      [reflexivity | by_evaluation ..].
  - reflexivity.
  - vm_compute. reflexivity.
Defined.

(** ** A message that is accepted *)

Lemma Part000_A_output_accepts st message :
  Part000.sender_wf st → 0 ≤ st.(Part000.A_nextseqnum) →
  st.(Part000.windowcount) < WINDOWSIZE →
  Part000.A_output st message
  = Some ({| Part000.buffer :=
               <[slot st.(Part000.A_nextseqnum)
                 := data_pkt st.(Part000.A_nextseqnum) message]>
                 st.(Part000.buffer);
             Part000.acked :=
               <[slot st.(Part000.A_nextseqnum) := false]> st.(Part000.acked);
             Part000.send_base := st.(Part000.send_base);
             Part000.A_nextseqnum :=
               Z.rem (st.(Part000.A_nextseqnum) + 1) SEQSPACE;
             Part000.windowcount := st.(Part000.windowcount) + 1;
             Part000.timer_running :=
               if bool_decide (st.(Part000.windowcount) = 0)
                  && negb st.(Part000.timer_running)
               then true else st.(Part000.timer_running);
             Part000.stats := st.(Part000.stats) |},
          tolayer3 A (data_pkt st.(Part000.A_nextseqnum) message) ::
          (if bool_decide (st.(Part000.windowcount) = 0)
              && negb st.(Part000.timer_running)
           then [starttimer A RTT] else [])).
Proof.
  intros (Hbase & Hlen & Hbuf) Hnext Hroom.
  unfold Part000.A_output. rewrite decide_True by done. cbv zeta.
  rewrite !upd_in_range, !mbind_Some, !rem_slot by modarith. done.
Qed.

(** X14: what [A_output] does with a message it accepts.  With room in the
    window ([windowcount < WINDOWSIZE]) the handler hands exactly one
    packet to layer 3: it carries [A_nextseqnum] as [seqnum], [NOTINUSE]
    as [acknum], the first twenty characters of the message, and a
    checksum that [IsCorrupted] accepts.  The packet is stored in slot
    [A_nextseqnum % WINDOWSIZE], whose flag is cleared; no other slot
    changes; [windowcount] goes up by one, [A_nextseqnum] by one modulo
    [SEQSPACE], [send_base] stays.  [sr.c] calls [starttimer] each time,
    the sibling draft only for the first packet of an empty window. *)
Theorem A_output_accepts_message
    (st : Sr.sender) (st' : Part000.sender) (message : msg) :
  Sr.sender_wf st → Part000.sender_wf st' →
  0 ≤ st.(Sr.A_nextseqnum) → 0 ≤ st'.(Part000.A_nextseqnum) →
  st.(Sr.windowcount) < WINDOWSIZE →
  st'.(Part000.windowcount) < WINDOWSIZE →
  (∃ s p,
     Sr.A_output st message = Some (s, [tolayer3 A p; starttimer A RTT]) ∧
     IsCorrupted p = false ∧
     p.(seqnum) = st.(Sr.A_nextseqnum) ∧ p.(acknum) = NOTINUSE ∧
     p.(payload) = take 20 message.(data) ∧
     s.(Sr.buffer) !! slot st.(Sr.A_nextseqnum) = Some p ∧
     s.(Sr.acked) !! slot st.(Sr.A_nextseqnum) = Some false ∧
     (∀ j, j ≠ slot st.(Sr.A_nextseqnum) →
        s.(Sr.buffer) !! j = st.(Sr.buffer) !! j ∧
        s.(Sr.acked) !! j = st.(Sr.acked) !! j) ∧
     s.(Sr.windowcount) = st.(Sr.windowcount) + 1 ∧
     s.(Sr.A_nextseqnum) = (st.(Sr.A_nextseqnum) + 1) `mod` SEQSPACE ∧
     s.(Sr.send_base) = st.(Sr.send_base)) ∧
  (∃ s p,
     Part000.A_output st' message
       = Some (s, tolayer3 A p ::
                  (if bool_decide (st'.(Part000.windowcount) = 0)
                      && negb st'.(Part000.timer_running)
                   then [starttimer A RTT] else [])) ∧
     IsCorrupted p = false ∧
     p.(seqnum) = st'.(Part000.A_nextseqnum) ∧ p.(acknum) = NOTINUSE ∧
     p.(payload) = take 20 message.(data) ∧
     s.(Part000.buffer) !! slot st'.(Part000.A_nextseqnum) = Some p ∧
     s.(Part000.acked) !! slot st'.(Part000.A_nextseqnum) = Some false ∧
     (∀ j, j ≠ slot st'.(Part000.A_nextseqnum) →
        s.(Part000.buffer) !! j = st'.(Part000.buffer) !! j ∧
        s.(Part000.acked) !! j = st'.(Part000.acked) !! j) ∧
     s.(Part000.windowcount) = st'.(Part000.windowcount) + 1 ∧
     s.(Part000.A_nextseqnum)
       = (st'.(Part000.A_nextseqnum) + 1) `mod` SEQSPACE ∧
     s.(Part000.send_base) = st'.(Part000.send_base)).
Proof.
  intros Hwf Hwf' Hnext Hnext' Hroom Hroom'. split.
  - eexists _, _. split; [by apply Sr_A_output_accepts|].
    destruct Hwf as (Hbase & Hlen & Hbuf & Htim & Hwc).
    cbn [Sr.buffer Sr.acked Sr.windowcount Sr.A_nextseqnum Sr.send_base].
    pose proof (slot_lt st.(Sr.A_nextseqnum)).
    split; [apply stamped_not_corrupted|]. do 3 (split; [done|]).
    split; [apply list_lookup_insert_eq; unfold WINDOWSIZE in *; lia|].
    split; [apply list_lookup_insert_eq; unfold WINDOWSIZE in *; lia|].
    split; [|split_and!; [done | modarith | done]].
    intros j Hj. by rewrite !list_lookup_insert_ne.
  - eexists _, _. split; [by apply Part000_A_output_accepts|].
    destruct Hwf' as (Hbase & Hlen & Hbuf).
    cbn [Part000.buffer Part000.acked Part000.windowcount
         Part000.A_nextseqnum Part000.send_base].
    pose proof (slot_lt st'.(Part000.A_nextseqnum)).
    split; [apply stamped_not_corrupted|]. do 3 (split; [done|]).
    split; [apply list_lookup_insert_eq; unfold WINDOWSIZE in *; lia|].
    split; [apply list_lookup_insert_eq; unfold WINDOWSIZE in *; lia|].
    split; [|split_and!; [done | modarith | done]].
    intros j Hj. by rewrite !list_lookup_insert_ne.
Qed.

Lemma A_output_accepts_message_witness :
  (∃ s p,
     Sr.A_output Sr_wrapped (sample_msg "c")
       = Some (s, [tolayer3 A p; starttimer A RTT]) ∧
     IsCorrupted p = false ∧ p.(seqnum) = 8) ∧
  (∃ s p,
     Part000.A_output Part000_wrapped (sample_msg "c")
       = Some (s, [tolayer3 A p]) ∧
     IsCorrupted p = false ∧ p.(seqnum) = 8).
Proof.
  destruct (A_output_accepts_message Sr_wrapped Part000_wrapped
              (sample_msg "c"))
    as [(s & p & Hrun & Hgood & Hseq & _)
        (s' & p' & Hrun' & Hgood' & Hseq' & _)];
    [by_evaluation ..|].
  split.
  - exists s, p. exact (conj Hrun (conj Hgood Hseq)).
  - exists s', p'. exact (conj Hrun' (conj Hgood' Hseq')).
Defined.

(** ** What [A_input] leaves alone *)

Lemma restart_timer_events fuel flags base wc next i t :
  Sr.restart_timer fuel flags base wc next i = Some t →
  t = [] ∨ t = [starttimer A RTT].
Proof.
  revert i. induction fuel as [|fuel IH]; intros i Hrun; [done|].
  cbn [Sr.restart_timer] in Hrun. run_inv Hrun; simplify_eq; eauto.
Qed.

Lemma Sr_A_input_events st packet s out :
  Sr.A_input st packet = Some (s, out) →
  out = [] ∨ out = [stoptimer A] ∨ out = [stoptimer A; starttimer A RTT].
Proof.
  unfold Sr.A_input. intros Hrun. run_inv_all; simplify_eq; eauto.
  all: repeat match goal with
       | H : Sr.restart_timer _ _ _ _ _ _ = Some _ |- _ =>
           apply restart_timer_events in H as [->| ->]
       end; eauto.
Qed.

Lemma Part000_A_input_events st packet s out :
  Part000.A_input st packet = Some (s, out) →
  out = [] ∨ out = [stoptimer A] ∨ out = [stoptimer A; starttimer A RTT].
Proof.
  unfold Part000.A_input. intros Hrun. run_inv_all; simplify_eq; eauto.
  all: destruct (bool_decide _); eauto.
Qed.

Lemma Sr_A_input_counters st packet s out :
  Sr.A_input st packet = Some (s, out) →
  s.(Sr.stats).(window_full) = st.(Sr.stats).(window_full) ∧
  s.(Sr.stats).(packets_resent) = st.(Sr.stats).(packets_resent) ∧
  s.(Sr.timer_ids) = st.(Sr.timer_ids).
Proof.
  unfold Sr.A_input. intros Hrun. by run_inv_all; simplify_eq.
Qed.

Lemma Part000_A_input_counters st packet s out :
  Part000.A_input st packet = Some (s, out) →
  s.(Part000.stats).(window_full) = st.(Part000.stats).(window_full) ∧
  s.(Part000.stats).(packets_resent) = st.(Part000.stats).(packets_resent).
Proof.
  unfold Part000.A_input. intros Hrun. by run_inv_all; simplify_eq.
Qed.

(** X15: what [A_input] never does.  Whatever the packet, a call of
    [A_input] that returns has handed nothing to layer 3 or layer 5: its
    calls are [stoptimer], or [stoptimer] and then [starttimer], or none.
    The buffer of packets, [A_nextseqnum] and the counters [window_full]
    and [packets_resent] keep their values, and [windowcount] does not
    grow.  Stated for [sr.c] and for the sibling draft. *)
Theorem A_input_leaves_alone
    (st s : Sr.sender) (st' s' : Part000.sender) (packet : pkt)
    (out out' : list event) :
  Sr.sender_wf st → Part000.sender_wf st' →
  Sr.A_input st packet = Some (s, out) →
  Part000.A_input st' packet = Some (s', out') →
  ((out = [] ∨ out = [stoptimer A] ∨ out = [stoptimer A; starttimer A RTT]) ∧
   s.(Sr.buffer) = st.(Sr.buffer) ∧
   s.(Sr.A_nextseqnum) = st.(Sr.A_nextseqnum) ∧
   s.(Sr.windowcount) ≤ st.(Sr.windowcount) ∧
   s.(Sr.stats).(window_full) = st.(Sr.stats).(window_full) ∧
   s.(Sr.stats).(packets_resent) = st.(Sr.stats).(packets_resent)) ∧
  ((out' = [] ∨ out' = [stoptimer A]
    ∨ out' = [stoptimer A; starttimer A RTT]) ∧
   s'.(Part000.buffer) = st'.(Part000.buffer) ∧
   s'.(Part000.A_nextseqnum) = st'.(Part000.A_nextseqnum) ∧
   s'.(Part000.windowcount) ≤ st'.(Part000.windowcount) ∧
   s'.(Part000.stats).(window_full) = st'.(Part000.stats).(window_full) ∧
   s'.(Part000.stats).(packets_resent)
     = st'.(Part000.stats).(packets_resent)).
Proof.
  intros Hwf Hwf' Hrun Hrun'. split.
  - split; [by eapply Sr_A_input_events|].
    destruct (Sr_A_input_counters _ _ _ _ Hrun) as (Hfull & Hresent & _).
    destruct (Sr_A_input_cases _ _ _ _ Hwf Hrun)
      as [[c ->]|[(_ & _ & _ & _ & _ & Hbuf & _ & _ & Hn & Hw)
                 |(_ & _ & _ & Hn & Hbuf & k & Hslid)]].
    + cbn in *. split_and!; try done; lia.
    + split_and!; try done; lia.
    + destruct Hslid as (_ & _ & Hw & _). split_and!; try done; lia.
  - split; [by eapply Part000_A_input_events|].
    destruct (Part000_A_input_counters _ _ _ _ Hrun') as (Hfull & Hresent).
    destruct (Part000_A_input_cases _ _ _ _ Hwf' Hrun')
      as [[c ->]|[(_ & _ & _ & _ & _ & Hbuf & _ & Hn & Hw)
                 |(_ & _ & _ & Hn & Hbuf & k & Hslid)]].
    + cbn in *. split_and!; try done; lia.
    + split_and!; try done; lia.
    + destruct Hslid as (_ & _ & Hw & _). split_and!; try done; lia.
Qed.

Lemma A_input_leaves_alone_witness :
  (Sr_acked_once.(Sr.buffer) = Sr_full_window.(Sr.buffer) ∧
   Sr_acked_once.(Sr.windowcount) ≤ Sr_full_window.(Sr.windowcount)) ∧
  (Part000_acked_once.(Part000.buffer) = Part000_full_window.(Part000.buffer)
   ∧ Part000_acked_once.(Part000.windowcount)
       ≤ Part000_full_window.(Part000.windowcount)).
Proof.
  edestruct (A_input_leaves_alone Sr_full_window Sr_acked_once
               Part000_full_window Part000_acked_once (ack_pkt 0 0))
    as [(_ & Hbuf & _ & Hw & _) (_ & Hbuf' & _ & Hw' & _)];
    [by_evaluation | by_evaluation | vm_compute; reflexivity
    | vm_compute; reflexivity |].
  exact (conj (conj Hbuf Hw) (conj Hbuf' Hw')).
Defined.

(** ** The packet that a timeout resends *)

Lemma buffer_holds_mono buffer base wc sent sent' :
  buffer_holds buffer base wc sent → sent ⊆ sent' →
  buffer_holds buffer base wc sent'.
Proof.
  intros Hold Hsub j Hj. destruct (Hold j Hj) as (m & Hb & Hin).
  exists m. split; [done|]. by apply Hsub.
Qed.

Lemma Part000_step_buffer st ev s out sent :
  Part000.sender_wf st →
  window_inv st.(Part000.acked) st.(Part000.send_base)
             st.(Part000.A_nextseqnum) st.(Part000.windowcount) →
  buffer_holds st.(Part000.buffer) st.(Part000.send_base)
               st.(Part000.windowcount) sent →
  Part000.A_step st ev = Some (s, out) →
  buffer_holds s.(Part000.buffer) s.(Part000.send_base)
               s.(Part000.windowcount) (sent ++ sent_by A out).
Proof.
  intros Hwf (Hbase & Hnext & Hlen & Hcong & _) Hold Hstep.
  pose proof Hwf as (_ & _ & Hbuf).
  assert (sent ⊆ sent ++ sent_by A out) as Hsub
    by (intros p Hp; apply elem_of_app; by left).
  destruct ev as [message|packet|]; cbn [Part000.A_step] in Hstep.
  - destruct (decide (st.(Part000.windowcount) < WINDOWSIZE)) as [Hroom|Hfull].
    + rewrite Part000_A_output_accepts in Hstep by (done || lia).
      injection Hstep as <- <-.
      cbn [Part000.buffer Part000.send_base Part000.windowcount].
      set (p := data_pkt st.(Part000.A_nextseqnum) message).
      assert (p ∈ sent ++ sent_by A
                (tolayer3 A p ::
                 (if bool_decide (st.(Part000.windowcount) = 0)
                     && negb st.(Part000.timer_running)
                  then [starttimer A RTT] else []))) as Hp.
      { apply elem_of_app. right. unfold sent_by. cbn [omap list_omap].
        rewrite decide_True by done. by left. }
      intros j Hj.
      destruct (decide (j = st.(Part000.windowcount))) as [->|Hne].
      * exists message.
        replace ((st.(Part000.send_base) + st.(Part000.windowcount))
                   `mod` SEQSPACE)
          with st.(Part000.A_nextseqnum) by modarith.
        split; [|done].
        replace (slot (st.(Part000.send_base) + st.(Part000.windowcount)))
          with (slot st.(Part000.A_nextseqnum))
          by (apply slot_eq_iff; modarith).
        apply list_lookup_insert_eq.
        pose proof (slot_lt st.(Part000.A_nextseqnum)).
        unfold WINDOWSIZE in Hbuf. lia.
      * destruct (Hold j ltac:(lia)) as (m & Hb & Hin). exists m.
        split; [|by apply elem_of_app; left].
        rewrite list_lookup_insert_ne; [done|].
        rewrite slot_eq_iff. modarith.
    + unfold Part000.A_output in Hstep. rewrite decide_False in Hstep by done.
      injection Hstep as <- <-. by rewrite app_nil_r.
  - destruct (Part000_A_input_cases _ _ _ _ Hwf Hstep)
      as [[c ->]|[(_ & _ & _ & _ & _ & Hbuf' & Hb & _ & Hw)
                 |(_ & _ & _ & _ & Hbuf' & k & Hslid)]].
    + by eapply buffer_holds_mono.
    + rewrite Hbuf', Hb, Hw. by eapply buffer_holds_mono.
    + rewrite Hbuf'. destruct Hslid as (Hk & -> & -> & _).
      intros j Hj.
      destruct (Hold (j + Z.of_nat k) ltac:(lia)) as (m & Hbm & Hin).
      exists m.
      replace (slot ((st.(Part000.send_base) + Z.of_nat k) `mod` SEQSPACE + j))
        with (slot (st.(Part000.send_base) + (j + Z.of_nat k)))
        by (unfold slot; f_equal; modarith).
      replace (((st.(Part000.send_base) + Z.of_nat k) `mod` SEQSPACE + j)
                 `mod` SEQSPACE)
        with ((st.(Part000.send_base) + (j + Z.of_nat k)) `mod` SEQSPACE)
        by modarith.
      split; [done|]. by apply Hsub.
  - apply Part000_A_timerinterrupt_window in Hstep
      as (_ & Hbuf' & Hb & _ & Hw).
    rewrite Hbuf', Hb, Hw. by eapply buffer_holds_mono.
Qed.

Lemma Part000_run_buffer evs st s out sent :
  Part000.sender_wf st →
  window_inv st.(Part000.acked) st.(Part000.send_base)
             st.(Part000.A_nextseqnum) st.(Part000.windowcount) →
  buffer_holds st.(Part000.buffer) st.(Part000.send_base)
               st.(Part000.windowcount) sent →
  acks_typed evs →
  Part000.A_run st evs = Some (s, out) →
  buffer_holds s.(Part000.buffer) s.(Part000.send_base)
               s.(Part000.windowcount) (sent ++ sent_by A out).
Proof.
  revert st out sent.
  induction evs as [|ev evs IH]; intros st out sent Hwf Hinv Hold Htyped Hrun.
  - cbn in Hrun. simplify_eq. by rewrite app_nil_r.
  - cbn [Part000.A_run] in Hrun. run_inv Hrun. simplify_eq.
    apply Forall_cons in Htyped as [Hev Htyped].
    match goal with H : Part000.A_step _ _ = Some _ |- _ =>
      destruct (Part000_step_window_inv _ _ _ _ Hwf Hinv Hev H)
        as [Hwf1 Hinv1];
      pose proof (Part000_step_buffer _ _ _ _ _ Hwf Hinv Hold H) as Hold1
    end.
    rewrite sent_by_app, app_assoc. by eapply IH.
Qed.

(** X16: the packet that a timeout resends in the sibling draft.  In every
    state that the sender reaches from [A_init] (acknowledgments typed as
    in section 3, or rejected by the checksum) with [windowcount > 0],
    [A_timerinterrupt] hands exactly one packet to layer 3: the packet
    that [A_output] built for the sequence number [send_base] and handed
    to layer 3 earlier in the run.  It calls [starttimer], sets
    [timer_running], counts the retransmission and leaves the window as it
    was. *)
Theorem Part000_timeout_resends_base_packet
    (evs : list A_event) (st : Part000.sender) (out : list event) :
  acks_typed evs →
  Part000.A_run Part000.A_init evs = Some (st, out) →
  st.(Part000.windowcount) > 0 →
  ∃ m,
    data_pkt st.(Part000.send_base) m ∈ sent_by A out ∧
    Part000.A_timerinterrupt st
    = Some ({| Part000.buffer := st.(Part000.buffer);
               Part000.acked := st.(Part000.acked);
               Part000.send_base := st.(Part000.send_base);
               Part000.A_nextseqnum := st.(Part000.A_nextseqnum);
               Part000.windowcount := st.(Part000.windowcount);
               Part000.timer_running := true;
               Part000.stats := incr_packets_resent st.(Part000.stats) |},
            [tolayer3 A (data_pkt st.(Part000.send_base) m);
             starttimer A RTT]).
Proof.
  intros Htyped Hrun Hpos.
  destruct Part000_init_window_inv as [Hwf0 Hinv0].
  destruct (Part000_run_window_inv _ _ _ _ Hwf0 Hinv0 Htyped Hrun)
    as [_ (Hbase & _ & _ & _ & Hflag)].
  assert (buffer_holds Part000.A_init.(Part000.buffer)
            Part000.A_init.(Part000.send_base)
            Part000.A_init.(Part000.windowcount) []) as Hold0.
  { intros j Hj. cbn in Hj. lia. }
  pose proof (Part000_run_buffer evs Part000.A_init st out [] Hwf0 Hinv0
                Hold0 Htyped Hrun) as Hold.
  destruct (Hold 0 ltac:(lia)) as (m & Hb & Hin).
  rewrite app_nil_l in Hin.
  rewrite Z.add_0_r, Z.mod_small in Hb, Hin by done.
  exists m. split; [done|].
  apply Part000_timerinterrupt_base; [lia | by apply Hflag | done].
Qed.

Lemma Part000_timeout_resends_base_packet_witness :
  ∃ m s,
    Part000.A_timerinterrupt Part000_wrapped
    = Some (s, [tolayer3 A (data_pkt 7 m); starttimer A RTT]).
Proof.
  destruct (Part000_timeout_resends_base_packet wrapped_run Part000_wrapped
              Part000_wrapped_out) as (m & _ & Hrun).
  - unfold wrapped_run.
    repeat (apply Forall_cons; split;
            [first [exact I | right; left; by_evaluation]|]).
    exact (Forall_nil_2 _).
  - vm_compute. reflexivity.
  - reflexivity.
  - exists m. eexists. exact Hrun.
Defined.

(** ** What the sender hands to layer 3 *)

Lemma slots_written_mono buffer acked base next wc sent sent' :
  slots_written buffer acked base next wc sent → sent ⊆ sent' →
  slots_written buffer acked base next wc sent'.
Proof.
  intros [Hall|(Hb & Hw & Hsum & Hn & Hlow & Hhigh)] Hsub.
  - left. intros i Hi. destruct (Hall i Hi) as (p & Hp & Hin).
    exists p. split; [done|]. by apply Hsub.
  - right. split_and!; try done. intros i Hi.
    destruct (Hlow i Hi) as (p & Hp & Hin).
    exists p. split; [done|]. by apply Hsub.
Qed.

(** A slot whose flag is clear holds a packet that was sent. *)
Lemma slots_written_cleared buffer acked base next wc sent j p :
  slots_written buffer acked base next wc sent →
  (j < 6)%nat → acked !! j = Some false → buffer !! j = Some p → p ∈ sent.
Proof.
  intros [Hall|(_ & _ & _ & _ & Hlow & Hhigh)] Hj Hflag Hp.
  - destruct (Hall j Hj) as (q & Hq & Hin). by simplify_eq.
  - destruct (decide (Z.of_nat j < next)) as [Hlt|Hge].
    + destruct (Hlow j Hlt) as (q & Hq & Hin). by simplify_eq.
    + rewrite Hhigh in Hflag by (unfold WINDOWSIZE; lia). done.
Qed.

Lemma slots_written_output buffer acked base next wc sent p :
  0 ≤ next → length buffer = 6%nat → length acked = 6%nat →
  slots_written buffer acked base next wc sent →
  slots_written (<[slot next := p]> buffer) (<[slot next := false]> acked)
                base (Z.rem (next + 1) SEQSPACE) (wc + 1) (sent ++ [p]).
Proof.
  intros Hnext Hlen Hlen' Hinv.
  pose proof (slot_lt next) as Hslot.
  assert (∀ i, (∃ q, buffer !! i = Some q ∧ q ∈ sent) ∨ i = slot next →
               ∃ q, <[slot next := p]> buffer !! i = Some q ∧
                    q ∈ sent ++ [p]) as Hkeep.
  { intros i Hi. destruct (decide (i = slot next)) as [->|Hne].
    - exists p. rewrite list_lookup_insert_eq by lia. split; [done|].
      apply elem_of_app. right. by left.
    - destruct Hi as [(q & Hq & Hin)|]; [|done]. exists q.
      rewrite list_lookup_insert_ne by lia. split; [done|].
      apply elem_of_app. by left. }
  destruct Hinv as [Hall|(Hb & Hw & Hsum & Hn & Hlow & Hhigh)].
  - left. intros i Hi. apply Hkeep. left. by apply Hall.
  - assert (slot next = Z.to_nat next) as Hs by modarith.
    destruct (decide (next + 1 < WINDOWSIZE)) as [Hroom|Hlast].
    + right. replace (Z.rem (next + 1) SEQSPACE) with (next + 1) by modarith.
      split_and!; try lia.
      * intros i Hi. apply Hkeep.
        destruct (decide (i = slot next)); [by right|]. left. apply Hlow. lia.
      * intros i Hi. rewrite list_lookup_insert_ne by lia. apply Hhigh. lia.
    + left. intros i Hi. apply Hkeep.
      destruct (decide (i = slot next)); [by right|]. left. apply Hlow.
      unfold WINDOWSIZE in *. lia.
Qed.

Lemma slots_written_mark buffer acked base next wc sent j :
  slots_written buffer acked base next wc sent →
  slots_written buffer (<[j := true]> acked) base next wc sent.
Proof.
  intros [Hall|(Hb & Hw & Hsum & Hn & Hlow & Hhigh)]; [by left|].
  right. split_and!; try done. intros i Hi.
  destruct (decide (j = i)) as [->|Hne].
  - apply list_lookup_insert_eq. eapply lookup_lt_Some. by apply Hhigh.
  - rewrite list_lookup_insert_ne by done. by apply Hhigh.
Qed.

Lemma slots_written_slid buffer acked base next wc sent k acked' base' wc' :
  slots_written buffer acked base next wc sent →
  window_slid acked base wc k acked' base' wc' →
  acked !! slot base ≠ Some true →
  slots_written buffer acked' base' next wc' sent.
Proof.
  intros [Hall|(Hb & Hw & Hsum & Hn & Hlow & Hhigh)]
         (Hk & -> & -> & _ & _ & Hsame & Hpos & _) Hnew; [by left|].
  assert (wc ≠ 0) as Hwc.
  { intros ->. apply Hnew. apply Hhigh. modarith. }
  assert (Z.of_nat k ≤ wc) as Hle.
  { destruct (decide (Z.of_nat k ≤ wc)) as [|Hgt]; [done|].
    exfalso. apply (Hpos (Z.to_nat wc)); lia. }
  right. split_and!.
  - modarith.
  - lia.
  - modarith.
  - done.
  - done.
  - intros i Hi. rewrite Hsame; [by apply Hhigh|].
    intros j Hj. modarith.
Qed.

Lemma built_from_mono msgs more p :
  built_from msgs p → built_from (msgs ++ more) p.
Proof.
  intros (k & m & Hk & ->). exists k, m. split; [|done].
  by apply lookup_app_l_Some.
Qed.

Lemma built_from_not_corrupted msgs p :
  built_from msgs p → IsCorrupted p = false.
Proof. intros (k & m & _ & ->). apply stamped_not_corrupted. Qed.

Lemma sent_by_cons_tolayer3 p out :
  sent_by A (tolayer3 A p :: out) = p :: sent_by A out.
Proof. unfold sent_by. cbn [omap list_omap]. by rewrite decide_True. Qed.

Lemma sent_by_optional_starttimer (c : bool) :
  sent_by A (if c then [starttimer A RTT] else []) = [].
Proof. by destruct c. Qed.

Lemma Part000_timerinterrupt_cases st s out :
  0 ≤ st.(Part000.send_base) →
  Part000.A_timerinterrupt st = Some (s, out) →
  out = [] ∨
  ∃ p, st.(Part000.acked) !! slot st.(Part000.send_base) = Some false ∧
       st.(Part000.buffer) !! slot st.(Part000.send_base) = Some p ∧
       out = [tolayer3 A p; starttimer A RTT].
Proof.
  intros Hbase Hrun. unfold Part000.A_timerinterrupt in Hrun.
  cbn zeta in Hrun.
  destruct (idx st.(Part000.acked) _) as [[]|] eqn:Ha; [| |done].
  - left. cbn in Hrun. by simplify_eq.
  - right. rewrite mbind_Some in Hrun. cbn [negb] in Hrun.
    destruct (idx st.(Part000.buffer) _) as [p|] eqn:Hp; [|done].
    rewrite mbind_Some in Hrun. simplify_eq.
    apply idx_Some in Ha as [_ Ha]. apply idx_Some in Hp as [_ Hp].
    rewrite rem_slot in Ha, Hp by done. by exists p.
Qed.

Lemma Sr_resend_scan_cleared fuel flags base wc next i j :
  Sr.resend_scan fuel flags base wc next i = Some (Some j) →
  idx flags j = Some false.
Proof.
  revert i. induction fuel as [|fuel IH]; intros i Hscan; [done|].
  cbn [Sr.resend_scan] in Hscan.
  destruct (decide (i < wc)); [|done].
  cbn zeta in Hscan.
  destruct (idx flags (Z.rem _ _)) as [a|] eqn:Ha; [|done].
  rewrite mbind_Some in Hscan.
  destruct a; cbn [negb andb] in Hscan.
  - by eapply IH.
  - destruct (bool_decide _); cbn [negb] in Hscan; [by eapply IH|].
    by simplify_eq.
Qed.

Lemma Sr_timerinterrupt_cases st s out :
  Sr.A_timerinterrupt st = Some (s, out) →
  out = [] ∨
  ∃ j p, idx st.(Sr.acked) j = Some false ∧
         idx st.(Sr.buffer) j = Some p ∧
         out = [tolayer3 A p; starttimer A RTT].
Proof.
  unfold Sr.A_timerinterrupt. intros Hrun.
  destruct (Sr.resend_scan _ _ _ _ _ _) as [[j|]|] eqn:Hscan; [| |done].
  - rewrite mbind_Some in Hrun.
    destruct (idx st.(Sr.buffer) j) as [p|] eqn:Hp; [|done].
    rewrite mbind_Some in Hrun. simplify_eq. right. exists j, p.
    split_and!; try done. by eapply Sr_resend_scan_cleared.
  - left. rewrite mbind_Some in Hrun. by simplify_eq.
Qed.

Lemma Part000_step_written st ev s out sent :
  Part000.sender_wf st → 0 ≤ st.(Part000.A_nextseqnum) →
  slots_written st.(Part000.buffer) st.(Part000.acked)
                st.(Part000.send_base) st.(Part000.A_nextseqnum)
                st.(Part000.windowcount) sent →
  Part000.A_step st ev = Some (s, out) →
  slots_written s.(Part000.buffer) s.(Part000.acked)
                s.(Part000.send_base) s.(Part000.A_nextseqnum)
                s.(Part000.windowcount) (sent ++ sent_by A out).
Proof.
  intros Hwf Hnext Hinv Hstep. pose proof Hwf as (Hbase & Hlen & Hbuf).
  assert (sent ⊆ sent ++ sent_by A out) as Hsub
    by (intros p Hp; apply elem_of_app; by left).
  destruct ev as [message|packet|]; cbn [Part000.A_step] in Hstep.
  - destruct (decide (st.(Part000.windowcount) < WINDOWSIZE)) as [Hroom|Hfull].
    + rewrite Part000_A_output_accepts in Hstep by done.
      injection Hstep as <- <-.
      cbn [Part000.buffer Part000.acked Part000.send_base
           Part000.A_nextseqnum Part000.windowcount].
      rewrite sent_by_cons_tolayer3.
      rewrite sent_by_optional_starttimer.
      apply slots_written_output; [done | | | done];
        unfold WINDOWSIZE in *; lia.
    + unfold Part000.A_output in Hstep. rewrite decide_False in Hstep by done.
      injection Hstep as <- <-. by rewrite app_nil_r.
  - destruct (Part000_A_input_cases _ _ _ _ Hwf Hstep)
      as [[c ->]|[(_ & _ & _ & _ & Hack & Hbuf' & Hb & Hn & Hw)
                 |(Hgood & Hackbase & _ & Hn & Hbuf' & k & Hslid)]].
    + by eapply slots_written_mono.
    + rewrite Hack, Hbuf', Hb, Hn, Hw.
      eapply slots_written_mono; [|done]. by apply slots_written_mark.
    + rewrite Hn, Hbuf'. eapply slots_written_mono; [|done].
      eapply slots_written_slid; [done | done |].
      intros Htrue.
      rewrite Part000_A_input_duplicate in Hstep;
        [| done | rewrite Hackbase; by apply in_window_base
         | by rewrite Hackbase, idx_lookup, rem_slot by modarith].
      injection Hstep as <- <-. destruct Hslid as (Hk & _ & Hwc & _).
      cbn in Hwc. lia.
  - apply Part000_A_timerinterrupt_window in Hstep
      as (Ha & Hb' & Hbase' & Hn & Hw).
    rewrite Ha, Hb', Hbase', Hn, Hw. by eapply slots_written_mono.
Qed.

Lemma Sr_step_written st ev s out sent :
  Sr.sender_wf st → 0 ≤ st.(Sr.A_nextseqnum) →
  slots_written st.(Sr.buffer) st.(Sr.acked) st.(Sr.send_base)
                st.(Sr.A_nextseqnum) st.(Sr.windowcount) sent →
  Sr.A_step st ev = Some (s, out) →
  slots_written s.(Sr.buffer) s.(Sr.acked) s.(Sr.send_base)
                s.(Sr.A_nextseqnum) s.(Sr.windowcount)
                (sent ++ sent_by A out).
Proof.
  intros Hwf Hnext Hinv Hstep.
  pose proof Hwf as (Hbase & Hlen & Hbuf & _ & _).
  assert (sent ⊆ sent ++ sent_by A out) as Hsub
    by (intros p Hp; apply elem_of_app; by left).
  destruct ev as [message|packet|]; cbn [Sr.A_step] in Hstep.
  - destruct (decide (st.(Sr.windowcount) < WINDOWSIZE)) as [Hroom|Hfull].
    + rewrite Sr_A_output_accepts in Hstep by done.
      injection Hstep as <- <-.
      cbn [Sr.buffer Sr.acked Sr.send_base Sr.A_nextseqnum Sr.windowcount].
      rewrite sent_by_cons_tolayer3.
      apply slots_written_output; [done | | | done];
        unfold WINDOWSIZE in *; lia.
    + unfold Sr.A_output in Hstep. rewrite decide_False in Hstep by done.
      injection Hstep as <- <-. by rewrite app_nil_r.
  - destruct (Sr_A_input_cases _ _ _ _ Hwf Hstep)
      as [[c ->]|[(_ & _ & _ & _ & Hack & Hbuf' & _ & Hb & Hn & Hw)
                 |(Hgood & Hackbase & _ & Hn & Hbuf' & k & Hslid)]].
    + by eapply slots_written_mono.
    + rewrite Hack, Hbuf', Hb, Hn, Hw.
      eapply slots_written_mono; [|done]. by apply slots_written_mark.
    + rewrite Hn, Hbuf'. eapply slots_written_mono; [|done].
      eapply slots_written_slid; [done | done |].
      intros Htrue.
      rewrite Sr_A_input_duplicate in Hstep;
        [| done | rewrite Hackbase; by apply in_window_base
         | by rewrite Hackbase, idx_lookup, rem_slot by modarith].
      injection Hstep as <- <-. destruct Hslid as (Hk & _ & Hwc & _).
      cbn in Hwc. lia.
  - apply Sr_A_timerinterrupt_window in Hstep as [c ->].
    by eapply slots_written_mono.
Qed.

Lemma Part000_step_sends st ev s out sent msgs :
  Part000.sender_wf st → 0 ≤ st.(Part000.A_nextseqnum) →
  slots_written st.(Part000.buffer) st.(Part000.acked)
                st.(Part000.send_base) st.(Part000.A_nextseqnum)
                st.(Part000.windowcount) sent →
  st.(Part000.A_nextseqnum) = Z.of_nat (length msgs) `mod` SEQSPACE →
  (∀ p, p ∈ sent → built_from msgs p) →
  Part000.A_step st ev = Some (s, out) →
  ∀ p, p ∈ sent ++ sent_by A out →
       built_from (msgs ++ accepts st.(Part000.windowcount) ev) p.
Proof.
  intros Hwf Hnext Hinv Hcount Hsent Hstep p [Hp|Hp]%elem_of_app.
  { by apply built_from_mono, Hsent. }
  pose proof Hwf as (Hbase & Hlen & Hbuf).
  destruct ev as [message|packet|]; cbn [Part000.A_step accepts] in *.
  - destruct (decide (st.(Part000.windowcount) < WINDOWSIZE)) as [Hroom|Hfull].
    + rewrite Part000_A_output_accepts in Hstep by done.
      injection Hstep as <- <-. rewrite sent_by_cons_tolayer3 in Hp.
      rewrite sent_by_optional_starttimer in Hp.
      apply list_elem_of_singleton in Hp as ->.
      exists (length msgs), message. split; [|by rewrite Hcount].
      by apply list_lookup_middle.
    + unfold Part000.A_output in Hstep. rewrite decide_False in Hstep by done.
      injection Hstep as <- <-. by apply elem_of_nil in Hp.
  - apply Part000_A_input_events in Hstep as [->|[->| ->]];
      by apply elem_of_nil in Hp.
  - apply Part000_timerinterrupt_cases in Hstep
      as [->|(q & Hflag & Hq & ->)]; [by apply elem_of_nil in Hp| |lia].
    rewrite sent_by_cons_tolayer3 in Hp.
    apply list_elem_of_singleton in Hp as ->.
    apply built_from_mono, Hsent.
    eapply slots_written_cleared; [done | apply slot_lt | done | done].
Qed.

Lemma Sr_step_sends st ev s out sent msgs :
  Sr.sender_wf st → 0 ≤ st.(Sr.A_nextseqnum) →
  slots_written st.(Sr.buffer) st.(Sr.acked) st.(Sr.send_base)
                st.(Sr.A_nextseqnum) st.(Sr.windowcount) sent →
  st.(Sr.A_nextseqnum) = Z.of_nat (length msgs) `mod` SEQSPACE →
  (∀ p, p ∈ sent → built_from msgs p) →
  Sr.A_step st ev = Some (s, out) →
  ∀ p, p ∈ sent ++ sent_by A out →
       built_from (msgs ++ accepts st.(Sr.windowcount) ev) p.
Proof.
  intros Hwf Hnext Hinv Hcount Hsent Hstep p [Hp|Hp]%elem_of_app.
  { by apply built_from_mono, Hsent. }
  pose proof Hwf as (Hbase & Hlen & Hbuf & _ & _).
  destruct ev as [message|packet|]; cbn [Sr.A_step accepts] in *.
  - destruct (decide (st.(Sr.windowcount) < WINDOWSIZE)) as [Hroom|Hfull].
    + rewrite Sr_A_output_accepts in Hstep by done.
      injection Hstep as <- <-. rewrite sent_by_cons_tolayer3 in Hp.
      apply list_elem_of_singleton in Hp as ->.
      exists (length msgs), message. split; [|by rewrite Hcount].
      by apply list_lookup_middle.
    + unfold Sr.A_output in Hstep. rewrite decide_False in Hstep by done.
      injection Hstep as <- <-. by apply elem_of_nil in Hp.
  - apply Sr_A_input_events in Hstep as [->|[->| ->]];
      by apply elem_of_nil in Hp.
  - apply Sr_timerinterrupt_cases in Hstep
      as [->|(j & q & Hflag & Hq & ->)]; [by apply elem_of_nil in Hp|].
    rewrite sent_by_cons_tolayer3 in Hp.
    apply list_elem_of_singleton in Hp as ->.
    apply idx_Some in Hflag as [Hj Hflag]. apply idx_Some in Hq as [_ Hq].
    apply built_from_mono, Hsent.
    eapply slots_written_cleared; [done | | done | done].
    unfold WINDOWSIZE in *. lia.
Qed.

Lemma Part000_run_sends evs st s out sent msgs :
  Part000.sender_wf st →
  window_inv st.(Part000.acked) st.(Part000.send_base)
             st.(Part000.A_nextseqnum) st.(Part000.windowcount) →
  slots_written st.(Part000.buffer) st.(Part000.acked)
                st.(Part000.send_base) st.(Part000.A_nextseqnum)
                st.(Part000.windowcount) sent →
  st.(Part000.A_nextseqnum) = Z.of_nat (length msgs) `mod` SEQSPACE →
  (∀ p, p ∈ sent → built_from msgs p) →
  acks_typed evs →
  Part000.A_run st evs = Some (s, out) →
  ∀ p, p ∈ sent ++ sent_by A out →
       built_from (msgs ++ Part000.accepted st evs) p.
Proof.
  revert st out sent msgs.
  induction evs as [|ev evs IH];
    intros st out sent msgs Hwf Hinv Hslots Hcount Hsent Htyped Hrun.
  - cbn in Hrun. simplify_eq. cbn. rewrite !app_nil_r. exact Hsent.
  - cbn [Part000.A_run] in Hrun. run_inv Hrun. simplify_eq.
    apply Forall_cons in Htyped as [Hev Htyped].
    cbn [Part000.accepted].
    assert (0 ≤ st.(Part000.A_nextseqnum)) as Hnext
      by (destruct Hinv as (_ & ? & _); lia).
    match goal with H : Part000.A_step _ _ = Some _ |- _ =>
      rewrite H;
      destruct (Part000_step_window_inv _ _ _ _ Hwf Hinv Hev H)
        as [Hwf1 Hinv1];
      pose proof (Part000_step_written _ _ _ _ _ Hwf Hnext Hslots H)
        as Hslots1;
      pose proof (Part000_step_sends _ _ _ _ _ _ Hwf Hnext Hslots Hcount
                    Hsent H) as Hsent1;
      pose proof (Part000_step_nextseqnum _ _ _ _ _ H Hcount) as Hcount1
    end.
    rewrite <- length_app in Hcount1.
    rewrite sent_by_app, !app_assoc. by eapply IH.
Qed.

Lemma Sr_run_sends evs st s out sent msgs :
  Sr.sender_wf st →
  window_inv st.(Sr.acked) st.(Sr.send_base)
             st.(Sr.A_nextseqnum) st.(Sr.windowcount) →
  slots_written st.(Sr.buffer) st.(Sr.acked) st.(Sr.send_base)
                st.(Sr.A_nextseqnum) st.(Sr.windowcount) sent →
  st.(Sr.A_nextseqnum) = Z.of_nat (length msgs) `mod` SEQSPACE →
  (∀ p, p ∈ sent → built_from msgs p) →
  acks_typed evs →
  Sr.A_run st evs = Some (s, out) →
  ∀ p, p ∈ sent ++ sent_by A out →
       built_from (msgs ++ Sr.accepted st evs) p.
Proof.
  revert st out sent msgs.
  induction evs as [|ev evs IH];
    intros st out sent msgs Hwf Hinv Hslots Hcount Hsent Htyped Hrun.
  - cbn in Hrun. simplify_eq. cbn. rewrite !app_nil_r. exact Hsent.
  - cbn [Sr.A_run] in Hrun. run_inv Hrun. simplify_eq.
    apply Forall_cons in Htyped as [Hev Htyped].
    cbn [Sr.accepted].
    assert (0 ≤ st.(Sr.A_nextseqnum)) as Hnext
      by (destruct Hinv as (_ & ? & _); lia).
    match goal with H : Sr.A_step _ _ = Some _ |- _ =>
      rewrite H;
      destruct (Sr_step_window_inv _ _ _ _ Hwf Hinv Hev H)
        as [Hwf1 Hinv1];
      pose proof (Sr_step_written _ _ _ _ _ Hwf Hnext Hslots H) as Hslots1;
      pose proof (Sr_step_sends _ _ _ _ _ _ Hwf Hnext Hslots Hcount
                    Hsent H) as Hsent1;
      pose proof (Sr_step_nextseqnum _ _ _ _ _ H Hcount) as Hcount1
    end.
    rewrite <- length_app in Hcount1.
    rewrite sent_by_app, !app_assoc. by eapply IH.
Qed.

Lemma slots_written_init :
  slots_written (replicate 6 zero_pkt) (replicate 6 true) 0 0 0 [].
Proof.
  right. split_and!; try done.
  - intros i Hi. lia.
  - intros i Hi. apply lookup_replicate_2. unfold WINDOWSIZE in Hi. lia.
Qed.

(** X17: what [sr.c] hands to layer 3.  Whatever calls of [A_output],
    [A_input] and [A_timerinterrupt] follow [A_init] (acknowledgments typed
    as in section 3, or rejected by the checksum), every packet that the
    sender hands to layer 3, first transmission or retransmission, is the
    packet that [A_output] built for one of the messages it accepted: the
    [k]-th accepted message under the sequence number [k % SEQSPACE], with
    the checksum that [IsCorrupted] accepts.  The zeroed buffer that the
    program starts with is never sent, although [A_timerinterrupt] picks
    its slot by the flags alone. *)
Theorem Sr_sends_only_accepted_messages
    (evs : list A_event) (st : Sr.sender) (out : list event) (p : pkt) :
  acks_typed evs →
  Sr.A_run Sr.A_init evs = Some (st, out) →
  p ∈ sent_by A out →
  built_from (Sr.accepted Sr.A_init evs) p ∧ IsCorrupted p = false.
Proof.
  intros Htyped Hrun Hp.
  destruct Sr_init_window_inv as [Hwf0 Hinv0].
  assert (built_from (Sr.accepted Sr.A_init evs) p) as Hbuilt.
  { apply (Sr_run_sends evs Sr.A_init st out [] [] Hwf0 Hinv0
             slots_written_init eq_refl); [|done..].
    intros q Hq. by apply elem_of_nil in Hq. }
  split; [done|]. by eapply built_from_not_corrupted.
Qed.

Lemma Sr_sends_only_accepted_messages_witness :
  built_from (Sr.accepted Sr.A_init wrapped_run)
             (data_pkt 7 (sample_msg "b")) ∧
  IsCorrupted (data_pkt 7 (sample_msg "b")) = false.
Proof.
  apply (Sr_sends_only_accepted_messages wrapped_run Sr_wrapped
           Sr_wrapped_out).
  - unfold wrapped_run.
    repeat (apply Forall_cons; split;
            [first [exact I | right; left; by_evaluation]|]).
    exact (Forall_nil_2 _).
  - vm_compute. reflexivity.
  - apply list_elem_of_lookup_2 with 7%nat. vm_compute. reflexivity.
Defined.

(** X18: what the sibling draft hands to layer 3.  Whatever calls of
    [A_output], [A_input] and [A_timerinterrupt] follow [A_init]
    (acknowledgments typed as in section 3, or rejected by the checksum),
    every packet that the sender hands to layer 3 is the packet that
    [A_output] built for one of the messages it accepted, the [k]-th under
    the sequence number [k % SEQSPACE], and [IsCorrupted] accepts it.  This
    covers a timeout that arrives when nothing is outstanding: the slot of
    [send_base] then holds a packet sent six numbers earlier, or its flag
    is still set. *)
Theorem Part000_sends_only_accepted_messages
    (evs : list A_event) (st : Part000.sender) (out : list event)
    (p : pkt) :
  acks_typed evs →
  Part000.A_run Part000.A_init evs = Some (st, out) →
  p ∈ sent_by A out →
  built_from (Part000.accepted Part000.A_init evs) p ∧
  IsCorrupted p = false.
Proof.
  intros Htyped Hrun Hp.
  destruct Part000_init_window_inv as [Hwf0 Hinv0].
  assert (built_from (Part000.accepted Part000.A_init evs) p) as Hbuilt.
  { apply (Part000_run_sends evs Part000.A_init st out [] [] Hwf0 Hinv0
             slots_written_init eq_refl); [|done..].
    intros q Hq. by apply elem_of_nil in Hq. }
  split; [done|]. by eapply built_from_not_corrupted.
Qed.

Lemma Part000_sends_only_accepted_messages_witness :
  built_from (Part000.accepted Part000.A_init wrapped_run)
             (data_pkt 7 (sample_msg "b")) ∧
  IsCorrupted (data_pkt 7 (sample_msg "b")) = false.
Proof.
  apply (Part000_sends_only_accepted_messages wrapped_run Part000_wrapped
           Part000_wrapped_out).
  - unfold wrapped_run.
    repeat (apply Forall_cons; split;
            [first [exact I | right; left; by_evaluation]|]).
    exact (Forall_nil_2 _).
  - vm_compute. reflexivity.
  - apply list_elem_of_lookup_2 with 7%nat. vm_compute. reflexivity.
Defined.

(** ** The timeout scan of [sr-harry.c] *)

Lemma SrHarry_scan_hit n acked base next i :
  0 ≤ base → 0 ≤ i → resend_due acked base next i →
  SrHarry.resend_scan (S n) acked base next i
  = Some (Some (Z.of_nat (slot (base + i)))).
Proof.
  intros Hbase Hi [Hflag Hne]. cbn [SrHarry.resend_scan]. cbn zeta.
  replace (Z.rem (Z.rem (base + i) SEQSPACE) WINDOWSIZE)
    with (Z.of_nat (slot (base + i))) by modarith.
  replace (Z.rem (base + i) SEQSPACE) with ((base + i) `mod` SEQSPACE)
    by modarith.
  rewrite idx_lookup, Nat2Z.id, Hflag, mbind_Some by lia.
  by rewrite bool_decide_eq_false_2.
Qed.

Lemma SrHarry_scan_skip n acked base next i :
  0 ≤ base → 0 ≤ i → length acked = 6%nat →
  ¬ resend_due acked base next i →
  SrHarry.resend_scan (S n) acked base next i
  = SrHarry.resend_scan n acked base next (i + 1).
Proof.
  intros Hbase Hi Hlen Hskip. cbn [SrHarry.resend_scan]. cbn zeta.
  replace (Z.rem (Z.rem (base + i) SEQSPACE) WINDOWSIZE)
    with (Z.of_nat (slot (base + i))) by modarith.
  replace (Z.rem (base + i) SEQSPACE) with ((base + i) `mod` SEQSPACE)
    by modarith.
  rewrite idx_lookup, Nat2Z.id by lia.
  destruct (lookup_lt_is_Some_2 acked (slot (base + i))) as [a Ha].
  { pose proof (slot_lt (base + i)). lia. }
  rewrite Ha, mbind_Some. destruct a; [done|].
  destruct (decide ((base + i) `mod` SEQSPACE = next)) as [Heq|Hne].
  - by rewrite bool_decide_eq_true_2.
  - destruct Hskip. by split.
Qed.

Lemma SrHarry_scan_found n acked base next i (k : nat) :
  0 ≤ base → 0 ≤ i → length acked = 6%nat → (k < n)%nat →
  (∀ j, i ≤ j < i + Z.of_nat k → ¬ resend_due acked base next j) →
  resend_due acked base next (i + Z.of_nat k) →
  SrHarry.resend_scan n acked base next i
  = Some (Some (Z.of_nat (slot (base + (i + Z.of_nat k))))).
Proof.
  intros Hbase Hi Hlen. revert i k Hi.
  induction n as [|n IH]; intros i k Hi Hk Hskip Hdue; [lia|].
  destruct k as [|k].
  - rewrite Z.add_0_r in *. by apply SrHarry_scan_hit.
  - rewrite SrHarry_scan_skip by (done || apply Hskip; lia).
    replace (i + Z.of_nat (S k)) with (i + 1 + Z.of_nat k) in * by lia.
    apply IH; [lia | lia | | done].
    intros j Hj. apply Hskip. lia.
Qed.

Lemma SrHarry_scan_none n acked base next i :
  0 ≤ base → 0 ≤ i → length acked = 6%nat →
  (∀ j, i ≤ j < i + Z.of_nat n → ¬ resend_due acked base next j) →
  SrHarry.resend_scan n acked base next i = Some None.
Proof.
  intros Hbase Hi Hlen. revert i Hi.
  induction n as [|n IH]; intros i Hi Hskip; [done|].
  rewrite SrHarry_scan_skip by (done || apply Hskip; lia).
  apply IH; [lia|]. intros j Hj. apply Hskip. lia.
Qed.

(** X19: the timeout of [sr-harry.c].  [A_timerinterrupt] goes through
    the [WINDOWSIZE] slots from that of [send_base] on and resends the
    first whose flag is clear and whose sequence number differs from
    [nextseqnum]: it hands the packet in that slot to layer 3, calls
    [starttimer] and counts one retransmission.  When no slot qualifies it
    does nothing.  [windowcount] is not consulted. *)
Theorem SrHarry_timeout_resends_first_due (st : SrHarry.sender) :
  0 ≤ st.(SrHarry.send_base) → length st.(SrHarry.acked) = 6%nat →
  (∀ i p,
     0 ≤ i < WINDOWSIZE →
     (∀ j, 0 ≤ j < i →
        ¬ resend_due st.(SrHarry.acked) st.(SrHarry.send_base)
                     st.(SrHarry.nextseqnum) j) →
     resend_due st.(SrHarry.acked) st.(SrHarry.send_base)
                st.(SrHarry.nextseqnum) i →
     st.(SrHarry.buffer) !! slot (st.(SrHarry.send_base) + i) = Some p →
     SrHarry.A_timerinterrupt st
     = Some ({| SrHarry.buffer := st.(SrHarry.buffer);
                SrHarry.acked := st.(SrHarry.acked);
                SrHarry.timers := st.(SrHarry.timers);
                SrHarry.send_base := st.(SrHarry.send_base);
                SrHarry.nextseqnum := st.(SrHarry.nextseqnum);
                SrHarry.windowcount := st.(SrHarry.windowcount);
                SrHarry.stats := incr_packets_resent st.(SrHarry.stats) |},
             [tolayer3 A p; starttimer A RTT])) ∧
  ((∀ j, 0 ≤ j < WINDOWSIZE →
      ¬ resend_due st.(SrHarry.acked) st.(SrHarry.send_base)
                   st.(SrHarry.nextseqnum) j) →
   SrHarry.A_timerinterrupt st = Some (st, [])).
Proof.
  intros Hbase Hlen. split.
  - intros i p Hi Hskip Hdue Hp. unfold SrHarry.A_timerinterrupt.
    rewrite (SrHarry_scan_found 6 _ _ _ 0 (Z.to_nat i));
      [| done | done | done | unfold WINDOWSIZE in Hi; lia
       | intros j Hj; apply Hskip; lia
       | by rewrite Z.add_0_l, Z2Nat.id by lia].
    rewrite Z.add_0_l, Z2Nat.id, mbind_Some, idx_lookup, Nat2Z.id by lia.
    by rewrite Hp.
  - intros Hskip. unfold SrHarry.A_timerinterrupt.
    rewrite (SrHarry_scan_none 6 _ _ _ 0); [done..|].
    intros j Hj. apply Hskip. unfold WINDOWSIZE. lia.
Qed.

Lemma SrHarry_timeout_resends_first_due_witness :
  ∃ s, SrHarry.A_timerinterrupt SrHarry_one_outstanding
       = Some (s, [tolayer3 A (data_pkt 1 (sample_msg "b"));
                   starttimer A RTT]).
Proof.
  destruct (SrHarry_timeout_resends_first_due SrHarry_one_outstanding)
    as [Hhit _].
  - vm_compute. discriminate.
  - reflexivity.
  - eexists. apply (Hhit 0).
    + unfold WINDOWSIZE. lia.
    + intros j Hj. lia.
    + split; [reflexivity|]. vm_compute. discriminate.
    + reflexivity.
Defined.

(** ** The counters *)

Lemma counters_advance_trans c1 c2 c3 ev evs acc acc' out out' :
  counters_advance c1 c2 [ev] acc out →
  counters_advance c2 c3 evs acc' out' →
  counters_advance c1 c3 (ev :: evs) (acc ++ acc') (out ++ out').
Proof.
  intros (Hf & Ht & Hn & Hr) (Hf' & Ht' & Hn' & Hr').
  unfold counters_advance.
  change (ev :: evs) with ([ev] ++ evs).
  unfold offered, intact_acks in *.
  rewrite !omap_app, sent_by_app, !length_app. lia.
Qed.

Lemma Part000_step_counters st ev s out :
  Part000.A_step st ev = Some (s, out) →
  counters_advance st.(Part000.stats) s.(Part000.stats) [ev]
                   (accepts st.(Part000.windowcount) ev) out.
Proof.
  intros Hstep. unfold counters_advance, offered, intact_acks.
  destruct ev as [message|packet|];
    cbn [Part000.A_step accepts omap list_omap] in *.
  - unfold Part000.A_output in Hstep.
    destruct (decide (st.(Part000.windowcount) < WINDOWSIZE));
      run_inv Hstep; simplify_eq; rewrite ?sent_by_cons_tolayer3,
        ?sent_by_optional_starttimer; cbn; lia.
  - apply Part000_A_input_events in Hstep as Hout.
    assert (sent_by A out = []) as -> by (by destruct Hout as [->|[->| ->]]).
    unfold Part000.A_input in Hstep.
    destruct (IsCorrupted packet); cbn [negb] in Hstep;
      run_inv_all; simplify_eq; cbn; lia.
  - unfold Part000.A_timerinterrupt in Hstep.
    run_inv_all; simplify_eq; rewrite ?sent_by_cons_tolayer3; cbn; lia.
Qed.

Lemma Sr_step_counters st ev s out :
  Sr.A_step st ev = Some (s, out) →
  counters_advance st.(Sr.stats) s.(Sr.stats) [ev]
                   (accepts st.(Sr.windowcount) ev) out.
Proof.
  intros Hstep. unfold counters_advance, offered, intact_acks.
  destruct ev as [message|packet|];
    cbn [Sr.A_step accepts omap list_omap] in *.
  - unfold Sr.A_output in Hstep.
    destruct (decide (st.(Sr.windowcount) < WINDOWSIZE));
      run_inv Hstep; simplify_eq; rewrite ?sent_by_cons_tolayer3;
      cbn; lia.
  - apply Sr_A_input_events in Hstep as Hout.
    assert (sent_by A out = []) as -> by (by destruct Hout as [->|[->| ->]]).
    unfold Sr.A_input in Hstep.
    destruct (IsCorrupted packet); cbn [negb] in Hstep;
      run_inv_all; simplify_eq; cbn; lia.
  - unfold Sr.A_timerinterrupt in Hstep.
    destruct (Sr.resend_scan _ _ _ _ _ _) as [[j|]|]; [| |done].
    + rewrite mbind_Some in Hstep.
      destruct (idx st.(Sr.buffer) j) as [p|]; [|done].
      rewrite mbind_Some in Hstep. simplify_eq.
      rewrite sent_by_cons_tolayer3. cbn. lia.
    + rewrite mbind_Some in Hstep. simplify_eq. cbn. lia.
Qed.

Lemma Part000_run_counters evs st s out :
  Part000.A_run st evs = Some (s, out) →
  counters_advance st.(Part000.stats) s.(Part000.stats) evs
                   (Part000.accepted st evs) out.
Proof.
  revert st out. induction evs as [|ev evs IH]; intros st out Hrun.
  - cbn in Hrun. simplify_eq. unfold counters_advance. cbn. lia.
  - cbn [Part000.A_run] in Hrun. run_inv Hrun. simplify_eq.
    cbn [Part000.accepted].
    match goal with H : Part000.A_step _ _ = Some _ |- _ =>
      rewrite H; apply Part000_step_counters in H end.
    eapply counters_advance_trans; [done|]. by apply IH.
Qed.

Lemma Sr_run_counters evs st s out :
  Sr.A_run st evs = Some (s, out) →
  counters_advance st.(Sr.stats) s.(Sr.stats) evs (Sr.accepted st evs) out.
Proof.
  revert st out. induction evs as [|ev evs IH]; intros st out Hrun.
  - cbn in Hrun. simplify_eq. unfold counters_advance. cbn. lia.
  - cbn [Sr.A_run] in Hrun. run_inv Hrun. simplify_eq.
    cbn [Sr.accepted].
    match goal with H : Sr.A_step _ _ = Some _ |- _ =>
      rewrite H; apply Sr_step_counters in H end.
    eapply counters_advance_trans; [done|]. by apply IH.
Qed.

(** X20: the counters account for the traffic.  After any calls of
    [A_output], [A_input] and [A_timerinterrupt] that follow [A_init] with
    the counters at zero, in [sr.c] and in the sibling draft:
    [window_full] is the number of messages offered less the number
    accepted; [total_ACKs_received] is the number of packets that arrived
    uncorrupted; [new_ACKs] lies between 0 and [total_ACKs_received]; and
    [packets_resent] is the number of packets handed to layer 3 less the
    number of messages accepted. *)
Theorem counters_account_for_traffic
    (evs evs' : list A_event) (st : Sr.sender) (st' : Part000.sender)
    (out out' : list event) :
  Sr.A_run Sr.A_init evs = Some (st, out) →
  Part000.A_run Part000.A_init evs' = Some (st', out') →
  (st.(Sr.stats).(window_full)
     = Z.of_nat (length (offered evs))
       - Z.of_nat (length (Sr.accepted Sr.A_init evs)) ∧
   st.(Sr.stats).(total_ACKs_received)
     = Z.of_nat (length (intact_acks evs)) ∧
   0 ≤ st.(Sr.stats).(new_ACKs) ≤ st.(Sr.stats).(total_ACKs_received) ∧
   st.(Sr.stats).(packets_resent)
     = Z.of_nat (length (sent_by A out))
       - Z.of_nat (length (Sr.accepted Sr.A_init evs))) ∧
  (st'.(Part000.stats).(window_full)
     = Z.of_nat (length (offered evs'))
       - Z.of_nat (length (Part000.accepted Part000.A_init evs')) ∧
   st'.(Part000.stats).(total_ACKs_received)
     = Z.of_nat (length (intact_acks evs')) ∧
   0 ≤ st'.(Part000.stats).(new_ACKs)
     ≤ st'.(Part000.stats).(total_ACKs_received) ∧
   st'.(Part000.stats).(packets_resent)
     = Z.of_nat (length (sent_by A out'))
       - Z.of_nat (length (Part000.accepted Part000.A_init evs'))).
Proof.
  intros Hrun Hrun'.
  apply Sr_run_counters in Hrun as (Hf & Ht & Hn & Hr).
  apply Part000_run_counters in Hrun' as (Hf' & Ht' & Hn' & Hr').
  cbn in *. split; split_and!; lia.
Qed.

Lemma counters_account_for_traffic_witness :
  Sr_timed.(Sr.stats).(packets_resent) = 1 ∧
  Part000_timed.(Part000.stats).(packets_resent) = 1.
Proof.
  destruct (counters_account_for_traffic timed_run timed_run
              Sr_timed Part000_timed Sr_timed_out Part000_timed_out)
    as [(_ & _ & _ & Hr) (_ & _ & _ & Hr')].
  - vm_compute. reflexivity.
  - vm_compute. reflexivity.
  - split; [rewrite Hr | rewrite Hr']; vm_compute; reflexivity.
Defined.
